(** * django-machina: topic / post tracker consistency

    A shallow embedding of
    [machina/apps/forum_conversation/abstract_models.py]
    (classes [AbstractTopic] and [AbstractPost]) together with the
    collaborators these classes call.  The database is an explicit
    store of three tables; model instances are records that are passed
    in and handed back, so that a stale in-memory instance and its
    memoised [_first_post] / [_last_post] are part of the model.
    Methods run in a state-and-exception monad whose state survives an
    exception, as a database in autocommit mode does. *)

From Stdlib Require Import String DecimalString ZArith List Bool Lia Arith.
Import ListNotations.
Open Scope Z_scope.

(** ** Rows of the three tables *)

(** Forum types; the forum model is [forum.Forum], its three types are
    the ones the conversation code asks about with [is_category] and
    [is_link]. *)
Inductive ForumType := forum_post | forum_cat | forum_link.

Record ForumRow := mkForum {
  f_id : Z;
  f_parent : option Z;
  f_type : ForumType;
  f_topics_count : nat;
  f_posts_count : nat
}.

Record TopicRow := mkTopicRow {
  tr_id : Z;
  tr_forum : Z;
  tr_poster : Z;
  tr_subject : string;
  tr_slug : string;
  tr_type : Z;
  tr_status : Z;
  tr_approved : bool;
  tr_posts_count : nat;
  tr_views_count : nat;
  tr_created : Z;
  tr_updated : Z
}.

Record PostRow := mkPostRow {
  pr_id : Z;
  pr_topic : Z;
  pr_poster : Z;
  pr_subject : string;
  pr_content : string;
  pr_approved : bool;
  pr_created : Z;
  pr_updated : Z
}.

Record DB := mkDB {
  forums : list ForumRow;
  topics : list TopicRow;
  posts : list PostRow
}.

(** ** The world: database, the class-level [auto_now] switch of the
    topic's [updated] field, and the log of calls *)

Inductive Event :=
| TopicGet (tid : Z)                (* Topic._default_manager.get(pk=..) *)
| TopicModelSave (tid : Z)          (* models.Model.save on a topic *)
| TopicModelDelete (tid : Z)        (* models.Model.delete on a topic *)
| TopicUpdateTrackers (tid : option Z)
| PostModelSave (pid : Z)
| PostModelDelete (pid : Z)
| ForumRefresh (fid : Z)            (* machina.core.utils.refresh *)
| ForumUpdateTrackers (fid : Z).

Inductive Exn :=
| DoesNotExist
| AttributeError
| ValidationError
| IntegrityError
| AssertionError
| RecursionError.

Record World := mkWorld {
  db : DB;
  auto_now : bool;
  log : list Event
}.

Inductive Result (A : Type) :=
| Ok (a : A) (w : World)
| Raise (e : Exn) (w : World).
Arguments Ok {A} a w.
Arguments Raise {A} e w.

Definition M (A : Type) := World -> Result A.

Definition ret {A} (a : A) : M A := fun w => Ok a w.
Definition raise {A} (e : Exn) : M A := fun w => Raise e w.
Definition bind {A B} (m : M A) (k : A -> M B) : M B :=
  fun w => match m w with
           | Ok a w' => k a w'
           | Raise e w' => Raise e w'
           end.

Notation "x <- m ;; k" := (bind m (fun x => k))
  (at level 61, m at next level, right associativity).
Notation "m ;;; k" := (bind m (fun _ => k))
  (at level 61, right associativity).

Definition emit (e : Event) : M unit :=
  fun w => Ok tt (mkWorld (db w) (auto_now w) (log w ++ [e])).
Definition set_auto_now (b : bool) : M unit :=
  fun w => Ok tt (mkWorld (db w) b (log w)).
Definition get_db : M DB := fun w => Ok (db w) w.
Definition put_db (d : DB) : M unit :=
  fun w => Ok tt (mkWorld d (auto_now w) (log w)).

(** ** Queries *)

Definition get_forum (k : Z) (d : DB) : option ForumRow :=
  find (fun r => f_id r =? k) (forums d).
Definition get_topic (k : Z) (d : DB) : option TopicRow :=
  find (fun r => tr_id r =? k) (topics d).
Definition get_post (k : Z) (d : DB) : option PostRow :=
  find (fun r => pr_id r =? k) (posts d).

(** [topic.posts]: the reverse side of [Post.topic]. *)
Definition posts_of (k : Z) (d : DB) : list PostRow :=
  filter (fun p => pr_topic p =? k) (posts d).

Definition related_posts (pk : option Z) (d : DB) : list PostRow :=
  match pk with
  | Some k => posts_of k d
  | None => []
  end.

(** [order_by('created')[0]]: a row of least creation time; among rows
    of equal creation time the one met first in the table. *)
Fixpoint earliest (l : list PostRow) : option PostRow :=
  match l with
  | [] => None
  | p :: l' =>
      match earliest l' with
      | Some q => if pr_created q <? pr_created p then Some q else Some p
      | None => Some p
      end
  end.

(** [order_by('-created')[0]]. *)
Fixpoint latest (l : list PostRow) : option PostRow :=
  match l with
  | [] => None
  | p :: l' =>
      match latest l' with
      | Some q => if pr_created p <? pr_created q then Some q else Some p
      | None => Some p
      end
  end.

(** A fresh primary key for an insert. *)
Definition next_id (ids : list Z) : Z := 1 + fold_right Z.max 0 ids.

Definition load_forum (k : Z) : M ForumRow :=
  fun w => match get_forum k (db w) with
           | Some r => Ok r w
           | None => Raise DoesNotExist w
           end.

(** ** The forum collaborator *)

Module Forum.

(** [is_category] and [is_link] of the forum model. *)
Definition is_category (f : ForumRow) : bool :=
  match f_type f with forum_cat => true | _ => false end.
Definition is_link (f : ForumRow) : bool :=
  match f_type f with forum_link => true | _ => false end.

(** Does forum [f] lie in the subtree rooted at [root]?  Walks the
    parent references from [f] upwards. *)
Fixpoint in_subtree (fuel : nat) (d : DB) (root f : Z) : bool :=
  if f =? root then true
  else match fuel with
       | O => false
       | S n =>
           match get_forum f d with
           | Some r =>
               match f_parent r with
               | Some p => in_subtree n d root p
               | None => false
               end
           | None => false
           end
       end.

Definition under (d : DB) (root f : Z) : bool :=
  in_subtree (length (forums d)) d root f.

Definition topics_under (d : DB) (root : Z) : list TopicRow :=
  filter (fun t => under d root (tr_forum t)) (topics d).

Definition posts_under (d : DB) (root : Z) : list PostRow :=
  filter (fun p => match get_topic (pr_topic p) d with
                   | Some t => under d root (tr_forum t)
                   | None => false
                   end) (posts d).

Definition with_counters (nt np : nat) (self : ForumRow) : ForumRow :=
  mkForum (f_id self) (f_parent self) (f_type self) nt np.

Definition store (r : ForumRow) (d : DB) : DB :=
  mkDB (if existsb (fun x => f_id x =? f_id r) (forums d)
        then map (fun x => if f_id x =? f_id r then r else x) (forums d)
        else forums d ++ [r])
       (topics d) (posts d).

(** Modelled from the spec: [Forum.update_trackers] lives in the forum
    application, whose source is not part of this development.  The
    spec's cascade propagator: "given a forum, recompute its own
    topic/post aggregate counters, then repeat for its parent,
    continuing to the root.  Termination: stops at a node with no
    parent."  The counters are rollups "from source-of-truth child
    records" that hold "transitively up" the ancestry, hence taken over
    the forum's subtree.  A parent chain that never reaches a root
    exhausts the interpreter's stack, which is the [O] case. *)
Fixpoint update_trackers_from (fuel : nat) (self : ForumRow) : M unit :=
  match fuel with
  | O => raise RecursionError
  | S n =>
      emit (ForumUpdateTrackers (f_id self)) ;;;
      d <- get_db ;;
      put_db (store (with_counters (length (topics_under d (f_id self)))
                                   (length (posts_under d (f_id self)))
                                   self) d) ;;;
      match f_parent self with
      | Some p => parent <- load_forum p ;; update_trackers_from n parent
      | None => ret tt
      end
  end.

Definition update_trackers (self : ForumRow) : M unit :=
  fun w => update_trackers_from (S (length (forums (db w)))) self w.

(** Modelled from the spec: [machina.core.utils.refresh] is not part of
    this development; the persistence layer offers "a way to reload an
    entity by identity to get its latest persisted state". *)
Definition refresh (self : ForumRow) : M ForumRow :=
  emit (ForumRefresh (f_id self)) ;;; load_forum (f_id self).

End Forum.

(** The two [Choices] tables of the module. *)
Module TOPIC_TYPES.
Definition topic_post : Z := 0.
Definition topic_sticky : Z := 1.
Definition topic_announce : Z := 2.
End TOPIC_TYPES.

Module TOPIC_STATUSES.
Definition topic_unlocked : Z := 0.
Definition topic_locked : Z := 1.
Definition topic_moved : Z := 2.
End TOPIC_STATUSES.

(** ['{}'.format(x)] for a primary key, which is an integer or [None]. *)
Definition format_id (pk : option Z) : string :=
  match pk with
  | Some k => NilZero.string_of_int (Z.to_int k)
  | None => "None"
  end.

(** ** AbstractTopic *)

Module AbstractTopic.

(** A topic instance in memory.  [_first_post] and [_last_post] are the
    memo attributes: [None] when the attribute is absent, [Some c] when
    it holds [c] (which may itself be Python's [None]).  [created] and
    [updated] come from [DatedModel] ([auto_now_add] and [auto_now]). *)
Record t := mk {
  pk : option Z;
  forum : Z;
  poster : Z;
  subject : string;
  slug : string;
  type : Z;
  status : Z;
  approved : bool;
  posts_count : nat;
  views_count : nat;
  created : Z;
  updated : Z;
  _first_post : option (option PostRow);
  _last_post : option (option PostRow)
}.

Definition with_pk (k : Z) (s : t) : t :=
  mk (Some k) (forum s) (poster s) (subject s) (slug s) (type s) (status s)
     (approved s) (posts_count s) (views_count s) (created s) (updated s)
     (_first_post s) (_last_post s).
Definition with_slug (x : string) (s : t) : t :=
  mk (pk s) (forum s) (poster s) (subject s) x (type s) (status s)
     (approved s) (posts_count s) (views_count s) (created s) (updated s)
     (_first_post s) (_last_post s).
Definition with_mirror (sub : string) (app : bool) (s : t) : t :=
  mk (pk s) (forum s) (poster s) sub (slug s) (type s) (status s)
     app (posts_count s) (views_count s) (created s) (updated s)
     (_first_post s) (_last_post s).
Definition with_posts_count (n : nat) (s : t) : t :=
  mk (pk s) (forum s) (poster s) (subject s) (slug s) (type s) (status s)
     (approved s) n (views_count s) (created s) (updated s)
     (_first_post s) (_last_post s).
Definition with_created (x : Z) (s : t) : t :=
  mk (pk s) (forum s) (poster s) (subject s) (slug s) (type s) (status s)
     (approved s) (posts_count s) (views_count s) x (updated s)
     (_first_post s) (_last_post s).
Definition with_updated (x : Z) (s : t) : t :=
  mk (pk s) (forum s) (poster s) (subject s) (slug s) (type s) (status s)
     (approved s) (posts_count s) (views_count s) (created s) x
     (_first_post s) (_last_post s).
Definition with_first_post (c : option PostRow) (s : t) : t :=
  mk (pk s) (forum s) (poster s) (subject s) (slug s) (type s) (status s)
     (approved s) (posts_count s) (views_count s) (created s) (updated s)
     (Some c) (_last_post s).
Definition with_last_post (c : option PostRow) (s : t) : t :=
  mk (pk s) (forum s) (poster s) (subject s) (slug s) (type s) (status s)
     (approved s) (posts_count s) (views_count s) (created s) (updated s)
     (_first_post s) (Some c).

Definition to_row (k : Z) (s : t) : TopicRow :=
  mkTopicRow k (forum s) (poster s) (subject s) (slug s) (type s) (status s)
             (approved s) (posts_count s) (views_count s) (created s)
             (updated s).

(** [__str__]: the subject of the first post by creation time, read
    from the database and not from the memo; the key when the topic has
    no post.  [None] stands for the [IndexError] of [[0]] on an empty
    query. *)
Definition __str__ (self : t) (d : DB) : option string :=
  match related_posts (pk self) d with
  | _ :: _ => option_map pr_subject (earliest (related_posts (pk self) d))
  | [] => Some (format_id (pk self))
  end.

Definition is_topic (self : t) : bool := type self =? TOPIC_TYPES.topic_post.
Definition is_sticky (self : t) : bool := type self =? TOPIC_TYPES.topic_sticky.
Definition is_announce (self : t) : bool :=
  type self =? TOPIC_TYPES.topic_announce.

(** An instance as the manager hands it out: no memo attribute set. *)
Definition of_row (r : TopicRow) : t :=
  mk (Some (tr_id r)) (tr_forum r) (tr_poster r) (tr_subject r) (tr_slug r)
     (tr_type r) (tr_status r) (tr_approved r) (tr_posts_count r)
     (tr_views_count r) (tr_created r) (tr_updated r) None None.

(** [self.__class__._default_manager.get(pk=k)]. *)
Definition get (k : Z) : M t :=
  emit (TopicGet k) ;;;
  fun w => match get_topic k (db w) with
           | Some r => Ok (of_row r) w
           | None => Raise DoesNotExist w
           end.

Definition put_topics (ts : list TopicRow) (d : DB) : DB :=
  mkDB (forums d) ts (posts d).

(** [models.Model.save] on a topic: the [updated] field is stamped when
    its [auto_now] switch is on; a row with the instance's key is
    updated, otherwise a row is inserted, which stamps [created]. *)
Definition Model_save (now : Z) (self : t) : M t :=
  fun w =>
    let d := db w in
    let self1 := if auto_now w then with_updated now self else self in
    match pk self with
    | Some k =>
        if existsb (fun r => tr_id r =? k) (topics d) then
          Ok self1
             (mkWorld
                (put_topics
                   (map (fun r => if tr_id r =? k then to_row k self1 else r)
                        (topics d)) d)
                (auto_now w) (log w ++ [TopicModelSave k]))
        else
          let self2 := with_created now self1 in
          Ok self2
             (mkWorld (put_topics (topics d ++ [to_row k self2]) d)
                      (auto_now w) (log w ++ [TopicModelSave k]))
    | None =>
        let k := next_id (map tr_id (topics d)) in
        let self2 := with_pk k (with_created now self1) in
        Ok self2
           (mkWorld (put_topics (topics d ++ [to_row k self2]) d)
                    (auto_now w) (log w ++ [TopicModelSave k]))
    end.

(** [models.Model.delete] on a topic: the posts that point at the topic
    go with it (the foreign key cascades). *)
Definition Model_delete (self : t) : M unit :=
  fun w =>
    match pk self with
    | None => Raise AssertionError w
    | Some k =>
        let d := db w in
        Ok tt
           (mkWorld
              (mkDB (forums d)
                    (filter (fun r => negb (tr_id r =? k)) (topics d))
                    (filter (fun p => negb (pr_topic p =? k)) (posts d)))
              (auto_now w) (log w ++ [TopicModelDelete k]))
    end.

Definition first_post (self : t) : M (option PostRow * t) :=
  match _first_post self with
  | Some c => ret (c, self)
  | None =>
      d <- get_db ;;
      let c := earliest (related_posts (pk self) d) in
      ret (c, with_first_post c self)
  end.

Definition last_post (self : t) : M (option PostRow * t) :=
  match _last_post self with
  | Some c => ret (c, self)
  | None =>
      d <- get_db ;;
      let c := latest (related_posts (pk self) d) in
      ret (c, with_last_post c self)
  end.

Definition clean (self : t) : M unit :=
  f <- load_forum (forum self) ;;
  if Forum.is_category f || Forum.is_link f
  then raise ValidationError
  else ret tt.

Definition _simple_save (now : Z) (self : t) : M t :=
  set_auto_now false ;;;
  self' <- Model_save now self ;;
  set_auto_now true ;;;
  ret self'.

Definition delete (self : t) : M unit :=
  Model_delete self ;;;
  f <- load_forum (forum self) ;;
  Forum.update_trackers f.

Definition update_trackers (now : Z) (self : t) : M t :=
  emit (TopicUpdateTrackers (pk self)) ;;;
  d <- get_db ;;
  let self1 := with_posts_count (length (related_posts (pk self) d)) self in
  let self2 := with_last_post (latest (related_posts (pk self) d)) self1 in
  match latest (related_posts (pk self) d) with
  | None => raise AttributeError
  | Some lp =>
      self3 <- _simple_save now (with_updated (pr_created lp) self2) ;;
      (* Trigger the forum-level trackers update *)
      f <- load_forum (forum self3) ;;
      Forum.update_trackers f ;;;
      ret self3
  end.

(** Python truth of [self.pk]. *)
Definition truthy (pk : option Z) : option Z :=
  match pk with
  | Some k => if k =? 0 then None else Some k
  | None => None
  end.

Definition save (slugify : string -> string) (now : Z) (self : t) : M t :=
  old_instance <- match truthy (pk self) with
                  | Some k => o <- get k ;; ret (Some o)
                  | None => ret None
                  end ;;
  (* Update the slug field *)
  let self1 := with_slug (slugify (subject self)) self in
  (* Do the save *)
  self2 <- Model_save now self1 ;;
  match old_instance with
  | Some old =>
      old_f <- load_forum (forum old) ;;
      if negb (f_id old_f =? forum self2) then
        self3 <- update_trackers now self2 ;;
        (* The previous parent forum counters should also be updated *)
        old_forum <- Forum.refresh old_f ;;
        Forum.update_trackers old_forum ;;;
        ret self3
      else ret self2
  | None => ret self2
  end.

End AbstractTopic.

(** ** AbstractPost *)

Module AbstractPost.

(** A post instance in memory.  Its [topic] attribute is an
    [AbstractTopic.t] that every method takes next to [self] and hands
    back, so that two posts can share one topic instance. *)
Record t := mk {
  pk : option Z;
  poster : Z;
  subject : string;
  content : string;
  approved : bool;
  created : Z;
  updated : Z
}.

Definition to_row (k tk : Z) (s : t) : PostRow :=
  mkPostRow k tk (poster s) (subject s) (content s) (approved s)
            (created s) (updated s).

Definition of_row (r : PostRow) : t :=
  mk (Some (pr_id r)) (pr_poster r) (pr_subject r) (pr_content r)
     (pr_approved r) (pr_created r) (pr_updated r).

Definition put_posts (ps : list PostRow) (d : DB) : DB :=
  mkDB (forums d) (topics d) ps.

Definition __str__ (self : t) : string := subject self.

(** [models.Model.save] on a post; the topic column is not nullable. *)
Definition Model_save (now : Z) (self : t) (topic : AbstractTopic.t) : M t :=
  fun w =>
    let d := db w in
    match AbstractTopic.pk topic with
    | None => Raise IntegrityError w
    | Some tk =>
        match pk self with
        | Some k =>
            if existsb (fun r => pr_id r =? k) (posts d) then
              let self1 := mk (pk self) (poster self) (subject self)
                              (content self) (approved self) (created self)
                              now in
              Ok self1
                 (mkWorld
                    (put_posts
                       (map (fun r => if pr_id r =? k
                                      then to_row k tk self1 else r)
                            (posts d)) d)
                    (auto_now w) (log w ++ [PostModelSave k]))
            else
              let self1 := mk (pk self) (poster self) (subject self)
                              (content self) (approved self) now now in
              Ok self1
                 (mkWorld (put_posts (posts d ++ [to_row k tk self1]) d)
                          (auto_now w) (log w ++ [PostModelSave k]))
        | None =>
            let k := next_id (map pr_id (posts d)) in
            let self1 := mk (Some k) (poster self) (subject self)
                            (content self) (approved self) now now in
            Ok self1
               (mkWorld (put_posts (posts d ++ [to_row k tk self1]) d)
                        (auto_now w) (log w ++ [PostModelSave k]))
        end
    end.

(** [models.Model.delete] on a post. *)
Definition Model_delete (self : t) : M unit :=
  fun w =>
    match pk self with
    | None => Raise AssertionError w
    | Some k =>
        let d := db w in
        Ok tt
           (mkWorld
              (put_posts (filter (fun p => negb (pr_id p =? k)) (posts d)) d)
              (auto_now w) (log w ++ [PostModelDelete k]))
    end.

(** [x.id == self.id] for a fetched row [x]. *)
Definition same_id (x : PostRow) (self : t) : bool :=
  match pk self with
  | Some k => pr_id x =? k
  | None => false
  end.

Definition is_topic_head (self : t) (topic : AbstractTopic.t)
  : M (bool * AbstractTopic.t) :=
  r <- AbstractTopic.first_post topic ;;
  match fst r with
  | Some x => ret (same_id x self, snd r)
  | None => raise AttributeError
  end.

Definition is_topic_tail (self : t) (topic : AbstractTopic.t)
  : M (bool * AbstractTopic.t) :=
  r <- AbstractTopic.last_post topic ;;
  match fst r with
  | Some x => ret (same_id x self, snd r)
  | None => raise AttributeError
  end.

(** [filter(Q(created__lt=self.created) | Q(id=self.id)).count()] *)
Definition position (self : t) (topic : AbstractTopic.t) (d : DB) : nat :=
  length (filter (fun p => (pr_created p <? created self) || same_id p self)
                 (related_posts (AbstractTopic.pk topic) d)).

Definition save (now : Z) (self : t) (topic : AbstractTopic.t)
  : M (t * AbstractTopic.t) :=
  self1 <- Model_save now self topic ;;
  (* Ensures that the subject of the thread corresponds to the one
     associated with the first post.  Same with the 'approved' flag. *)
  h <- is_topic_head self1 topic ;;
  let topic1 :=
    if fst h then
      if negb (String.eqb (subject self1) (AbstractTopic.subject (snd h)))
         || negb (Bool.eqb (approved self1) (AbstractTopic.approved (snd h)))
      then AbstractTopic.with_mirror (subject self1) (approved self1) (snd h)
      else snd h
    else snd h in
  (* Trigger the topic-level trackers update *)
  topic2 <- AbstractTopic.update_trackers now topic1 ;;
  ret (self1, topic2).

Definition delete (now : Z) (self : t) (topic : AbstractTopic.t)
  : M AbstractTopic.t :=
  h <- is_topic_head self topic ;;
  tl <- (if fst h then is_topic_tail self (snd h) else ret (false, snd h)) ;;
  if fst h && fst tl then
    AbstractTopic.delete (snd tl) ;;;
    ret (snd tl)
  else
    Model_delete self ;;;
    AbstractTopic.update_trackers now (snd tl).

End AbstractPost.

(** ** The search form *)

Module SearchForm.

Record Document := mkDoc {
  doc_post : Z;
  doc_forum : Z;
  doc_topic_subject : string;
  doc_poster_name : string;
  doc_content : string
}.

Record Form := mkForm {
  q : string;
  search_topics : bool;
  search_poster_name : option string;
  search_forums : list Z
}.

Section Search.

(** The permission handler, [can_read(identity, forum)], already applied
    to the requesting identity; and the index's free-text match on a
    field. *)
Variable can_read : Z -> bool.
Variable text_match : string -> string -> bool.

(** The requester's permission scope: the existing forums it may read. *)
Definition permitted (d : DB) : list Z :=
  filter can_read (map f_id (forums d)).

Definition mem (k : Z) (l : list Z) : bool := existsb (Z.eqb k) l.

(** Modelled from the spec: the search form's validation is not part of
    this development.  "the form fails validation (e.g., an explicit
    forum id outside the permitted set makes the constrained query
    unsatisfiable)". *)
Definition is_valid (d : DB) (f : Form) : bool :=
  forallb (fun k => mem k (permitted d)) (search_forums f).

(** The forums searched: the permission scope, intersected with the
    explicit restriction when there is one. *)
Definition scope (d : DB) (f : Form) : list Z :=
  match search_forums f with
  | [] => permitted d
  | ids => filter (fun k => mem k ids) (permitted d)
  end.

Definition hit (f : Form) (sc : list Z) (x : Document) : bool :=
  mem (doc_forum x) sc
  && (if search_topics f
      then text_match (q f) (doc_topic_subject x)
      else text_match (q f) (doc_topic_subject x)
           || text_match (q f) (doc_content x))
  && match search_poster_name f with
     | Some n => String.eqb n (doc_poster_name x)
     | None => true
     end.

(** Modelled from the spec: [SearchForm.search] is not part of this
    development.  "Produces an index query filtered to forums the
    identity has read permission on [...] intersected with any explicit
    forum-id restriction [...].  If the resulting permitted-forum set is
    empty, or the form fails validation [...], the result set is empty —
    this is not an error, it is a valid empty result."  The outcome is
    a [Result] so that raising is a possible outcome of the model. *)
Definition search (index : list Document) (f : Form) : M (list Document) :=
  d <- get_db ;;
  if negb (is_valid d f) then ret []
  else match scope d f with
       | [] => ret []
       | sc => ret (filter (hit f sc) index)
       end.

End Search.

End SearchForm.

(** * Vocabulary of the statements *)

Definition world_of {A} (r : Result A) : World :=
  match r with
  | Ok _ w => w
  | Raise _ w => w
  end.

Definition forum_event (e : Event) : bool :=
  match e with
  | ForumUpdateTrackers _ => true
  | _ => false
  end.

(** [w'] differs from [w] by forum rows and forum-level log entries only. *)
Definition forum_only (w w' : World) : Prop :=
  topics (db w') = topics (db w) /\
  posts (db w') = posts (db w) /\
  auto_now w' = auto_now w /\
  exists evs, log w' = log w ++ evs /\ forallb forum_event evs = true.

(** The instance handed back by a save differs from the one saved in its
    time stamps only. *)
Definition same_data (s s' : AbstractTopic.t) : Prop :=
  AbstractTopic.forum s' = AbstractTopic.forum s /\
  AbstractTopic.subject s' = AbstractTopic.subject s /\
  AbstractTopic.approved s' = AbstractTopic.approved s /\
  AbstractTopic.posts_count s' = AbstractTopic.posts_count s /\
  AbstractTopic._first_post s' = AbstractTopic._first_post s /\
  AbstractTopic._last_post s' = AbstractTopic._last_post s.

(** What a completed [AbstractTopic.update_trackers] leaves behind:
    [self'] is the instance handed back, [w'] the world afterwards. *)
Definition tracked (self : AbstractTopic.t) (w : World)
           (self' : AbstractTopic.t) (w' : World) : Prop :=
  exists k lp,
    AbstractTopic.pk self = Some k /\
    AbstractTopic.pk self' = Some k /\
    latest (posts_of k (db w)) = Some lp /\
    posts (db w') = posts (db w) /\
    get_topic k (db w') = Some (AbstractTopic.to_row k self') /\
    AbstractTopic.posts_count self' = length (posts_of k (db w)) /\
    AbstractTopic.updated self' = pr_created lp /\
    AbstractTopic._last_post self' = Some (Some lp) /\
    AbstractTopic._first_post self' = AbstractTopic._first_post self /\
    AbstractTopic.subject self' = AbstractTopic.subject self /\
    AbstractTopic.approved self' = AbstractTopic.approved self /\
    AbstractTopic.forum self' = AbstractTopic.forum self /\
    auto_now w' = true /\
    exists evs,
      log w' = log w ++ TopicUpdateTrackers (Some k) :: TopicModelSave k
                     :: ForumUpdateTrackers (AbstractTopic.forum self) :: evs
      /\ forallb forum_event evs = true.

(** The parent chain of forum [f] ends at a root within [fuel] steps. *)
Fixpoint reaches_root (fuel : nat) (d : DB) (f : Z) : bool :=
  match fuel with
  | O => false
  | S n =>
      match get_forum f d with
      | Some r =>
          match f_parent r with
          | Some p => reaches_root n d p
          | None => true
          end
      | None => false
      end
  end.

(** Two databases with the same forum hierarchy (keys and parent
    references). *)
Definition same_tree (d d' : DB) : Prop :=
  length (forums d') = length (forums d) /\
  forall k, option_map f_parent (get_forum k d')
            = option_map f_parent (get_forum k d).

(** The value of [topic.first_post] / [topic.last_post] against database
    [d], and the instance once the property has been read. *)
Definition first_post_value (topic : AbstractTopic.t) (d : DB)
  : option PostRow :=
  match AbstractTopic._first_post topic with
  | Some c => c
  | None => earliest (related_posts (AbstractTopic.pk topic) d)
  end.

Definition last_post_value (topic : AbstractTopic.t) (d : DB)
  : option PostRow :=
  match AbstractTopic._last_post topic with
  | Some c => c
  | None => latest (related_posts (AbstractTopic.pk topic) d)
  end.

Definition memo_first (topic : AbstractTopic.t) (d : DB) : AbstractTopic.t :=
  match AbstractTopic._first_post topic with
  | Some _ => topic
  | None => AbstractTopic.with_first_post
              (earliest (related_posts (AbstractTopic.pk topic) d)) topic
  end.

Definition memo_last (topic : AbstractTopic.t) (d : DB) : AbstractTopic.t :=
  match AbstractTopic._last_post topic with
  | Some _ => topic
  | None => AbstractTopic.with_last_post
              (latest (related_posts (AbstractTopic.pk topic) d)) topic
  end.

(** The two post mutations that end in a tracker update. *)
Inductive PostMutation :=
| SavePost (now : Z)
| DeletePost (now : Z).

Definition mutate (m : PostMutation) (self : AbstractPost.t)
           (topic : AbstractTopic.t) : M AbstractTopic.t :=
  match m with
  | SavePost now => r <- AbstractPost.save now self topic ;; ret (snd r)
  | DeletePost now => AbstractPost.delete now self topic
  end.

(** The topic instance after the head test of [AbstractPost.save]:
    subject and approved flag are copied over when the saved post is the
    head and one of them differs. *)
Definition mirrored (self1 : AbstractPost.t) (head : bool)
           (topic : AbstractTopic.t) : AbstractTopic.t :=
  if head then
    if negb (String.eqb (AbstractPost.subject self1)
                        (AbstractTopic.subject topic))
       || negb (Bool.eqb (AbstractPost.approved self1)
                         (AbstractTopic.approved topic))
    then AbstractTopic.with_mirror (AbstractPost.subject self1)
                                   (AbstractPost.approved self1) topic
    else topic
  else topic.

(** A forum instance that agrees with its stored row on the parent. *)
Definition fresh_forum (self : ForumRow) (d : DB) : Prop :=
  option_map f_parent (get_forum (f_id self) d) = Some (f_parent self).

(** The stored counters of forum [F] are the rollups of its subtree. *)
Definition rolled_up (F : Z) (d : DB) : Prop :=
  exists r, get_forum F d = Some r /\
            f_topics_count r = length (Forum.topics_under d F) /\
            f_posts_count r = length (Forum.posts_under d F).

(** The forum hierarchy above [f] is a finite chain that ends at a
    root, so that the cascade from [f] terminates. *)
Definition well_rooted (d : DB) (f : Z) : Prop :=
  reaches_root (S (length (forums d))) d f = true.

(** The test [self.is_topic_head and self.is_topic_tail] of
    [AbstractPost.delete], as it comes out when both properties can be
    read. *)
Definition head_and_tail (self : AbstractPost.t) (topic : AbstractTopic.t)
           (d : DB) : bool :=
  match first_post_value topic d, last_post_value topic d with
  | Some x, Some y => AbstractPost.same_id x self && AbstractPost.same_id y self
  | _, _ => false
  end.

(** The outcome of a post delete that removed the topic [k] of forum
    [F]: the topic and its posts are gone, no other post is touched, the
    log shows the topic's row delete followed by the forum-level tracker
    updates starting at [F], and [F]'s counters are rolled up again; its
    topic counter is one less than before when it was rolled up
    before. *)
Definition topic_deleted (k F : Z) (w w' : World) : Prop :=
  get_topic k (db w') = None /\
  posts_of k (db w') = [] /\
  posts (db w') = filter (fun p => negb (pr_topic p =? k)) (posts (db w)) /\
  (exists evs,
     log w' = log w ++ TopicModelDelete k :: ForumUpdateTrackers F :: evs /\
     forallb forum_event evs = true) /\
  rolled_up F (db w') /\
  (NoDup (map tr_id (topics (db w))) ->
   (exists tr, get_topic k (db w) = Some tr /\ tr_forum tr = F) ->
   rolled_up F (db w) ->
   exists r0 r',
     get_forum F (db w) = Some r0 /\ get_forum F (db w') = Some r' /\
     f_topics_count r0 = S (f_topics_count r')).

(** The outcome of a post delete that removed the post [pid] only and
    then ran the tracker update of topic [k]. *)
Definition post_deleted (k pid : Z) (w w' : World) : Prop :=
  posts (db w') = filter (fun p => negb (pr_id p =? pid)) (posts (db w)) /\
  (exists row, get_topic k (db w') = Some row /\
               tr_posts_count row = length (posts_of k (db w'))) /\
  exists evs,
    log w' = log w ++ PostModelDelete pid :: TopicUpdateTrackers (Some k)
                   :: TopicModelSave k :: evs /\
    forallb forum_event evs = true.

(** The spec's words for [position]: "1-based rank by creation time
    among the topic's posts, ties broken by id". *)
Definition rank_by_created_then_id (p : PostRow) (l : list PostRow) : nat :=
  S (length (filter (fun q => (pr_created q <? pr_created p)
                              || ((pr_created q =? pr_created p)
                                  && (pr_id q <? pr_id p))) l)).

(** The exceptions that the cascade and the tracker update can end in. *)
Definition lookup_or_depth (e : Exn) : Prop :=
  e = DoesNotExist \/ e = RecursionError.

(** Primary keys are unique in each table. *)
Definition keys_unique (d : DB) : Prop :=
  NoDup (map f_id (forums d)) /\
  NoDup (map tr_id (topics d)) /\
  NoDup (map pr_id (posts d)).

(** A computation keeps a property of the database, whether it returns
    or raises. *)
Definition preserves {A} (I : DB -> Prop) (m : M A) : Prop :=
  forall w, I (db w) -> I (db (world_of (m w))).

(** Topic [k] has a stored row, and the row is of forum [F]. *)
Definition stored_in_forum (k F : Z) (d : DB) : Prop :=
  exists row, get_topic k d = Some row /\ tr_forum row = F.

(** * Sample data

    Three forums (two of type forum, one category) and instances as a
    caller builds them before the first save. *)
Module Sample.

Definition forum_rows : list ForumRow :=
  [ mkForum 1 None forum_post 0 0;
    mkForum 2 None forum_post 0 0;
    mkForum 3 None forum_cat 0 0 ].

Definition w0 : World := mkWorld (mkDB forum_rows [] []) true [].

Definition new_topic (f : Z) (sub : string) : AbstractTopic.t :=
  AbstractTopic.mk None f 7 sub EmptyString 0 0 true 0 0 0 0 None None.

Definition new_post (sub : string) : AbstractPost.t :=
  AbstractPost.mk None 7 sub "body"%string true 0 0.

Definition slugify (s : string) : string := s.

(** A topic of forum 1 without a post, as [create_topic] of the test
    factories leaves it. *)
Definition w_topic : World :=
  world_of (AbstractTopic.save slugify 100 (new_topic 1 "Hello"%string) w0).

Definition topic1 : AbstractTopic.t :=
  AbstractTopic.mk (Some 1) 1 7 "Hello"%string "Hello"%string 0 0 true 0 0
                   100 100 None None.

Definition post1 : AbstractPost.t :=
  AbstractPost.mk (Some 1) 7 "Hello"%string "body"%string true 101 101.

Definition post2 : AbstractPost.t :=
  AbstractPost.mk (Some 2) 7 "World"%string "body"%string true 102 102.

(** The topic with one post, and with two. *)
Definition w_one : World :=
  world_of (AbstractPost.save 101 (new_post "Hello"%string) topic1 w_topic).

Definition w_two : World :=
  world_of (AbstractPost.save 102 (new_post "World"%string) topic1 w_one).

End Sample.

Module Scenario.

(** The instance of topic [k] as the manager hands it out in world [w]. *)
Definition load (k : Z) (w : World) : AbstractTopic.t :=
  match get_topic k (db w) with
  | Some r => AbstractTopic.of_row r
  | None => Sample.new_topic 0 EmptyString
  end.

(** From the two-post topic, the head post is deleted (through a topic
    instance of its own); the topic is left with the post "World". *)
Definition w_headless : World :=
  world_of (AbstractPost.delete 103 Sample.post1 (load 1 Sample.w_two)
                                Sample.w_two).

(** Two posts of one topic saved within the same clock tick. *)
Definition w_tie : World :=
  world_of (AbstractPost.save 101 (Sample.new_post "World") Sample.topic1
                              Sample.w_one).

Definition tied_post2 : PostRow :=
  mkPostRow 2 1 7 "World" "body" true 101 101.

(** The post-less topic of forum 1, about to be moved to forum 2. *)
Definition moved_topic : AbstractTopic.t :=
  AbstractTopic.mk (Some 1) 2 7 "Hello" "Hello" 0 0 true 0 0 100 100
                   None None.

(** Both posts of the two-post topic are deleted in the order of their
    creation, through the one topic instance they share (as the posts
    handed out by [topic.posts.all()] do). *)
Definition delete_all_posts : M AbstractTopic.t :=
  t <- AbstractPost.delete 103 Sample.post1 (load 1 Sample.w_two) ;;
  AbstractPost.delete 104 Sample.post2 t.

(** A post-less topic instance on which [first_post] has been read:
    the memo holds [None]. *)
Definition topic1_read_early : AbstractTopic.t :=
  AbstractTopic.with_first_post None Sample.topic1.

(** The world after the first of the two deletes of
    [delete_all_posts], and the topic instance it handed back. *)
Definition after_first_delete : Result AbstractTopic.t :=
  AbstractPost.delete 103 Sample.post1 (load 1 Sample.w_two) Sample.w_two.

Definition shared_topic : AbstractTopic.t :=
  match after_first_delete with
  | Ok t _ => t
  | Raise _ _ => Sample.topic1
  end.

Definition w_last_post : World := world_of after_first_delete.

End Scenario.
(** * Properties *)

(** ** The monad *)

Lemma bind_Ok {A B} (m : M A) (k : A -> M B) w b w' :
  bind m k w = Ok b w' ->
  exists a w1, m w = Ok a w1 /\ k a w1 = Ok b w'.
Proof.
  unfold bind. destruct (m w) as [a w1|e w1]; [eauto | discriminate].
Qed.

Lemma bind_world {A B} (m : M A) (k : A -> M B) w :
  world_of (bind m k w) = world_of (m w) \/
  exists a w1, m w = Ok a w1 /\ world_of (bind m k w) = world_of (k a w1).
Proof.
  unfold bind. destruct (m w) as [a w1|e w1]; [right; eauto | left; reflexivity].
Qed.

Ltac bind_inv H :=
  let a := fresh "a" in
  let w1 := fresh "w" in
  let H1 := fresh "H" in
  apply bind_Ok in H; destruct H as (a & w1 & H1 & H).

(** ** First and last post *)

Lemma earliest_spec l p :
  earliest l = Some p ->
  In p l /\ forall q, In q l -> pr_created p <= pr_created q.
Proof.
  revert p. induction l as [|x l IH]; simpl; intros p H; [discriminate|].
  destruct (earliest l) as [q|] eqn:E.
  - destruct (IH q eq_refl) as [Hin Hmin].
    destruct (pr_created q <? pr_created x) eqn:C; inversion H; subst.
    + apply Z.ltb_lt in C. split; [auto|].
      intros r [<-|Hr]; [lia | auto].
    + apply Z.ltb_ge in C. split; [auto|].
      intros r [<-|Hr]; [lia|]. specialize (Hmin r Hr). lia.
  - inversion H; subst. destruct l; [|simpl in E; destruct (earliest l);
      [destruct (_ <? _)|]; discriminate].
    split; [auto|]. intros r [<-|[]]. lia.
Qed.

Lemma latest_spec l p :
  latest l = Some p ->
  In p l /\ forall q, In q l -> pr_created q <= pr_created p.
Proof.
  revert p. induction l as [|x l IH]; simpl; intros p H; [discriminate|].
  destruct (latest l) as [q|] eqn:E.
  - destruct (IH q eq_refl) as [Hin Hmax].
    destruct (pr_created x <? pr_created q) eqn:C; inversion H; subst.
    + apply Z.ltb_lt in C. split; [auto|].
      intros r [<-|Hr]; [lia | auto].
    + apply Z.ltb_ge in C. split; [auto|].
      intros r [<-|Hr]; [lia|]. specialize (Hmax r Hr). lia.
  - inversion H; subst. destruct l; [|simpl in E; destruct (latest l);
      [destruct (_ <? _)|]; discriminate].
    split; [auto|]. intros r [<-|[]]. lia.
Qed.

Lemma latest_None l : latest l = None <-> l = [].
Proof.
  destruct l; simpl; [tauto|].
  split; [|discriminate].
  destruct (latest l); [destruct (_ <? _)|]; discriminate.
Qed.

Lemma earliest_None l : earliest l = None <-> l = [].
Proof.
  destruct l; simpl; [tauto|].
  split; [|discriminate].
  destruct (earliest l); [destruct (_ <? _)|]; discriminate.
Qed.

(** ** The forum rollup leaves topics and posts alone *)

Lemma forum_only_refl w : forum_only w w.
Proof.
  repeat split. exists []. rewrite app_nil_r. auto.
Qed.

Lemma forum_only_trans w1 w2 w3 :
  forum_only w1 w2 -> forum_only w2 w3 -> forum_only w1 w3.
Proof.
  intros (T1 & P1 & A1 & e1 & L1 & F1) (T2 & P2 & A2 & e2 & L2 & F2).
  repeat split; try congruence.
  exists (e1 ++ e2). rewrite L2, L1, app_assoc, forallb_app, F1, F2. auto.
Qed.

Lemma load_forum_inv k w r w' :
  load_forum k w = Ok r w' -> w' = w /\ get_forum k (db w) = Some r.
Proof.
  unfold load_forum. destruct (get_forum k (db w)); intros H; inversion H; auto.
Qed.

Lemma load_forum_world k w : world_of (load_forum k w) = w.
Proof.
  unfold load_forum. destruct (get_forum k (db w)); reflexivity.
Qed.

Lemma Forum_update_trackers_from_frame fuel :
  forall self w, forum_only w (world_of (Forum.update_trackers_from fuel self w)).
Proof.
  induction fuel as [|n IH]; intros self w; simpl.
  - apply forum_only_refl.
  - unfold bind, emit, get_db, put_db; simpl.
    set (w1 := mkWorld _ _ _).
    assert (H1 : forum_only w w1).
    { subst w1; repeat split; simpl. exists [ForumUpdateTrackers (f_id self)]. auto. }
    destruct (f_parent self) as [p|]; [|exact H1].
    unfold load_forum. destruct (get_forum p (db w1)) as [r|]; [|exact H1].
    eapply forum_only_trans; [exact H1 | apply IH].
Qed.

Lemma update_trackers_from_S n self w :
  Forum.update_trackers_from (S n) self w =
    let w1 := mkWorld
                (Forum.store
                   (Forum.with_counters
                      (length (Forum.topics_under (db w) (f_id self)))
                      (length (Forum.posts_under (db w) (f_id self)))
                      self) (db w))
                (auto_now w) (log w ++ [ForumUpdateTrackers (f_id self)]) in
    match f_parent self with
    | Some p =>
        match get_forum p (db w1) with
        | Some parent => Forum.update_trackers_from n parent w1
        | None => Raise DoesNotExist w1
        end
    | None => Ok tt w1
    end.
Proof.
  simpl. unfold bind, emit, get_db, put_db, load_forum, ret. simpl.
  destruct (f_parent self) as [p|]; [|reflexivity].
  destruct (get_forum p _); reflexivity.
Qed.

Lemma Forum_update_trackers_frame self w :
  forum_only w (world_of (Forum.update_trackers self w)).
Proof. apply Forum_update_trackers_from_frame. Qed.

Lemma Forum_update_trackers_Ok self w u w' :
  Forum.update_trackers self w = Ok u w' -> forum_only w w'.
Proof.
  intros H. pose proof (Forum_update_trackers_frame self w) as F.
  rewrite H in F. exact F.
Qed.

Lemma Forum_update_trackers_log f w u w' :
  Forum.update_trackers f w = Ok u w' ->
  exists evs, log w' = log w ++ ForumUpdateTrackers (f_id f) :: evs /\
              forallb forum_event evs = true.
Proof.
  unfold Forum.update_trackers. rewrite update_trackers_from_S. cbv zeta.
  set (w1 := mkWorld _ _ _).
  assert (L1 : log w1 = log w ++ [ForumUpdateTrackers (f_id f)]) by reflexivity.
  destruct (f_parent f) as [p|].
  - destruct (get_forum p (db w1)) as [parent|]; [|discriminate].
    intros H.
    pose proof (Forum_update_trackers_from_frame
                  (length (forums (db w))) parent w1) as F.
    rewrite H in F. change (forum_only w1 w') in F.
    destruct F as (_ & _ & _ & evs & L & Hev).
    exists evs. split; [|exact Hev].
    rewrite L, L1, <- app_assoc. reflexivity.
  - intros H. inversion H; subst. exists []. split; [exact L1 | reflexivity].
Qed.

(** ** [models.Model.save] on a topic *)

Lemma find_key {A} (key : A -> Z) (k : Z) (l : list A) r :
  find (fun r => key r =? k) l = Some r ->
  key r = k /\ existsb (fun r => key r =? k) l = true.
Proof.
  intros H. pose proof (find_some _ _ H) as [Hin Hk].
  apply Z.eqb_eq in Hk. split; [exact Hk|].
  apply existsb_exists. exists r. split; [auto | apply Z.eqb_eq; auto].
Qed.

Lemma find_replace {A} (key : A -> Z) (k : Z) (x : A) (l : list A) :
  key x = k ->
  existsb (fun r => key r =? k) l = true ->
  find (fun r => key r =? k) (map (fun r => if key r =? k then x else r) l)
  = Some x.
Proof.
  intros Hx. induction l as [|y l IH]; simpl; [discriminate|].
  destruct (key y =? k) eqn:E; simpl.
  - intros _. rewrite Hx, Z.eqb_refl. reflexivity.
  - rewrite E. exact IH.
Qed.

Lemma find_replace_other {A} (key : A -> Z) (k j : Z) (x : A) (l : list A) :
  key x = k -> j <> k ->
  find (fun r => key r =? j) (map (fun r => if key r =? k then x else r) l)
  = find (fun r => key r =? j) l.
Proof.
  intros Hx Hj. induction l as [|y l IH]; simpl; [reflexivity|].
  destruct (key y =? k) eqn:E.
  - apply Z.eqb_eq in E.
    replace (key x =? j) with false by (symmetry; apply Z.eqb_neq; lia).
    replace (key y =? j) with false by (symmetry; apply Z.eqb_neq; lia).
    exact IH.
  - destruct (key y =? j); [reflexivity | exact IH].
Qed.

Lemma find_append {A} (key : A -> Z) (k : Z) (x : A) (l : list A) :
  key x = k ->
  existsb (fun r => key r =? k) l = false ->
  find (fun r => key r =? k) (l ++ [x]) = Some x.
Proof.
  intros Hx. induction l as [|y l IH]; simpl.
  - intros _. rewrite Hx, Z.eqb_refl. reflexivity.
  - destruct (key y =? k); simpl; [discriminate | exact IH].
Qed.

Lemma find_append_other {A} (key : A -> Z) (k j : Z) (x : A) (l : list A) :
  key x = k -> j <> k ->
  find (fun r => key r =? j) (l ++ [x]) = find (fun r => key r =? j) l.
Proof.
  intros Hx Hj. induction l as [|y l IH]; simpl.
  - replace (key x =? j) with false by (symmetry; apply Z.eqb_neq; lia).
    reflexivity.
  - destruct (key y =? j); [reflexivity | exact IH].
Qed.

Lemma Topic_Model_save_spec now self w k :
  AbstractTopic.pk self = Some k ->
  exists self',
    AbstractTopic.Model_save now self w =
      Ok self' (mkWorld (mkDB (forums (db w)) (topics (db (world_of
                  (AbstractTopic.Model_save now self w)))) (posts (db w)))
                        (auto_now w) (log w ++ [TopicModelSave k])) /\
    AbstractTopic.pk self' = Some k /\
    same_data self self' /\
    AbstractTopic.updated self' =
      (if auto_now w then now else AbstractTopic.updated self) /\
    get_topic k (db (world_of (AbstractTopic.Model_save now self w)))
      = Some (AbstractTopic.to_row k self').
Proof.
  intros Hk. unfold AbstractTopic.Model_save. rewrite Hk.
  destruct (existsb _ _) eqn:E; simpl.
  - eexists; split; [reflexivity|]. unfold get_topic; simpl.
    rewrite (find_replace tr_id k) by (auto).
    destruct (auto_now w); simpl; repeat split; auto.
  - eexists; split; [reflexivity|]. unfold get_topic; simpl.
    rewrite (find_append tr_id k) by (auto).
    destruct (auto_now w); simpl; repeat split; auto.
Qed.

Lemma simple_save_spec now self w k :
  AbstractTopic.pk self = Some k ->
  exists self' w',
    AbstractTopic._simple_save now self w = Ok self' w' /\
    AbstractTopic.pk self' = Some k /\
    same_data self self' /\
    AbstractTopic.updated self' = AbstractTopic.updated self /\
    get_topic k (db w') = Some (AbstractTopic.to_row k self') /\
    forums (db w') = forums (db w) /\
    posts (db w') = posts (db w) /\
    auto_now w' = true /\
    log w' = log w ++ [TopicModelSave k].
Proof.
  intros Hk. unfold AbstractTopic._simple_save, bind, set_auto_now, ret.
  destruct (Topic_Model_save_spec now self (mkWorld (db w) false (log w)) k Hk)
    as (self' & E & Hpk & Hd & Hu & Hg).
  rewrite E in Hg |- *. simpl in *.
  exists self'; eexists; split; [reflexivity|]. simpl. repeat split; auto; apply Hd.
Qed.

(** ** The topic-level tracker update *)

Lemma update_trackers_Ok now self w self' w' :
  AbstractTopic.update_trackers now self w = Ok self' w' ->
  tracked self w self' w'.
Proof.
  unfold AbstractTopic.update_trackers. intros H.
  bind_inv H. unfold emit in H0. inversion H0; subst a w0; clear H0.
  bind_inv H. unfold get_db in H0. inversion H0; subst a w0; clear H0.
  simpl in H.
  destruct (AbstractTopic.pk self) as [k|] eqn:Hk; simpl in H;
    [|discriminate].
  destruct (latest (posts_of k (db w))) as [lp|] eqn:Hl; [|discriminate].
  bind_inv H.
  match type of H0 with AbstractTopic._simple_save _ ?s ?w1 = _ =>
    destruct (simple_save_spec now s w1 k) as
      (s' & w2 & E & Hpk & Hd & Hu & Hg & Hf & Hp & Ha & Hlog);
      [simpl; exact Hk|] end.
  rewrite E in H0. inversion H0; subst a w0; clear H0 E.
  bind_inv H. apply load_forum_inv in H0. destruct H0 as [-> Hfr].
  bind_inv H.
  destruct (Forum_update_trackers_log _ _ _ _ H0) as (evs & L & F).
  apply Forum_update_trackers_Ok in H0.
  inversion H; subst; clear H.
  destruct H0 as (T & P & A & _).
  assert (Hid : f_id a = AbstractTopic.forum self').
  { unfold get_forum in Hfr. apply (find_key f_id) in Hfr. tauto. }
  destruct Hd as (D1 & D2 & D3 & D4 & D5 & D6). simpl in *.
  exists k, lp. repeat split; auto; try congruence.
  - unfold get_topic in *. rewrite T. exact Hg.
  - exists evs. split; [|exact F].
    rewrite L, Hlog, Hid, D1, <- !app_assoc. reflexivity.
Qed.

(** ** The memoised accessors *)

Lemma first_post_eq topic w :
  AbstractTopic.first_post topic w =
    Ok (first_post_value topic (db w), memo_first topic (db w)) w.
Proof.
  unfold AbstractTopic.first_post, first_post_value, memo_first.
  destruct (AbstractTopic._first_post topic); reflexivity.
Qed.

Lemma last_post_eq topic w :
  AbstractTopic.last_post topic w =
    Ok (last_post_value topic (db w), memo_last topic (db w)) w.
Proof.
  unfold AbstractTopic.last_post, last_post_value, memo_last.
  destruct (AbstractTopic._last_post topic); reflexivity.
Qed.

Lemma memo_first_data topic d :
  AbstractTopic.pk (memo_first topic d) = AbstractTopic.pk topic /\
  AbstractTopic.forum (memo_first topic d) = AbstractTopic.forum topic /\
  AbstractTopic.subject (memo_first topic d) = AbstractTopic.subject topic /\
  AbstractTopic.approved (memo_first topic d) = AbstractTopic.approved topic /\
  AbstractTopic._last_post (memo_first topic d) = AbstractTopic._last_post topic.
Proof.
  unfold memo_first. destruct (AbstractTopic._first_post topic); simpl; auto.
Qed.

Lemma memo_last_data topic d :
  AbstractTopic.pk (memo_last topic d) = AbstractTopic.pk topic /\
  AbstractTopic.forum (memo_last topic d) = AbstractTopic.forum topic /\
  AbstractTopic.subject (memo_last topic d) = AbstractTopic.subject topic /\
  AbstractTopic.approved (memo_last topic d) = AbstractTopic.approved topic /\
  AbstractTopic._first_post (memo_last topic d) = AbstractTopic._first_post topic.
Proof.
  unfold memo_last. destruct (AbstractTopic._last_post topic); simpl; auto.
Qed.

Lemma is_topic_head_inv self topic w h w' :
  AbstractPost.is_topic_head self topic w = Ok h w' ->
  w' = w /\ snd h = memo_first topic (db w) /\
  exists x, first_post_value topic (db w) = Some x /\
            fst h = AbstractPost.same_id x self.
Proof.
  unfold AbstractPost.is_topic_head, bind. rewrite first_post_eq. simpl.
  destruct (first_post_value topic (db w)) as [x|]; [|discriminate].
  unfold ret. intros H; inversion H; subst. simpl. eauto.
Qed.

Lemma is_topic_tail_inv self topic w h w' :
  AbstractPost.is_topic_tail self topic w = Ok h w' ->
  w' = w /\ snd h = memo_last topic (db w) /\
  exists x, last_post_value topic (db w) = Some x /\
            fst h = AbstractPost.same_id x self.
Proof.
  unfold AbstractPost.is_topic_tail, bind. rewrite last_post_eq. simpl.
  destruct (last_post_value topic (db w)) as [x|]; [|discriminate].
  unfold ret. intros H; inversion H; subst. simpl. eauto.
Qed.

(** ** Row-level saves and deletes *)

Lemma find_filter_out {A} (key : A -> Z) (k : Z) (l : list A) :
  find (fun r => key r =? k) (filter (fun r => negb (key r =? k)) l) = None.
Proof.
  induction l as [|y l IH]; simpl; [reflexivity|].
  destruct (key y =? k) eqn:E; simpl; [exact IH | rewrite E; exact IH].
Qed.

Lemma filter_filter_out {A} (key : A -> Z) (k : Z) (l : list A) :
  filter (fun r => key r =? k) (filter (fun r => negb (key r =? k)) l) = [].
Proof.
  induction l as [|y l IH]; simpl; [reflexivity|].
  destruct (key y =? k) eqn:E; simpl; [exact IH | rewrite E; exact IH].
Qed.

Lemma Topic_Model_delete_inv self w u w' :
  AbstractTopic.Model_delete self w = Ok u w' ->
  exists k, AbstractTopic.pk self = Some k /\
    forums (db w') = forums (db w) /\
    topics (db w') = filter (fun r => negb (tr_id r =? k)) (topics (db w)) /\
    posts (db w') = filter (fun p => negb (pr_topic p =? k)) (posts (db w)) /\
    auto_now w' = auto_now w /\
    log w' = log w ++ [TopicModelDelete k].
Proof.
  unfold AbstractTopic.Model_delete.
  destruct (AbstractTopic.pk self) as [k|]; [|discriminate].
  intros H; inversion H; subst; simpl. exists k. repeat split; auto.
Qed.

Lemma Post_Model_delete_inv self w u w' :
  AbstractPost.Model_delete self w = Ok u w' ->
  exists k, AbstractPost.pk self = Some k /\
    forums (db w') = forums (db w) /\
    topics (db w') = topics (db w) /\
    posts (db w') = filter (fun p => negb (pr_id p =? k)) (posts (db w)) /\
    auto_now w' = auto_now w /\
    log w' = log w ++ [PostModelDelete k].
Proof.
  unfold AbstractPost.Model_delete.
  destruct (AbstractPost.pk self) as [k|]; [|discriminate].
  intros H; inversion H; subst; simpl. exists k. repeat split; auto.
Qed.

Lemma Topic_delete_inv self w u w' :
  AbstractTopic.delete self w = Ok u w' ->
  exists k f w1,
    AbstractTopic.pk self = Some k /\
    AbstractTopic.Model_delete self w = Ok tt w1 /\
    get_forum (AbstractTopic.forum self) (db w1) = Some f /\
    Forum.update_trackers f w1 = Ok u w'.
Proof.
  unfold AbstractTopic.delete. intros H.
  bind_inv H. destruct a.
  destruct (Topic_Model_delete_inv _ _ _ _ H0) as (k & Hk & _).
  bind_inv H. apply load_forum_inv in H1. destruct H1 as [-> Hf].
  exists k, a, w0. auto.
Qed.

Lemma posts_of_ext k d d' : posts d' = posts d -> posts_of k d' = posts_of k d.
Proof. unfold posts_of. intros ->. reflexivity. Qed.

Lemma get_topic_ext k d d' :
  topics d' = topics d -> get_topic k d' = get_topic k d.
Proof. unfold get_topic. intros ->. reflexivity. Qed.

Lemma next_id_fresh {A} (key : A -> Z) (l : list A) :
  forall r, In r l -> key r < next_id (map key l).
Proof.
  unfold next_id. induction l as [|y l IH]; cbn [map fold_right In];
    intros r Hr; [contradiction|].
  destruct Hr as [<-|Hr].
  - lia.
  - specialize (IH r Hr). lia.
Qed.

Lemma existsb_key_false {A} (key : A -> Z) (k : Z) (l : list A) :
  existsb (fun r => key r =? k) l = false ->
  forall r, In r l -> key r <> k.
Proof.
  intros E r Hr Hk.
  assert (existsb (fun r => key r =? k) l = true).
  { apply existsb_exists. exists r. split; [auto | apply Z.eqb_eq; auto]. }
  congruence.
Qed.

Lemma next_id_absent {A} (key : A -> Z) (l : list A) :
  existsb (fun r => key r =? next_id (map key l)) l = false.
Proof.
  destruct (existsb _ l) eqn:E; [|reflexivity].
  apply existsb_exists in E. destruct E as (r & Hr & E).
  apply Z.eqb_eq in E. pose proof (next_id_fresh key l r Hr). lia.
Qed.

(** What [models.Model.save] on a post leaves behind. *)
Lemma Post_Model_save_inv now self topic w self1 w1 :
  AbstractPost.Model_save now self topic w = Ok self1 w1 ->
  exists tk pid,
    AbstractTopic.pk topic = Some tk /\
    AbstractPost.pk self1 = Some pid /\
    (AbstractPost.pk self = None \/ AbstractPost.pk self = Some pid) /\
    AbstractPost.subject self1 = AbstractPost.subject self /\
    AbstractPost.approved self1 = AbstractPost.approved self /\
    forums (db w1) = forums (db w) /\
    topics (db w1) = topics (db w) /\
    auto_now w1 = auto_now w /\
    log w1 = log w ++ [PostModelSave pid] /\
    In (AbstractPost.to_row pid tk self1) (posts_of tk (db w1)) /\
    (forall p, In p (posts (db w1)) -> pr_id p = pid ->
               p = AbstractPost.to_row pid tk self1).
Proof.
  unfold AbstractPost.Model_save.
  destruct (AbstractTopic.pk topic) as [tk|]; [|discriminate].
  assert (Hin : forall l x, pr_topic x = tk ->
            In x (filter (fun p => pr_topic p =? tk) (l ++ [x]))).
  { intros l x Hx. apply filter_In. split;
      [apply in_or_app; right; left; auto | apply Z.eqb_eq; auto]. }
  assert (Hall : forall l x k, pr_id x = k ->
            existsb (fun r => pr_id r =? k) l = false ->
            forall p, In p (l ++ [x]) -> pr_id p = k -> p = x).
  { intros l x k Hx E p Hp Hk. apply in_app_or in Hp.
    destruct Hp as [Hp|[<-|[]]]; [|reflexivity].
    exfalso. exact (existsb_key_false pr_id k l E p Hp Hk). }
  destruct (AbstractPost.pk self) as [k|] eqn:Hpk.
  - destruct (existsb _ _) eqn:E; intros H; inversion H; subst; clear H;
      simpl; exists tk, k; repeat split; auto.
    + unfold posts_of; simpl. apply filter_In. split.
      * apply existsb_exists in E. destruct E as (r & Hr & E).
        apply in_map_iff. exists r. rewrite E. auto.
      * simpl. apply Z.eqb_refl.
    + intros p Hp Hk. apply in_map_iff in Hp. destruct Hp as (r & Hr & _).
      destruct (pr_id r =? k) eqn:E'; [auto|].
      subst p. apply Z.eqb_neq in E'. contradiction.
    + unfold posts_of; simpl. apply Hin. reflexivity.
    + apply Hall; auto.
  - intros H; inversion H; subst; clear H; simpl.
    exists tk, (next_id (map pr_id (posts (db w)))). repeat split; auto.
    + unfold posts_of; simpl. apply Hin. reflexivity.
    + apply Hall; [reflexivity | apply next_id_absent].
Qed.

Lemma Post_save_inv now self topic w r w' :
  AbstractPost.save now self topic w = Ok r w' ->
  exists w1 x,
    AbstractPost.Model_save now self topic w = Ok (fst r) w1 /\
    first_post_value topic (db w1) = Some x /\
    tracked (mirrored (fst r) (AbstractPost.same_id x (fst r))
                      (memo_first topic (db w1))) w1 (snd r) w'.
Proof.
  unfold AbstractPost.save. intros H.
  bind_inv H. bind_inv H.
  apply is_topic_head_inv in H1. destruct H1 as (-> & Hs & x & Hx & Hh).
  bind_inv H. apply update_trackers_Ok in H1.
  inversion H; subst; clear H. simpl.
  exists w0, x. repeat split; auto.
  rewrite Hs, Hh in H1. exact H1.
Qed.

Lemma mirrored_data self1 h topic :
  AbstractTopic.pk (mirrored self1 h topic) = AbstractTopic.pk topic /\
  AbstractTopic.forum (mirrored self1 h topic) = AbstractTopic.forum topic /\
  AbstractTopic._first_post (mirrored self1 h topic)
    = AbstractTopic._first_post topic /\
  AbstractTopic._last_post (mirrored self1 h topic)
    = AbstractTopic._last_post topic.
Proof.
  unfold mirrored. destruct h; [destruct (_ || _)|]; simpl; auto.
Qed.

Lemma Post_delete_inv now self topic w topic' w' :
  AbstractPost.delete now self topic w = Ok topic' w' ->
  exists x,
    first_post_value topic (db w) = Some x /\
    ((* the topic goes *)
     (AbstractPost.same_id x self = true /\
      (exists y, last_post_value (memo_first topic (db w)) (db w) = Some y /\
                 AbstractPost.same_id y self = true) /\
      topic' = memo_last (memo_first topic (db w)) (db w) /\
      AbstractTopic.delete topic' w = Ok tt w')
     \/
     (* the post goes *)
     ((AbstractPost.same_id x self = false /\
       exists w1, AbstractPost.Model_delete self w = Ok tt w1 /\
                  tracked (memo_first topic (db w)) w1 topic' w')
      \/
      (AbstractPost.same_id x self = true /\
       exists y w1,
         last_post_value (memo_first topic (db w)) (db w) = Some y /\
         AbstractPost.same_id y self = false /\
         AbstractPost.Model_delete self w = Ok tt w1 /\
         tracked (memo_last (memo_first topic (db w)) (db w)) w1 topic' w'))).
Proof.
  unfold AbstractPost.delete. intros H.
  apply bind_Ok in H. destruct H as (h & wa & Hhead & H).
  apply is_topic_head_inv in Hhead.
  destruct Hhead as (-> & Hs & x & Hx & Hh).
  exists x. split; [exact Hx|].
  rewrite Hh, Hs in H. destruct (AbstractPost.same_id x self) eqn:Hd.
  - apply bind_Ok in H. destruct H as (tl & wb & Htail & H).
    apply is_topic_tail_inv in Htail.
    destruct Htail as (-> & Hs' & y & Hy & Ht).
    rewrite Ht, Hs' in H. simpl in H.
    destruct (AbstractPost.same_id y self) eqn:Hd'.
    + left. apply bind_Ok in H. destruct H as ([] & wc & Hdel & H).
      inversion H; subst; clear H. repeat split; eauto.
    + right; right. apply bind_Ok in H. destruct H as ([] & wc & Hdel & H).
      apply update_trackers_Ok in H.
      split; [reflexivity|]. exists y, wc. auto.
  - right; left. apply bind_Ok in H. destruct H as (tl & wb & Htail & H).
    inversion Htail; subst; clear Htail. simpl in H.
    apply bind_Ok in H. destruct H as ([] & wc & Hdel & H).
    apply update_trackers_Ok in H.
    split; [reflexivity|]. exists wc. auto.
Qed.

(** ** Post mutations keep the post count *)

Lemma tracked_pk t w t' w' k :
  tracked t w t' w' -> AbstractTopic.pk t = Some k ->
  posts (db w') = posts (db w) /\
  get_topic k (db w') = Some (AbstractTopic.to_row k t') /\
  AbstractTopic.posts_count t' = length (posts_of k (db w')).
Proof.
  intros (k0 & lp & Hk & _ & _ & Hp & Hg & Hc & _) Hk'.
  rewrite Hk in Hk'. inversion Hk'; subst k0.
  repeat split; auto. rewrite (posts_of_ext k _ _ Hp). exact Hc.
Qed.

Lemma tracked_count t w t' w' k row :
  tracked t w t' w' -> AbstractTopic.pk t = Some k ->
  get_topic k (db w') = Some row ->
  tr_posts_count row = length (posts_of k (db w')).
Proof.
  intros T Hk Hrow. destruct (tracked_pk _ _ _ _ _ T Hk) as (_ & Hg & Hc).
  rewrite Hg in Hrow. inversion Hrow; subst row. exact Hc.
Qed.

Lemma Topic_delete_gone self w u w' k :
  AbstractTopic.delete self w = Ok u w' ->
  AbstractTopic.pk self = Some k ->
  get_topic k (db w') = None /\ posts_of k (db w') = [].
Proof.
  intros H Hk. destruct (Topic_delete_inv _ _ _ _ H) as (k0 & f & w1 & Hk0 & Hd & _ & Hf).
  rewrite Hk in Hk0. inversion Hk0; subst k0.
  apply Forum_update_trackers_Ok in Hf. destruct Hf as (T & P & _).
  destruct (Topic_Model_delete_inv _ _ _ _ Hd) as (k0 & Hk0' & _ & T1 & P1 & _).
  rewrite Hk in Hk0'. inversion Hk0'; subst k0.
  unfold get_topic, posts_of. rewrite T, P, T1, P1. split.
  - apply (find_filter_out tr_id).
  - apply filter_filter_out.
Qed.

(** After a post save or a post delete that completes, the row of the
    post's topic, when the topic still exists, carries in [posts_count]
    the number of posts attached to the topic. *)
Theorem completed_mutation_posts_count
        m self topic w topic' w' k row :
  mutate m self topic w = Ok topic' w' ->
  AbstractTopic.pk topic = Some k ->
  get_topic k (db w') = Some row ->
  tr_posts_count row = length (posts_of k (db w')).
Proof.
  intros H Hk Hrow. destruct m as [now|now]; simpl in H.
  - apply bind_Ok in H. destruct H as (r & w2 & H & Hr).
    inversion Hr; subst; clear Hr.
    destruct (Post_save_inv _ _ _ _ _ _ H) as (w1 & x & _ & _ & T).
    eapply tracked_count; eauto.
    rewrite (proj1 (mirrored_data _ _ _)), (proj1 (memo_first_data _ _)).
    exact Hk.
  - destruct (Post_delete_inv _ _ _ _ _ _ H) as (x & _ & [C|[C|C]]).
    + destruct C as (_ & _ & -> & Hd).
      destruct (Topic_delete_gone _ _ _ _ k Hd) as [Hg _].
      * rewrite (proj1 (memo_last_data _ _)), (proj1 (memo_first_data _ _)).
        exact Hk.
      * congruence.
    + destruct C as (_ & w1 & _ & T).
      eapply tracked_count; eauto.
      rewrite (proj1 (memo_first_data _ _)). exact Hk.
    + destruct C as (_ & y & w1 & _ & _ & _ & T).
      eapply tracked_count; eauto.
      rewrite (proj1 (memo_last_data _ _)), (proj1 (memo_first_data _ _)).
      exact Hk.
Qed.

Lemma completed_mutation_posts_count_example :
  exists topic' w' row,
    mutate (DeletePost 103) Sample.post2 Sample.topic1 Sample.w_two
      = Ok topic' w' /\
    AbstractTopic.pk Sample.topic1 = Some 1 /\
    get_topic 1 (db w') = Some row /\
    tr_posts_count row = 1%nat /\
    tr_posts_count row = length (posts_of 1 (db w')).
Proof.
  do 3 eexists.
  split; [cbv; reflexivity|].
  split; [reflexivity|].
  split; [cbv; reflexivity|].
  split; [reflexivity|].
  eapply (completed_mutation_posts_count (DeletePost 103) Sample.post2
            Sample.topic1 Sample.w_two); [cbv; reflexivity | reflexivity
            | cbv; reflexivity].
Defined.

(** C1, at two post mutations that raise part way.  Both posts of a
    topic are deleted in the order of their creation through the topic
    instance they share: the second delete removes the last post and
    raises in the tracker update, and the topic row is left with
    [posts_count] 1 and no post.  A first post is saved through a topic
    instance on which [first_post] was read while the topic was empty:
    the post row is inserted, the head test raises, and the topic row
    is left with [posts_count] 0 and one post. *)
Theorem C1_posts_count_stale_after_post_mutation :
  (exists w',
     Scenario.delete_all_posts Sample.w_two = Raise AttributeError w' /\
     option_map tr_posts_count (get_topic 1 (db w')) = Some 1%nat /\
     length (posts_of 1 (db w')) = 0%nat) /\
  (exists w',
     AbstractPost.save 101 (Sample.new_post "Hello")
                       Scenario.topic1_read_early Sample.w_topic
       = Raise AttributeError w' /\
     option_map tr_posts_count (get_topic 1 (db w')) = Some 0%nat /\
     length (posts_of 1 (db w')) = 1%nat).
Proof.
  split.
  - eexists. split; [cbv; reflexivity|]. split; reflexivity.
  - eexists. split; [cbv; reflexivity|]. split; reflexivity.
Qed.

(** ** The forum hierarchy under the rollup *)

Lemma same_tree_refl d : same_tree d d.
Proof. split; auto. Qed.

Lemma same_tree_trans d1 d2 d3 :
  same_tree d1 d2 -> same_tree d2 d3 -> same_tree d1 d3.
Proof.
  intros [L1 H1] [L2 H2]. split; [congruence|].
  intros k. rewrite H2, H1. reflexivity.
Qed.

Lemma same_tree_forums d d' : forums d' = forums d -> same_tree d d'.
Proof. unfold same_tree, get_forum. intros ->. auto. Qed.

Lemma store_lookup r d :
  fresh_forum r d -> get_forum (f_id r) (Forum.store r d) = Some r.
Proof.
  unfold fresh_forum, Forum.store, get_forum. intros H.
  destruct (find _ (forums d)) as [r0|] eqn:E; [|discriminate].
  apply find_key in E. destruct E as [_ E]. simpl. rewrite E.
  apply (find_replace f_id); auto.
Qed.

Lemma store_lookup_other r d k :
  fresh_forum r d -> k <> f_id r ->
  get_forum k (Forum.store r d) = get_forum k d.
Proof.
  unfold fresh_forum, Forum.store, get_forum. intros H Hk.
  destruct (find _ (forums d)) as [r0|] eqn:E; [|discriminate].
  apply find_key in E. destruct E as [_ E]. simpl. rewrite E.
  apply (find_replace_other f_id); auto.
Qed.

Lemma store_same_tree r d : fresh_forum r d -> same_tree d (Forum.store r d).
Proof.
  intros H. split.
  - unfold fresh_forum, get_forum in H. unfold Forum.store. simpl.
    destruct (find _ (forums d)) as [r0|] eqn:E; [|discriminate].
    apply find_key in E. destruct E as [_ E]. rewrite E.
    apply length_map.
  - intros k. destruct (Z.eq_dec k (f_id r)) as [->|Hk].
    + rewrite (store_lookup r d H). simpl. symmetry. exact H.
    + rewrite (store_lookup_other r d k H Hk). reflexivity.
Qed.

Lemma store_tables r d :
  topics (Forum.store r d) = topics d /\ posts (Forum.store r d) = posts d.
Proof. split; reflexivity. Qed.

Lemma reaches_root_same_tree d d' n :
  same_tree d d' -> forall f, reaches_root n d' f = reaches_root n d f.
Proof.
  intros [_ H]. induction n as [|n IH]; intros f; simpl; [reflexivity|].
  specialize (H f).
  destruct (get_forum f d') as [r'|], (get_forum f d) as [r|];
    simpl in H; try discriminate; [|reflexivity].
  inversion H as [Hp]. rewrite Hp.
  destruct (f_parent r); [apply IH | reflexivity].
Qed.

Lemma in_subtree_same_tree d d' n root :
  same_tree d d' ->
  forall f, Forum.in_subtree n d' root f = Forum.in_subtree n d root f.
Proof.
  intros [_ H]. induction n as [|n IH]; intros f; simpl; [reflexivity|].
  destruct (f =? root); [reflexivity|].
  specialize (H f).
  destruct (get_forum f d') as [r'|], (get_forum f d) as [r|];
    simpl in H; try discriminate; [|reflexivity].
  inversion H as [Hp]. rewrite Hp.
  destruct (f_parent r); [apply IH | reflexivity].
Qed.

Lemma under_same_tree d d' root f :
  same_tree d d' -> Forum.under d' root f = Forum.under d root f.
Proof.
  intros H. unfold Forum.under. rewrite (proj1 H).
  apply in_subtree_same_tree; exact H.
Qed.

Lemma topics_under_same_tree d d' root :
  same_tree d d' -> topics d' = topics d ->
  Forum.topics_under d' root = Forum.topics_under d root.
Proof.
  intros H T. unfold Forum.topics_under. rewrite T.
  apply filter_ext. intros t. apply under_same_tree; exact H.
Qed.

Lemma posts_under_same_tree d d' root :
  same_tree d d' -> topics d' = topics d -> posts d' = posts d ->
  Forum.posts_under d' root = Forum.posts_under d root.
Proof.
  intros H T P. unfold Forum.posts_under. rewrite P.
  apply filter_ext. intros p. rewrite (get_topic_ext _ _ _ T).
  destruct (get_topic (pr_topic p) d); [|reflexivity].
  apply under_same_tree; exact H.
Qed.

Lemma rolled_up_same_tree F d d' :
  same_tree d d' -> topics d' = topics d -> posts d' = posts d ->
  get_forum F d' = get_forum F d ->
  rolled_up F d -> rolled_up F d'.
Proof.
  intros H T P G (r & Hr & Ht & Hp). exists r.
  rewrite G, (topics_under_same_tree d d' F H T),
    (posts_under_same_tree d d' F H T P). auto.
Qed.

Lemma load_fresh p d r : get_forum p d = Some r -> fresh_forum r d.
Proof.
  intros H. unfold fresh_forum.
  unfold get_forum in H. destruct (find_key f_id p _ _ H) as [-> _].
  unfold get_forum. rewrite H. reflexivity.
Qed.

(** One step of the cascade: the world after forum [self] has been
    recomputed and stored. *)
Lemma rollup_step self d :
  fresh_forum self d ->
  let d1 := Forum.store
              (Forum.with_counters (length (Forum.topics_under d (f_id self)))
                                   (length (Forum.posts_under d (f_id self)))
                                   self) d in
  same_tree d d1 /\ rolled_up (f_id self) d1 /\
  forall F, rolled_up F d -> rolled_up F d1.
Proof.
  intros Hf d1.
  set (self' := Forum.with_counters _ _ self) in d1.
  assert (Hf' : fresh_forum self' d) by exact Hf.
  assert (ST : same_tree d d1) by (apply store_same_tree; exact Hf').
  assert (R : rolled_up (f_id self) d1).
  { exists self'. split; [apply (store_lookup self' d Hf')|].
    rewrite (topics_under_same_tree d d1 _ ST eq_refl),
      (posts_under_same_tree d d1 _ ST eq_refl eq_refl). split; reflexivity. }
  repeat split; try apply ST; [exact R|].
  intros F HF. destruct (Z.eq_dec F (f_id self)) as [->|Hne]; [exact R|].
  apply (rolled_up_same_tree F d d1 ST eq_refl eq_refl); [|exact HF].
  apply (store_lookup_other self' d F Hf'). exact Hne.
Qed.

Lemma Forum_cascade fuel :
  forall self w,
    fresh_forum self (db w) ->
    let w' := world_of (Forum.update_trackers_from fuel self w) in
    same_tree (db w) (db w') /\
    (forall F, rolled_up F (db w) -> rolled_up F (db w')) /\
    (forall u w'', Forum.update_trackers_from fuel self w = Ok u w'' ->
                   rolled_up (f_id self) (db w')) /\
    (reaches_root fuel (db w) (f_id self) = true ->
     Forum.update_trackers_from fuel self w = Ok tt w').
Proof.
  induction fuel as [|n IH]; intros self w Hf.
  - simpl. unfold raise. split; [apply same_tree_refl|].
    repeat split; auto; discriminate.
  - cbv zeta. rewrite update_trackers_from_S. cbv zeta.
    destruct (rollup_step self (db w) Hf) as (ST & R & K).
    set (d1 := Forum.store _ (db w)) in *.
    set (w1 := mkWorld d1 _ _).
    destruct (f_parent self) as [p|] eqn:Ep.
    + destruct (get_forum p (db w1)) as [parent|] eqn:Eparent.
      * assert (Hfp : fresh_forum parent (db w1)) by
          (apply (load_fresh p); exact Eparent).
        destruct (IH parent w1 Hfp) as (ST' & K' & R' & S').
        assert (Hid : f_id parent = p).
        { unfold get_forum in Eparent.
          apply (find_key f_id) in Eparent. tauto. }
        split; [exact (same_tree_trans _ _ _ ST ST')|].
        split; [intros F HF; apply K', K, HF|].
        split; [intros u w'' Hu; apply K'; exact R|].
        intros Hr. simpl in Hr.
        assert (E0 : exists r0, get_forum (f_id self) (db w) = Some r0 /\
                                f_parent r0 = Some p).
        { unfold fresh_forum in Hf.
          destruct (get_forum (f_id self) (db w)) as [r0|]; [|discriminate].
          exists r0. split; [reflexivity|]. simpl in Hf. congruence. }
        destruct E0 as (r0 & E0 & Ep0). rewrite E0, Ep0 in Hr.
        rewrite <- (reaches_root_same_tree _ _ n ST), <- Hid in Hr.
        rewrite (S' Hr). reflexivity.
      * simpl. split; [exact ST|]. split; [exact K|].
        split; [discriminate|].
        intros Hr. exfalso. simpl in Hr.
        unfold fresh_forum in Hf.
        destruct (get_forum (f_id self) (db w)) as [r0|]; [|discriminate].
        simpl in Hf. replace (f_parent r0) with (Some p) in Hr by congruence.
        rewrite <- (reaches_root_same_tree _ _ n ST) in Hr.
        destruct n; simpl in Hr; [discriminate|].
        change (get_forum p d1) with (get_forum p (db w1)) in Hr.
        rewrite Eparent in Hr. discriminate.
    + simpl. split; [exact ST|]. split; [exact K|].
      split; [intros; exact R|]. reflexivity.
Qed.

Lemma Forum_update_trackers_succeeds f k w :
  get_forum k (db w) = Some f ->
  well_rooted (db w) k ->
  Forum.update_trackers f w
    = Ok tt (world_of (Forum.update_trackers f w)).
Proof.
  intros Hg Hr. unfold Forum.update_trackers.
  apply Forum_cascade.
  - apply (load_fresh k); exact Hg.
  - unfold get_forum in Hg. destruct (find_key f_id k _ _ Hg) as [-> _].
    exact Hr.
Qed.

Lemma well_rooted_forums d d' k :
  forums d' = forums d -> well_rooted d k -> well_rooted d' k.
Proof.
  unfold well_rooted. intros E H. rewrite E.
  rewrite (reaches_root_same_tree d d'); [exact H|].
  apply same_tree_forums; exact E.
Qed.

Lemma well_rooted_exists d k :
  well_rooted d k -> exists f, get_forum k d = Some f.
Proof.
  unfold well_rooted. simpl. destruct (get_forum k d); [eauto | discriminate].
Qed.

Lemma update_trackers_succeeds now self w k :
  AbstractTopic.pk self = Some k ->
  posts_of k (db w) <> [] ->
  well_rooted (db w) (AbstractTopic.forum self) ->
  exists self' w', AbstractTopic.update_trackers now self w = Ok self' w'.
Proof.
  intros Hk Hne Hr. unfold AbstractTopic.update_trackers.
  unfold bind at 1. unfold emit. unfold bind at 1. unfold get_db. simpl.
  rewrite Hk. simpl.
  destruct (latest (posts_of k (db w))) as [lp|] eqn:Hl;
    [|apply latest_None in Hl; contradiction].
  unfold bind at 1.
  match goal with |- context [AbstractTopic._simple_save _ ?s ?w1] =>
    destruct (simple_save_spec now s w1 k) as
      (s' & w2 & E & Hpk & Hd & Hu & Hg & Hf & Hp & Ha & Hlog);
      [simpl; exact Hk|] end.
  rewrite E.
  assert (Hr2 : well_rooted (db w2) (AbstractTopic.forum s')).
  { destruct Hd as (-> & _). simpl. apply (well_rooted_forums (db w)); auto. }
  destruct (well_rooted_exists _ _ Hr2) as (f & Hfr).
  unfold bind at 1. unfold load_forum. rewrite Hfr.
  unfold bind. rewrite (Forum_update_trackers_succeeds f _ w2 Hfr Hr2).
  unfold ret. eauto.
Qed.

(** ** The time stamp and the last-post reference *)

(** C2.  For a topic with at least one attached post, a tracker update
    completes whenever the forum hierarchy above the topic is a finite
    chain; and whenever it completes, the stored [updated] of the topic
    is the creation time of a post of the topic that no post of the
    topic is younger than, and the topic's [_last_post] is that post. *)
Theorem C2_updated_is_last_post_created now topic w k :
  AbstractTopic.pk topic = Some k ->
  posts_of k (db w) <> [] ->
  (well_rooted (db w) (AbstractTopic.forum topic) ->
   exists topic' w', AbstractTopic.update_trackers now topic w = Ok topic' w')
  /\
  (forall topic' w',
     AbstractTopic.update_trackers now topic w = Ok topic' w' ->
     exists p row,
       In p (posts_of k (db w')) /\
       (forall q, In q (posts_of k (db w')) -> pr_created q <= pr_created p) /\
       get_topic k (db w') = Some row /\
       tr_updated row = pr_created p /\
       AbstractTopic.updated topic' = pr_created p /\
       AbstractTopic._last_post topic' = Some (Some p)).
Proof.
  intros Hk Hne. split.
  - intros Hr. eapply update_trackers_succeeds; eauto.
  - intros topic' w' H. apply update_trackers_Ok in H.
    destruct H as (k0 & lp & Hk0 & _ & Hl & Hp & Hg & _ & Hu & Hlast & _).
    rewrite Hk in Hk0. inversion Hk0; subst k0.
    destruct (latest_spec _ _ Hl) as [Hin Hmax].
    exists lp, (AbstractTopic.to_row k topic').
    rewrite (posts_of_ext k _ _ Hp). repeat split; auto.
Qed.

Lemma C2_witness :
  AbstractTopic.pk Sample.topic1 = Some 1 /\
  posts_of 1 (db Sample.w_two) <> [] /\
  well_rooted (db Sample.w_two) (AbstractTopic.forum Sample.topic1) /\
  exists topic' w',
    AbstractTopic.update_trackers 103 Sample.topic1 Sample.w_two
      = Ok topic' w' /\
    AbstractTopic.updated topic' = 102 /\
    exists p row,
      In p (posts_of 1 (db w')) /\
      (forall q, In q (posts_of 1 (db w')) -> pr_created q <= pr_created p) /\
      get_topic 1 (db w') = Some row /\
      tr_updated row = pr_created p /\
      AbstractTopic.updated topic' = pr_created p /\
      AbstractTopic._last_post topic' = Some (Some p).
Proof.
  assert (H1 : AbstractTopic.pk Sample.topic1 = Some 1) by reflexivity.
  assert (H2 : posts_of 1 (db Sample.w_two) <> []) by (cbv; discriminate).
  assert (H3 : well_rooted (db Sample.w_two)
                           (AbstractTopic.forum Sample.topic1))
    by (cbv; reflexivity).
  split; [exact H1|]. split; [exact H2|]. split; [exact H3|].
  do 2 eexists. split; [cbv; reflexivity|]. split; [reflexivity|].
  apply (proj2 (C2_updated_is_last_post_created 103 Sample.topic1
                  Sample.w_two 1 H1 H2)).
  cbv; reflexivity.
Defined.

(** ** The lightweight save *)

(** The full [models.Model.save] path stamps [updated] with the time of
    the save when the field's [auto_now] is on. *)
Lemma Model_save_stamps_now now self w k :
  AbstractTopic.pk self = Some k -> auto_now w = true ->
  exists self' w',
    AbstractTopic.Model_save now self w = Ok self' w' /\
    get_topic k (db w') = Some (AbstractTopic.to_row k self') /\
    AbstractTopic.updated self' = now.
Proof.
  intros Hk Ha.
  destruct (Topic_Model_save_spec now self w k Hk) as (s' & E & _ & _ & Hu & Hg).
  rewrite Ha in Hu. rewrite E in Hg. simpl in Hg.
  rewrite E. eauto.
Qed.



(** ** The mirrored subject and approved flag *)

Lemma first_post_value_ext topic d d' :
  posts d' = posts d -> first_post_value topic d' = first_post_value topic d.
Proof.
  intros P. unfold first_post_value, related_posts.
  destruct (AbstractTopic._first_post topic); [reflexivity|].
  destruct (AbstractTopic.pk topic); [|reflexivity].
  rewrite (posts_of_ext _ _ _ P). reflexivity.
Qed.

Lemma mirrored_head self1 topic :
  AbstractTopic.subject (mirrored self1 true topic)
    = AbstractPost.subject self1 /\
  AbstractTopic.approved (mirrored self1 true topic)
    = AbstractPost.approved self1.
Proof.
  unfold mirrored.
  destruct (String.eqb _ _) eqn:E1; simpl; [|auto].
  destruct (Bool.eqb _ _) eqn:E2; simpl; [|auto].
  apply String.eqb_eq in E1. apply Bool.eqb_prop in E2. auto.
Qed.

(** What a completed post save does for the mirror.  Let [x]
    be the post that [topic.first_post] yields.  If [x] is the saved
    post, the stored subject and approved flag of the topic are those of
    the saved post; otherwise they are those the topic instance held.
    When the instance had no memoised first post, [x] is the
    chronologically-first post of the topic in the database, and when it
    is the saved post it carries the saved subject and flag.  The topic
    row is written once, by the tracker update. *)
Theorem completed_save_mirrors_head now self topic w r w' :
  AbstractPost.save now self topic w = Ok r w' ->
  exists k pid x row evs,
    AbstractTopic.pk topic = Some k /\
    AbstractPost.pk (fst r) = Some pid /\
    first_post_value topic (db w') = Some x /\
    get_topic k (db w') = Some row /\
    (if pr_id x =? pid
     then tr_subject row = AbstractPost.subject self /\
          tr_approved row = AbstractPost.approved self
     else tr_subject row = AbstractTopic.subject topic /\
          tr_approved row = AbstractTopic.approved topic) /\
    (AbstractTopic._first_post topic = None ->
     earliest (posts_of k (db w')) = Some x /\
     (pr_id x = pid ->
      pr_subject x = AbstractPost.subject self /\
      pr_approved x = AbstractPost.approved self)) /\
    log w' = log w ++ PostModelSave pid :: TopicUpdateTrackers (Some k)
                   :: TopicModelSave k :: evs /\
    forallb forum_event evs = true.
Proof.
  intros H.
  destruct (Post_save_inv _ _ _ _ _ _ H) as (w1 & x & Hs & Hx & T).
  destruct (Post_Model_save_inv _ _ _ _ _ _ Hs)
    as (tk & pid & Htk & Hpid & _ & Hsub & Happ & _ & _ & _ & Hlog & Hin & Hall).
  set (t1 := mirrored _ _ _) in T.
  destruct T as (k & lp & Hk & _ & _ & Hp & Hg & _ & _ & _ & _ & Hsu & Hap & _
                 & _ & evs & Hlog' & Hev).
  assert (Hkk : AbstractTopic.pk topic = Some k).
  { rewrite <- Hk. subst t1.
    rewrite (proj1 (mirrored_data _ _ _)), (proj1 (memo_first_data _ _)).
    reflexivity. }
  assert (tk = k) by congruence. subst tk.
  exists k, pid, x, (AbstractTopic.to_row k (snd r)),
    (ForumUpdateTrackers (AbstractTopic.forum t1) :: evs).
  split; [exact Hkk|]. split; [exact Hpid|].
  split; [rewrite (first_post_value_ext topic _ _ Hp); exact Hx|].
  split; [exact Hg|].
  split; [|split; [|split; [|exact Hev]]].
  - simpl. rewrite Hsu, Hap. subst t1.
    unfold AbstractPost.same_id. rewrite Hpid.
    destruct (pr_id x =? pid).
    + rewrite <- Hsub, <- Happ. apply mirrored_head.
    + unfold mirrored.
      destruct (memo_first_data topic (db w1)) as (_ & _ & -> & -> & _). auto.
  - intros Hm. unfold first_post_value in Hx. rewrite Hm, Hkk in Hx.
    simpl in Hx. rewrite (posts_of_ext k _ _ Hp). split; [exact Hx|].
    intros Hid. apply earliest_spec in Hx. destruct Hx as [Hx _].
    unfold posts_of in Hx. apply filter_In in Hx. destruct Hx as [Hx _].
    rewrite (Hall x Hx Hid). simpl. auto.
  - rewrite Hlog', Hlog, <- app_assoc. reflexivity.
Qed.

Lemma completed_save_mirrors_head_example :
  exists r w',
    AbstractPost.save 101 (Sample.new_post "Hello") Sample.topic1
                      Sample.w_topic = Ok r w' /\
    exists k pid x row evs,
      AbstractTopic.pk Sample.topic1 = Some k /\
      AbstractPost.pk (fst r) = Some pid /\
      first_post_value Sample.topic1 (db w') = Some x /\
      get_topic k (db w') = Some row /\
      (if pr_id x =? pid
       then tr_subject row = AbstractPost.subject (Sample.new_post "Hello") /\
            tr_approved row = AbstractPost.approved (Sample.new_post "Hello")
       else tr_subject row = AbstractTopic.subject Sample.topic1 /\
            tr_approved row = AbstractTopic.approved Sample.topic1) /\
      (AbstractTopic._first_post Sample.topic1 = None ->
       earliest (posts_of k (db w')) = Some x /\
       (pr_id x = pid ->
        pr_subject x = AbstractPost.subject (Sample.new_post "Hello") /\
        pr_approved x = AbstractPost.approved (Sample.new_post "Hello"))) /\
      log w' = log Sample.w_topic ++ PostModelSave pid
                 :: TopicUpdateTrackers (Some k) :: TopicModelSave k :: evs /\
      forallb forum_event evs = true.
Proof.
  do 2 eexists. split; [cbv; reflexivity|].
  apply (completed_save_mirrors_head 101 (Sample.new_post "Hello") Sample.topic1
                              Sample.w_topic).
  cbv; reflexivity.
Defined.

(** C3, at a topic whose head post has been deleted.  The head post
    of a two-post topic is deleted, then a further post is saved (each
    through a topic instance of its own, loaded for the occasion).  The
    save completes, the chronologically-first post of the topic is
    "World", and the stored subject of the topic is still "Hello". *)
Lemma C3_subject_stale_after_head_delete :
  exists r w' row fp,
    AbstractPost.save 104 (Sample.new_post "Again")
                      (Scenario.load 1 Scenario.w_headless)
                      Scenario.w_headless = Ok r w' /\
    get_topic 1 (db w') = Some row /\
    earliest (posts_of 1 (db w')) = Some fp /\
    tr_subject row = "Hello"%string /\
    pr_subject fp = "World"%string /\
    tr_subject row <> pr_subject fp.
Proof.
  do 4 eexists. split; [cbv; reflexivity|].
  split; [cbv; reflexivity|]. split; [cbv; reflexivity|].
  split; [reflexivity|]. split; [reflexivity|]. discriminate.
Qed.

(** ** The position of a post *)

Lemma count_or_disjoint {A} (f g : A -> bool) (l : list A) :
  (forall x, In x l -> f x = true -> g x = false) ->
  length (filter (fun x => f x || g x) l)
  = (length (filter f l) + length (filter g l))%nat.
Proof.
  induction l as [|y l IH]; simpl; intros H; [reflexivity|].
  assert (IH' := IH (fun x Hx => H x (or_intror Hx))).
  destruct (f y) eqn:Ef; simpl.
  - rewrite (H y (or_introl eq_refl) Ef). simpl. rewrite IH'. reflexivity.
  - destruct (g y); simpl; rewrite IH'; lia.
Qed.

Lemma count_key_unique {A} (key : A -> Z) (l : list A) r :
  NoDup (map key l) -> In r l ->
  length (filter (fun q => key q =? key r) l) = 1%nat.
Proof.
  induction l as [|y l IH]; simpl; intros ND Hin; [contradiction|].
  inversion ND as [|? ? Hnot ND']; subst.
  destruct Hin as [->|Hin].
  - rewrite Z.eqb_refl. simpl. f_equal.
    destruct (filter _ l) as [|z l'] eqn:E; [reflexivity|].
    exfalso. assert (Hz : In z (filter (fun q => key q =? key r) l))
      by (rewrite E; left; reflexivity).
    apply filter_In in Hz. destruct Hz as [Hz Hk]. apply Z.eqb_eq in Hk.
    apply Hnot. rewrite <- Hk. apply in_map. exact Hz.
  - destruct (key y =? key r) eqn:E; [|apply IH; auto].
    exfalso. apply Z.eqb_eq in E. apply Hnot. rewrite E.
    apply in_map. exact Hin.
Qed.

Lemma NoDup_map_filter {A} (key : A -> Z) (f : A -> bool) (l : list A) :
  NoDup (map key l) -> NoDup (map key (filter f l)).
Proof.
  induction l as [|y l IH]; simpl; intros ND; [constructor|].
  inversion ND as [|? ? Hnot ND']; subst.
  destruct (f y); simpl; [|auto].
  constructor; [|auto].
  intros Hin. apply Hnot. apply in_map_iff in Hin.
  destruct Hin as (z & Hz & Hin). apply filter_In in Hin.
  rewrite <- Hz. apply in_map. tauto.
Qed.

Lemma NoDup_key_inj {A} (key : A -> Z) (l : list A) x y :
  NoDup (map key l) -> In x l -> In y l -> key x = key y -> x = y.
Proof.
  induction l as [|z l IH]; simpl; intros ND Hx Hy E; [contradiction|].
  inversion ND as [|? ? Hnot ND']; subst.
  destruct Hx as [->|Hx], Hy as [->|Hy]; auto.
  - exfalso. apply Hnot. rewrite E. apply in_map. exact Hy.
  - exfalso. apply Hnot. rewrite <- E. apply in_map. exact Hx.
Qed.

(** C6, as the code has it.  For a post stored in its topic (primary
    keys being unique), [position] is one more than the number of posts
    of the topic created strictly before it; it is the rank by creation
    time and id when no other post of the topic has the same creation
    time. *)
Theorem C6_position_counts_strictly_earlier r topic d k :
  AbstractTopic.pk topic = Some k ->
  NoDup (map pr_id (posts d)) ->
  In r (posts_of k d) ->
  AbstractPost.position (AbstractPost.of_row r) topic d
  = S (length (filter (fun q => pr_created q <? pr_created r) (posts_of k d)))
  /\
  ((forall q, In q (posts_of k d) -> pr_created q = pr_created r -> q = r) ->
   AbstractPost.position (AbstractPost.of_row r) topic d
   = rank_by_created_then_id r (posts_of k d)).
Proof.
  intros Hk ND Hin.
  assert (E : AbstractPost.position (AbstractPost.of_row r) topic d
              = S (length (filter (fun q => pr_created q <? pr_created r)
                                  (posts_of k d)))).
  { unfold AbstractPost.position. rewrite Hk. simpl.
    unfold AbstractPost.same_id. simpl.
    assert (ND' : NoDup (map pr_id (posts_of k d)))
      by (apply NoDup_map_filter; exact ND).
    rewrite count_or_disjoint.
    - rewrite (count_key_unique pr_id _ r ND' Hin). lia.
    - intros x Hx Hlt. apply Z.eqb_neq. intros Hid.
      assert (x = r).
      { apply (NoDup_key_inj pr_id _ x r ND' Hx Hin). exact Hid. }
      subst x. apply Z.ltb_lt in Hlt. lia. }
  split; [exact E|].
  intros Huniq. rewrite E. unfold rank_by_created_then_id. f_equal. f_equal.
  apply filter_ext_in. intros q Hq.
  destruct (pr_created q =? pr_created r) eqn:Ec; simpl;
    [|rewrite orb_false_r; reflexivity].
  apply Z.eqb_eq in Ec. rewrite (Huniq q Hq Ec), !Z.ltb_irrefl.
  reflexivity.
Qed.

Lemma C6_witness :
  AbstractTopic.pk Sample.topic1 = Some 1 /\
  NoDup (map pr_id (posts (db Sample.w_two))) /\
  In (AbstractPost.to_row 2 1 Sample.post2) (posts_of 1 (db Sample.w_two)) /\
  AbstractPost.position Sample.post2 Sample.topic1 (db Sample.w_two) = 2%nat /\
  AbstractPost.position
    (AbstractPost.of_row (AbstractPost.to_row 2 1 Sample.post2))
    Sample.topic1 (db Sample.w_two)
  = S (length (filter (fun q => pr_created q
                                <? pr_created (AbstractPost.to_row 2 1 Sample.post2))
                      (posts_of 1 (db Sample.w_two)))).
Proof.
  assert (H1 : AbstractTopic.pk Sample.topic1 = Some 1) by reflexivity.
  assert (H2 : NoDup (map pr_id (posts (db Sample.w_two)))).
  { cbv. repeat constructor; simpl; intuition discriminate. }
  assert (H3 : In (AbstractPost.to_row 2 1 Sample.post2)
                  (posts_of 1 (db Sample.w_two))).
  { cbv. right; left; reflexivity. }
  split; [exact H1|]. split; [exact H2|]. split; [exact H3|].
  split; [reflexivity|].
  exact (proj1 (C6_position_counts_strictly_earlier _ Sample.topic1
                  (db Sample.w_two) 1 H1 H2 H3)).
Defined.

(** C6 as stated fails: of two posts of one topic saved within the same
    clock tick, the one with the larger id has position 1, while its
    rank by creation time with ties broken by id is 2. *)
Lemma C6_counterexample :
  In Scenario.tied_post2 (posts_of 1 (db Scenario.w_tie)) /\
  AbstractPost.position (AbstractPost.of_row Scenario.tied_post2)
                        (Scenario.load 1 Scenario.w_tie) (db Scenario.w_tie)
    = 1%nat /\
  rank_by_created_then_id Scenario.tied_post2 (posts_of 1 (db Scenario.w_tie))
    = 2%nat.
Proof.
  split; [cbv; right; left; reflexivity|]. split; reflexivity.
Qed.

(** ** Deleting a post *)

Lemma count_filter_remove {A} (key : A -> Z) (P : A -> bool) (l : list A) r :
  NoDup (map key l) -> In r l -> P r = true ->
  length (filter P l)
  = S (length (filter P (filter (fun q => negb (key q =? key r)) l))).
Proof.
  induction l as [|y l IH]; simpl; intros ND Hin HP; [contradiction|].
  inversion ND as [|? ? Hnot ND']; subst.
  destruct Hin as [->|Hin].
  - rewrite HP, Z.eqb_refl. simpl. f_equal. f_equal. f_equal.
    symmetry. apply forallb_filter_id. apply forallb_forall.
    intros x Hx. apply negb_true_iff, Z.eqb_neq. intros E.
    apply Hnot. rewrite <- E. apply in_map. exact Hx.
  - assert (E : (key y =? key r) = false).
    { apply Z.eqb_neq. intros E. apply Hnot. rewrite E. apply in_map. auto. }
    rewrite E. simpl. destruct (P y); simpl; rewrite (IH ND' Hin HP); auto.
Qed.

Lemma under_self d F : Forum.under d F F = true.
Proof.
  unfold Forum.under. destruct (length (forums d)); simpl;
    rewrite Z.eqb_refl; reflexivity.
Qed.

Lemma Topic_delete_spec self w u w' k :
  AbstractTopic.delete self w = Ok u w' ->
  AbstractTopic.pk self = Some k ->
  topic_deleted k (AbstractTopic.forum self) w w'.
Proof.
  intros H Hk. set (F := AbstractTopic.forum self).
  destruct (Topic_delete_gone _ _ _ _ k H Hk) as [Hg Hp].
  destruct (Topic_delete_inv _ _ _ _ H) as (k0 & f & w1 & Hk0 & Hd & Hf & Hu).
  rewrite Hk in Hk0. inversion Hk0; subst k0. clear Hk0.
  destruct (Topic_Model_delete_inv _ _ _ _ Hd)
    as (k0 & Hk0 & F1 & T1 & P1 & A1 & L1).
  rewrite Hk in Hk0. inversion Hk0; subst k0. clear Hk0.
  assert (Hid : f_id f = F).
  { unfold get_forum in Hf. apply (find_key f_id) in Hf. tauto. }
  pose proof (Forum_update_trackers_Ok _ _ _ _ Hu) as (T & P & _).
  assert (Hfresh : fresh_forum f (db w1)) by (apply (load_fresh F); exact Hf).
  pose proof (Forum_cascade (S (length (forums (db w1)))) f w1 Hfresh) as C.
  cbv zeta in C. unfold Forum.update_trackers in Hu. rewrite Hu in C.
  simpl in C. destruct C as (ST & _ & R & _).
  specialize (R u w' eq_refl). rewrite Hid in R.
  split; [exact Hg|]. split; [exact Hp|].
  split; [rewrite P, P1; reflexivity|].
  split.
  { destruct (Forum_update_trackers_log f w1 u w' Hu) as (evs & L & Hev).
    exists evs. split; [|exact Hev].
    rewrite L, L1, Hid, <- app_assoc. reflexivity. }
  split; [exact R|].
  intros ND (tr & Htr & HtrF) (r0 & Hr0 & Hc0 & _).
  destruct R as (r' & Hr' & Hc' & _).
  exists r0, r'. split; [exact Hr0|]. split; [exact Hr'|].
  rewrite Hc0, Hc'.
  assert (ST1 : same_tree (db w) (db w1)) by (apply same_tree_forums; exact F1).
  assert (ST2 : same_tree (db w) (db w'))
    by (exact (same_tree_trans _ _ _ ST1 ST)).
  unfold Forum.topics_under. rewrite T, T1.
  unfold get_topic in Htr. pose proof (find_some _ _ Htr) as [Hin Hidk].
  apply Z.eqb_eq in Hidk.
  rewrite (count_filter_remove tr_id
             (fun t => Forum.under (db w) F (tr_forum t)) _ tr ND Hin)
    by (rewrite HtrF; apply under_self).
  rewrite Hidk. f_equal. f_equal. apply filter_ext.
  intros t. symmetry. apply under_same_tree. exact ST2.
Qed.

Lemma last_post_value_memo_first topic d d' :
  last_post_value (memo_first topic d) d' = last_post_value topic d'.
Proof.
  unfold last_post_value.
  destruct (memo_first_data topic d) as (-> & _ & _ & _ & ->). reflexivity.
Qed.

Lemma same_id_true x self :
  AbstractPost.same_id x self = true -> AbstractPost.pk self = Some (pr_id x).
Proof.
  unfold AbstractPost.same_id. destruct (AbstractPost.pk self); [|discriminate].
  intros E. apply Z.eqb_eq in E. congruence.
Qed.

Lemma tracked_post_deleted self w w1 t topic' w' :
  AbstractPost.Model_delete self w = Ok tt w1 ->
  tracked t w1 topic' w' ->
  exists k pid,
    AbstractTopic.pk t = Some k /\ AbstractPost.pk self = Some pid /\
    post_deleted k pid w w'.
Proof.
  intros Hd T.
  destruct (Post_Model_delete_inv _ _ _ _ Hd) as (pid & Hpid & _ & _ & P1 & _ & L1).
  pose proof T as (k & lp & Hk & _ & _ & Hp & Hg & Hc & _ & _ & _ & _ & _ & _
                   & _ & evs & Hlog & Hev).
  exists k, pid. split; [exact Hk|]. split; [exact Hpid|].
  split; [rewrite Hp, P1; reflexivity|]. split.
  - exists (AbstractTopic.to_row k topic'). split; [exact Hg|].
    simpl. rewrite (posts_of_ext k _ _ Hp). exact Hc.
  - exists (ForumUpdateTrackers (AbstractTopic.forum t) :: evs).
    split; [|exact Hev]. rewrite Hlog, L1, <- app_assoc. reflexivity.
Qed.

Lemma Post_delete_routing now self topic w topic' w' :
  AbstractPost.delete now self topic w = Ok topic' w' ->
  exists k pid,
    AbstractTopic.pk topic = Some k /\ AbstractPost.pk self = Some pid /\
    if head_and_tail self topic (db w)
    then topic_deleted k (AbstractTopic.forum topic) w w'
    else post_deleted k pid w w'.
Proof.
  intros H. unfold head_and_tail.
  destruct (Post_delete_inv _ _ _ _ _ _ H) as (x & Hx & [C|[C|C]]); rewrite Hx.
  - destruct C as (Hsx & (y & Hy & Hsy) & Ht & Hd).
    rewrite last_post_value_memo_first in Hy. rewrite Hy, Hsx, Hsy. simpl.
    destruct (Topic_delete_inv _ _ _ _ Hd) as (k & _ & _ & Hk & _).
    exists k, (pr_id x).
    assert (Hpk : AbstractTopic.pk topic' = AbstractTopic.pk topic).
    { rewrite Ht, (proj1 (memo_last_data _ _)), (proj1 (memo_first_data _ _)).
      reflexivity. }
    assert (Hfo : AbstractTopic.forum topic' = AbstractTopic.forum topic).
    { rewrite Ht.
      destruct (memo_last_data (memo_first topic (db w)) (db w)) as (_ & -> & _).
      destruct (memo_first_data topic (db w)) as (_ & -> & _). reflexivity. }
    split; [congruence|]. split; [apply same_id_true; exact Hsx|].
    rewrite <- Hfo. apply (Topic_delete_spec _ _ tt); assumption.
  - destruct C as (Hsx & w1 & Hd & T). rewrite Hsx.
    destruct (tracked_post_deleted _ _ _ _ _ _ Hd T) as (k & pid & Hk & Hp & D).
    rewrite (proj1 (memo_first_data _ _)) in Hk.
    exists k, pid. split; [exact Hk|]. split; [exact Hp|].
    destruct (last_post_value topic (db w)); exact D.
  - destruct C as (Hsx & y & w1 & Hy & Hsy & Hd & T).
    rewrite last_post_value_memo_first in Hy. rewrite Hy, Hsx, Hsy. simpl.
    destruct (tracked_post_deleted _ _ _ _ _ _ Hd T) as (k & pid & Hk & Hp & D).
    rewrite (proj1 (memo_last_data _ _)), (proj1 (memo_first_data _ _)) in Hk.
    exists k, pid. auto.
Qed.

Lemma Topic_delete_succeeds self w k :
  AbstractTopic.pk self = Some k ->
  well_rooted (db w) (AbstractTopic.forum self) ->
  exists w', AbstractTopic.delete self w = Ok tt w'.
Proof.
  intros Hk Hr. unfold AbstractTopic.delete, bind at 1.
  unfold AbstractTopic.Model_delete. rewrite Hk.
  set (w1 := mkWorld _ _ _).
  assert (Hr1 : well_rooted (db w1) (AbstractTopic.forum self))
    by (apply (well_rooted_forums (db w)); [reflexivity | exact Hr]).
  destruct (well_rooted_exists _ _ Hr1) as (f & Hf).
  unfold bind, load_forum. rewrite Hf.
  rewrite (Forum_update_trackers_succeeds f _ w1 Hf Hr1). eauto.
Qed.

(** The only post of a topic is head and tail, and deleting it through
    a topic instance without memoised posts completes. *)
Lemma sole_post_delete now self topic w k r :
  AbstractTopic.pk topic = Some k ->
  AbstractTopic._first_post topic = None ->
  AbstractTopic._last_post topic = None ->
  posts_of k (db w) = [r] ->
  AbstractPost.pk self = Some (pr_id r) ->
  head_and_tail self topic (db w) = true /\
  (well_rooted (db w) (AbstractTopic.forum topic) ->
   exists topic' w', AbstractPost.delete now self topic w = Ok topic' w').
Proof.
  intros Hk Hf Hl Hp Hs.
  assert (Hfv : first_post_value topic (db w) = Some r)
    by (unfold first_post_value; rewrite Hf, Hk; simpl; rewrite Hp; reflexivity).
  assert (Hlv : last_post_value topic (db w) = Some r)
    by (unfold last_post_value; rewrite Hl, Hk; simpl; rewrite Hp; reflexivity).
  assert (Hid : AbstractPost.same_id r self = true)
    by (unfold AbstractPost.same_id; rewrite Hs; apply Z.eqb_refl).
  split; [unfold head_and_tail; rewrite Hfv, Hlv, Hid; reflexivity|].
  intros Hr. unfold AbstractPost.delete, AbstractPost.is_topic_head,
               AbstractPost.is_topic_tail, bind.
  rewrite first_post_eq. simpl. rewrite Hfv. unfold ret at 1. simpl.
  rewrite Hid. rewrite last_post_eq. simpl.
  rewrite last_post_value_memo_first, Hlv. unfold ret at 1. simpl.
  rewrite Hid. simpl.
  set (t2 := memo_last _ _).
  destruct (Topic_delete_succeeds t2 w k) as (w' & E).
  - subst t2.
    rewrite (proj1 (memo_last_data _ _)), (proj1 (memo_first_data _ _)).
    exact Hk.
  - subst t2.
    destruct (memo_last_data (memo_first topic (db w)) (db w)) as (_ & -> & _).
    destruct (memo_first_data topic (db w)) as (_ & -> & _). exact Hr.
  - rewrite E. unfold ret. eauto.
Qed.

(** With creation times that tell the posts of the topic apart, only the
    only post of a topic is both head and tail. *)
Lemma head_and_tail_sole self topic d k :
  AbstractTopic.pk topic = Some k ->
  AbstractTopic._first_post topic = None ->
  AbstractTopic._last_post topic = None ->
  NoDup (map pr_id (posts d)) ->
  (forall p q, In p (posts_of k d) -> In q (posts_of k d) ->
               pr_created p = pr_created q -> p = q) ->
  head_and_tail self topic d = true ->
  exists r, posts_of k d = [r] /\ AbstractPost.pk self = Some (pr_id r).
Proof.
  intros Hk Hf Hl ND Hdist H. unfold head_and_tail in H.
  unfold first_post_value, last_post_value in H. rewrite Hf, Hl, Hk in H.
  simpl in H.
  destruct (earliest (posts_of k d)) as [x|] eqn:Ex; [|discriminate].
  destruct (latest (posts_of k d)) as [y|] eqn:Ey; [|discriminate].
  apply andb_prop in H. destruct H as [Hx Hy].
  apply same_id_true in Hx. apply same_id_true in Hy.
  destruct (earliest_spec _ _ Ex) as [Hinx Hmin].
  destruct (latest_spec _ _ Ey) as [Hiny Hmax].
  assert (ND' : NoDup (map pr_id (posts_of k d)))
    by (apply NoDup_map_filter; exact ND).
  assert (x = y).
  { apply (NoDup_key_inj pr_id _ x y ND' Hinx Hiny). congruence. }
  subst y.
  assert (Hall : forall q, In q (posts_of k d) -> q = x).
  { intros q Hq. apply Hdist; auto.
    specialize (Hmin q Hq). specialize (Hmax q Hq). lia. }
  exists x. split; [|exact Hx].
  destruct (posts_of k d) as [|a [|b l]] eqn:E.
  - contradiction.
  - rewrite (Hall a (or_introl eq_refl)). reflexivity.
  - exfalso. simpl in ND'. inversion ND' as [|? ? Hnot _]; subst.
    apply Hnot. left.
    rewrite (Hall a (or_introl eq_refl)),
      (Hall b (or_intror (or_introl eq_refl))). reflexivity.
Qed.

(** A post delete that completes went one of two ways.  When the
    post is head and tail of its topic, the topic was deleted (and the
    post with it), not the post on its own, and the forum-level tracker
    update ran from the topic's forum, whose topic counter went down by
    one.  Otherwise the post alone was deleted and the tracker update of
    the topic ran.  The only post of a topic is head and tail, and its
    delete completes when the forum hierarchy is a finite chain; when
    creation times tell the posts of a topic apart, no other post is
    head and tail. *)
Theorem completed_delete_routing now self topic w k :
  AbstractTopic.pk topic = Some k ->
  (forall topic' w',
     AbstractPost.delete now self topic w = Ok topic' w' ->
     exists pid,
       AbstractPost.pk self = Some pid /\
       if head_and_tail self topic (db w)
       then topic_deleted k (AbstractTopic.forum topic) w w'
       else post_deleted k pid w w')
  /\
  (AbstractTopic._first_post topic = None ->
   AbstractTopic._last_post topic = None ->
   (forall r, posts_of k (db w) = [r] ->
              AbstractPost.pk self = Some (pr_id r) ->
              head_and_tail self topic (db w) = true /\
              (well_rooted (db w) (AbstractTopic.forum topic) ->
               exists topic' w',
                 AbstractPost.delete now self topic w = Ok topic' w'))
   /\
   (NoDup (map pr_id (posts (db w))) ->
    (forall p q, In p (posts_of k (db w)) -> In q (posts_of k (db w)) ->
                 pr_created p = pr_created q -> p = q) ->
    head_and_tail self topic (db w) = true ->
    exists r, posts_of k (db w) = [r] /\
              AbstractPost.pk self = Some (pr_id r))).
Proof.
  intros Hk. split.
  - intros topic' w' H.
    destruct (Post_delete_routing _ _ _ _ _ _ H) as (k0 & pid & Hk0 & Hp & R).
    assert (k0 = k) by congruence. subst k0. eauto.
  - intros Hf Hl. split.
    + intros r Hp Hs. eapply sole_post_delete; eauto.
    + intros ND Hd H. eapply head_and_tail_sole; eauto.
Qed.

Lemma completed_delete_routing_example :
  AbstractTopic.pk (Scenario.load 1 Sample.w_one) = Some 1 /\
  exists topic' w',
    AbstractPost.delete 103 Sample.post1 (Scenario.load 1 Sample.w_one)
                        Sample.w_one = Ok topic' w' /\
    head_and_tail Sample.post1 (Scenario.load 1 Sample.w_one)
                  (db Sample.w_one) = true /\
    option_map f_topics_count (get_forum 1 (db Sample.w_one)) = Some 1%nat /\
    option_map f_topics_count (get_forum 1 (db w')) = Some 0%nat /\
    exists pid,
      AbstractPost.pk Sample.post1 = Some pid /\
      if head_and_tail Sample.post1 (Scenario.load 1 Sample.w_one)
                       (db Sample.w_one)
      then topic_deleted 1 (AbstractTopic.forum (Scenario.load 1 Sample.w_one))
                         Sample.w_one w'
      else post_deleted 1 pid Sample.w_one w'.
Proof.
  assert (H1 : AbstractTopic.pk (Scenario.load 1 Sample.w_one) = Some 1)
    by reflexivity.
  split; [exact H1|].
  do 2 eexists. split; [cbv; reflexivity|]. split; [reflexivity|].
  split; [reflexivity|]. split; [reflexivity|].
  eapply (proj1 (completed_delete_routing 103 Sample.post1
                   (Scenario.load 1 Sample.w_one) Sample.w_one 1 H1)).
  cbv; reflexivity.
Defined.

(** C4, at two deletes that take the other branch.  The last post left
    in a topic is deleted through the topic instance that its former
    sibling was deleted through: the memo of the first post is stale,
    the post is deleted on its own, the tracker update raises and the
    topic stays, without a post.  And of two posts created within the
    same clock tick the first is head and tail: deleting it deletes the
    topic and the other post with it. *)
Theorem C4_post_delete_misroutes :
  (posts_of 1 (db Scenario.w_last_post)
     = [AbstractPost.to_row 2 1 Sample.post2] /\
   exists w',
     AbstractPost.delete 104 Sample.post2 Scenario.shared_topic
                         Scenario.w_last_post = Raise AttributeError w' /\
     option_map tr_id (get_topic 1 (db w')) = Some 1 /\
     posts_of 1 (db w') = [] /\
     log w' = log Scenario.w_last_post
              ++ [PostModelDelete 2; TopicUpdateTrackers (Some 1)]) /\
  (length (posts_of 1 (db Scenario.w_tie)) = 2%nat /\
   exists topic' w',
     AbstractPost.delete 103 Sample.post1 (Scenario.load 1 Scenario.w_tie)
                         Scenario.w_tie = Ok topic' w' /\
     get_topic 1 (db w') = None /\
     posts (db w') = [] /\
     log w' = log Scenario.w_tie
              ++ [TopicModelDelete 1; ForumUpdateTrackers 1]).
Proof.
  split.
  - split; [reflexivity|].
    eexists. split; [cbv; reflexivity|]. repeat split; reflexivity.
  - split; [reflexivity|].
    do 2 eexists. split; [cbv; reflexivity|]. repeat split; reflexivity.
Qed.

(** ** Saving a topic *)

Lemma update_trackers_no_posts now topic w :
  related_posts (AbstractTopic.pk topic) (db w) = [] ->
  AbstractTopic.update_trackers now topic w
  = Raise AttributeError
          (mkWorld (db w) (auto_now w)
                   (log w ++ [TopicUpdateTrackers (AbstractTopic.pk topic)])).
Proof.
  intros H. unfold AbstractTopic.update_trackers, bind, emit, get_db. simpl.
  rewrite H. reflexivity.
Qed.

Lemma truthy_Some pk k : AbstractTopic.truthy pk = Some k -> pk = Some k.
Proof.
  unfold AbstractTopic.truthy. destruct pk as [j|]; [|discriminate].
  destruct (j =? 0); intros H; inversion H; reflexivity.
Qed.

(** A completed save of an already-persisted topic.  With the stored
    forum unchanged nothing but the read of the old instance and the
    row save happens.  With another forum, the topic-level tracker
    update follows (it starts the cascade at the new forum), then the
    old forum is reloaded and its cascade runs. *)
Lemma Topic_save_routes slugify now self w self' w' k old :
  AbstractTopic.save slugify now self w = Ok self' w' ->
  AbstractTopic.truthy (AbstractTopic.pk self) = Some k ->
  get_topic k (db w) = Some old ->
  if tr_forum old =? AbstractTopic.forum self
  then log w' = log w ++ [TopicGet k; TopicModelSave k]
  else exists evs1 evs2,
      log w' = log w ++ [TopicGet k; TopicModelSave k;
                         TopicUpdateTrackers (Some k); TopicModelSave k]
                     ++ ForumUpdateTrackers (AbstractTopic.forum self) :: evs1
                     ++ ForumRefresh (tr_forum old)
                     :: ForumUpdateTrackers (tr_forum old) :: evs2 /\
      forallb forum_event evs1 = true /\ forallb forum_event evs2 = true.
Proof.
  intros H Ht Hold. unfold AbstractTopic.save in H. rewrite Ht in H.
  apply truthy_Some in Ht.
  apply bind_Ok in H. destruct H as (oi & wa & Hget & H).
  apply bind_Ok in Hget. destruct Hget as (o & wa' & Hget & Hret).
  inversion Hret; subst oi wa'; clear Hret.
  unfold AbstractTopic.get, bind, emit in Hget. simpl in Hget.
  rewrite Hold in Hget. inversion Hget; subst o wa; clear Hget.
  apply bind_Ok in H. destruct H as (self2 & wb & Hsave & H).
  match type of Hsave with AbstractTopic.Model_save _ ?s ?w0 = _ =>
    destruct (Topic_Model_save_spec now s w0 k Ht)
      as (s2 & E & Hpk & Hd & _ & _) end.
  rewrite E in Hsave. injection Hsave as Es Ew. subst s2.
  assert (Lb : log wb = log w ++ [TopicGet k; TopicModelSave k]).
  { rewrite <- Ew. simpl. rewrite <- app_assoc. reflexivity. }
  clear Ew E.
  assert (Hforum : AbstractTopic.forum self2 = AbstractTopic.forum self)
    by (destruct Hd as (-> & _); reflexivity).
  apply bind_Ok in H. destruct H as (old_f & wc & Hload & H).
  apply load_forum_inv in Hload. destruct Hload as [-> Hof].
  assert (Hid : f_id old_f = tr_forum old).
  { unfold get_forum in Hof. apply (find_key f_id) in Hof. simpl in Hof. tauto. }
  rewrite Hid, Hforum in H.
  destruct (tr_forum old =? AbstractTopic.forum self); simpl in H.
  - inversion H; subst. exact Lb.
  - apply bind_Ok in H. destruct H as (self3 & wd & Hut & H).
    apply update_trackers_Ok in Hut.
    destruct Hut as (k0 & lp & Hk0 & _ & _ & _ & _ & _ & _ & _ & _ & _ & _ & _
                     & _ & evs1 & L1 & Hev1).
    assert (k0 = k) by congruence. subst k0.
    apply bind_Ok in H. destruct H as (old_forum & we & Href & H).
    unfold Forum.refresh, bind, emit in Href.
    apply load_forum_inv in Href. destruct Href as [-> Hof'].
    assert (Hid' : f_id old_forum = tr_forum old).
    { unfold get_forum in Hof'. apply (find_key f_id) in Hof'.
      rewrite <- Hid. tauto. }
    apply bind_Ok in H. destruct H as (u & wf & Hfu & H).
    inversion H; subst; clear H.
    destruct (Forum_update_trackers_log _ _ _ _ Hfu) as (evs2 & L2 & Hev2).
    exists evs1, evs2. split; [|auto].
    rewrite L2. simpl. rewrite L1, Lb, Hforum, Hid', Hid.
    repeat rewrite <- app_assoc. simpl. repeat rewrite <- app_assoc.
    reflexivity.
Qed.

(** C5, at a topic without posts.  The topic of forum 1 is saved with
    forum 2.  The row is stored with the new forum, the topic-level
    tracker update raises [AttributeError], and no forum-level tracker
    update has run, neither for the new forum nor for the old one. *)
Theorem C5_reparent_postless_topic :
  exists w',
    AbstractTopic.save Sample.slugify 105 Scenario.moved_topic Sample.w_topic
      = Raise AttributeError w' /\
    option_map tr_forum (get_topic 1 (db Sample.w_topic)) = Some 1 /\
    option_map tr_forum (get_topic 1 (db w')) = Some 2 /\
    log w' = log Sample.w_topic ++
             [TopicGet 1; TopicModelSave 1; TopicUpdateTrackers (Some 1)] /\
    existsb forum_event (log w') = false.
Proof.
  eexists. split; [cbv; reflexivity|]. repeat split; reflexivity.
Qed.

(** C10, at two flows that reach the tracker update of a topic without
    posts.  Saving a post-less topic with another forum, and deleting
    the posts of a topic one after the other through the topic instance
    they share: each ends in the [AttributeError] of
    [self._last_post.created], the second with the topic row left
    behind, its [posts_count] still 1, and no post. *)
Theorem C10_tracker_update_reached_without_posts :
  (exists w',
     AbstractTopic.save Sample.slugify 105 Scenario.moved_topic Sample.w_topic
       = Raise AttributeError w' /\
     posts_of 1 (db w') = []) /\
  (exists w',
     Scenario.delete_all_posts Sample.w_two = Raise AttributeError w' /\
     posts_of 1 (db w') = [] /\
     option_map tr_posts_count (get_topic 1 (db w')) = Some 1%nat /\
     log w' = log Sample.w_two ++
              [PostModelDelete 1; TopicUpdateTrackers (Some 1);
               TopicModelSave 1; ForumUpdateTrackers 1;
               PostModelDelete 2; TopicUpdateTrackers (Some 1)]).
Proof.
  split.
  - eexists. split; [cbv; reflexivity|]. reflexivity.
  - eexists. split; [cbv; reflexivity|]. repeat split; reflexivity.
Qed.

(** ** Which exceptions a save can end in *)

Lemma bind_Raise {A B} (m : M A) (k : A -> M B) w e w' :
  bind m k w = Raise e w' ->
  m w = Raise e w' \/ exists a w1, m w = Ok a w1 /\ k a w1 = Raise e w'.
Proof.
  unfold bind. destruct (m w) as [a w1|e1 w1]; intros H.
  - right. exists a, w1. split; [reflexivity | exact H].
  - left. inversion H. reflexivity.
Qed.

Lemma load_forum_Raise k w e w' :
  load_forum k w = Raise e w' -> e = DoesNotExist.
Proof.
  unfold load_forum. destruct (get_forum k (db w)); intros H; inversion H; auto.
Qed.

Lemma Forum_update_trackers_from_Raise fuel :
  forall self w e w',
    Forum.update_trackers_from fuel self w = Raise e w' -> lookup_or_depth e.
Proof.
  induction fuel as [|n IH]; intros self w e w'.
  - simpl. unfold raise. intros H; inversion H. right; reflexivity.
  - rewrite update_trackers_from_S. cbv zeta.
    destruct (f_parent self) as [p|]; [|discriminate].
    destruct (get_forum p _) as [parent|].
    + apply IH.
    + intros H; inversion H. left; reflexivity.
Qed.

Lemma Topic_Model_save_total now self w :
  exists self' w', AbstractTopic.Model_save now self w = Ok self' w'.
Proof.
  unfold AbstractTopic.Model_save.
  destruct (AbstractTopic.pk self); [destruct (existsb _ _)|]; eauto.
Qed.

Lemma simple_save_total now self w :
  exists self' w', AbstractTopic._simple_save now self w = Ok self' w'.
Proof.
  unfold AbstractTopic._simple_save, bind, set_auto_now, ret.
  destruct (Topic_Model_save_total now self (mkWorld (db w) false (log w)))
    as (s' & w1 & E).
  rewrite E. eauto.
Qed.

Lemma update_trackers_Raise now self w e w' :
  AbstractTopic.update_trackers now self w = Raise e w' ->
  e = AttributeError \/ lookup_or_depth e.
Proof.
  unfold AbstractTopic.update_trackers, bind at 1, emit, bind at 1, get_db.
  simpl.
  destruct (latest _) as [lp|]; [|intros H; inversion H; auto].
  intros H. apply bind_Raise in H. destruct H as [H|(s' & w1 & _ & H)].
  - match type of H with AbstractTopic._simple_save ?n ?s ?w0 = _ =>
      destruct (simple_save_total n s w0) as (s1 & w2 & E) end.
    congruence.
  - apply bind_Raise in H. destruct H as [H|(f & w2 & _ & H)].
    + apply load_forum_Raise in H. right; left; exact H.
    + apply bind_Raise in H. destruct H as [H|(u & w3 & _ & H)].
      * right. eapply Forum_update_trackers_from_Raise. exact H.
      * discriminate.
Qed.

Lemma Topic_get_Raise k w e w' :
  AbstractTopic.get k w = Raise e w' -> e = DoesNotExist.
Proof.
  unfold AbstractTopic.get, bind, emit.
  destruct (get_topic k _); intros H; inversion H; auto.
Qed.

Lemma Topic_save_Raise slugify now self w e w' :
  AbstractTopic.save slugify now self w = Raise e w' ->
  e = AttributeError \/ lookup_or_depth e.
Proof.
  unfold AbstractTopic.save. intros H.
  apply bind_Raise in H. destruct H as [H|(old & w1 & _ & H)].
  - destruct (AbstractTopic.truthy _) as [k|]; [|discriminate].
    apply bind_Raise in H. destruct H as [H|(o & w1 & _ & H)]; [|discriminate].
    apply Topic_get_Raise in H. right; left; exact H.
  - apply bind_Raise in H. destruct H as [H|(s2 & w2 & _ & H)].
    + match type of H with AbstractTopic.Model_save ?n ?s ?w0 = _ =>
        destruct (Topic_Model_save_total n s w0) as (s1 & w3 & E) end.
      congruence.
    + destruct old as [old|]; [|discriminate].
      apply bind_Raise in H. destruct H as [H|(f & w3 & _ & H)].
      * apply load_forum_Raise in H. right; left; exact H.
      * destruct (negb _); [|discriminate].
        apply bind_Raise in H. destruct H as [H|(s3 & w4 & _ & H)].
        -- eapply update_trackers_Raise; exact H.
        -- apply bind_Raise in H. destruct H as [H|(f' & w5 & _ & H)].
           ++ unfold Forum.refresh, bind, emit in H.
              apply load_forum_Raise in H. right; left; exact H.
           ++ apply bind_Raise in H. destruct H as [H|(u & w6 & _ & H)].
              ** right. eapply Forum_update_trackers_from_Raise. exact H.
              ** discriminate.
Qed.

Lemma preserves_bind {A B} (I : DB -> Prop) (m : M A) (k : A -> M B) :
  preserves I m -> (forall a, preserves I (k a)) -> preserves I (bind m k).
Proof.
  intros Hm Hk w Hw. specialize (Hm w Hw).
  unfold bind. destruct (m w) as [a w1|e w1]; simpl in *.
  - apply Hk. exact Hm.
  - exact Hm.
Qed.

Lemma preserves_same_db {A} (I : DB -> Prop) (m : M A) :
  (forall w, db (world_of (m w)) = db w) -> preserves I m.
Proof. intros H w Hw. rewrite H. exact Hw. Qed.

Lemma bind_step {A B} (m : M A) (k : A -> M B) w a w1 :
  m w = Ok a w1 -> bind m k w = k a w1.
Proof. unfold bind. intros ->. reflexivity. Qed.

Lemma bind_stop {A B} (m : M A) (k : A -> M B) w e w1 :
  m w = Raise e w1 -> bind m k w = Raise e w1.
Proof. unfold bind. intros ->. reflexivity. Qed.

Lemma Topic_get_eq k w :
  AbstractTopic.get k w =
    match get_topic k (db w) with
    | Some r => Ok (AbstractTopic.of_row r)
                   (mkWorld (db w) (auto_now w) (log w ++ [TopicGet k]))
    | None => Raise DoesNotExist
                    (mkWorld (db w) (auto_now w) (log w ++ [TopicGet k]))
    end.
Proof. reflexivity. Qed.

Lemma update_trackers_eq now self w :
  AbstractTopic.update_trackers now self w =
    let w0 := mkWorld (db w) (auto_now w)
                      (log w ++ [TopicUpdateTrackers (AbstractTopic.pk self)]) in
    match latest (related_posts (AbstractTopic.pk self) (db w)) with
    | None => Raise AttributeError w0
    | Some lp =>
        (self3 <- AbstractTopic._simple_save now
                    (AbstractTopic.with_updated (pr_created lp)
                       (AbstractTopic.with_last_post (Some lp)
                          (AbstractTopic.with_posts_count
                             (length (related_posts (AbstractTopic.pk self)
                                                    (db w))) self))) ;;
         f <- load_forum (AbstractTopic.forum self3) ;;
         Forum.update_trackers f ;;;
         ret self3) w0
    end.
Proof.
  unfold AbstractTopic.update_trackers, bind at 1, emit, bind at 1, get_db.
  simpl. destruct (latest _); reflexivity.
Qed.

Lemma Topic_Model_save_new now self w :
  AbstractTopic.pk self = None ->
  let k := next_id (map tr_id (topics (db w))) in
  exists self',
    AbstractTopic.Model_save now self w =
      Ok self' (world_of (AbstractTopic.Model_save now self w)) /\
    AbstractTopic.pk self' = Some k /\
    same_data self self' /\
    AbstractTopic.slug self' = AbstractTopic.slug self /\
    AbstractTopic.created self' = now /\
    AbstractTopic.updated self' =
      (if auto_now w then now else AbstractTopic.updated self) /\
    get_topic k (db w) = None /\
    topics (db (world_of (AbstractTopic.Model_save now self w)))
      = topics (db w) ++ [AbstractTopic.to_row k self'] /\
    forums (db (world_of (AbstractTopic.Model_save now self w)))
      = forums (db w) /\
    posts (db (world_of (AbstractTopic.Model_save now self w)))
      = posts (db w) /\
    log (world_of (AbstractTopic.Model_save now self w))
      = log w ++ [TopicModelSave k].
Proof.
  intros Hk k. unfold AbstractTopic.Model_save. rewrite Hk. simpl.
  eexists. split; [reflexivity|].
  assert (Hnone : get_topic k (db w) = None).
  { unfold get_topic. destruct (find _ _) as [r|] eqn:E; [|reflexivity].
    apply find_some in E. destruct E as [Hin E]. apply Z.eqb_eq in E.
    pose proof (next_id_fresh tr_id _ r Hin). subst k. lia. }
  destruct (auto_now w); simpl; repeat split; auto.
Qed.

Lemma stored_topics_ext k F d d' :
  topics d' = topics d -> stored_in_forum k F d -> stored_in_forum k F d'.
Proof.
  intros T (row & Hg & Hf). exists row. split; [|exact Hf].
  rewrite (get_topic_ext k _ _ T). exact Hg.
Qed.

Lemma Forum_update_trackers_stored k F f :
  preserves (stored_in_forum k F) (Forum.update_trackers f).
Proof.
  intros w H. destruct (Forum_update_trackers_frame f w) as (T & _).
  exact (stored_topics_ext k F _ _ T H).
Qed.

Lemma Forum_refresh_db f w : db (world_of (Forum.refresh f w)) = db w.
Proof.
  unfold Forum.refresh, bind, emit, load_forum. simpl.
  destruct (get_forum (f_id f) (db w)); reflexivity.
Qed.

(** The tracker update of topic [k], run on an instance of forum [F],
    leaves the topic stored in forum [F], whether it returns or
    raises. *)
Lemma update_trackers_stored now s k F :
  AbstractTopic.pk s = Some k -> AbstractTopic.forum s = F ->
  preserves (stored_in_forum k F) (AbstractTopic.update_trackers now s).
Proof.
  intros Hk HF w H. rewrite update_trackers_eq. cbv zeta.
  destruct (latest _) as [lp|]; [|exact H].
  match goal with
  | |- context [bind (AbstractTopic._simple_save _ ?s1) _ ?w1] =>
      destruct (simple_save_spec now s1 w1 k) as
        (s3 & w2 & E & Hpk & Hd & _ & Hg & _); [simpl; exact Hk|]
  end.
  rewrite (bind_step _ _ _ _ _ E).
  assert (H2 : stored_in_forum k F (db w2)).
  { exists (AbstractTopic.to_row k s3). split; [exact Hg|].
    simpl. destruct Hd as (-> & _). simpl. exact HF. }
  refine (preserves_bind (stored_in_forum k F) _ _ _ _ w2 H2).
  - apply preserves_same_db. intros w0. apply f_equal, load_forum_world.
  - intros f0. apply preserves_bind; [apply Forum_update_trackers_stored|].
    intros _. apply preserves_same_db; reflexivity.
Qed.

(** A save stores the row of the topic with the forum the instance
    holds, whenever the instance is new or its row exists; this holds
    for the world the save leaves, whether it returns or raises in a
    tracker update. *)
Lemma Topic_save_persists slugify now self w :
  AbstractTopic.truthy (AbstractTopic.pk self) = None \/
  (exists k old, AbstractTopic.truthy (AbstractTopic.pk self) = Some k /\
                 get_topic k (db w) = Some old) ->
  exists k,
    stored_in_forum k (AbstractTopic.forum self)
      (db (world_of (AbstractTopic.save slugify now self w))) /\
    (forall j, AbstractTopic.pk self = Some j -> k = j).
Proof.
  intros [Ht|(k & old & Ht & Hold)]; unfold AbstractTopic.save; rewrite Ht.
  - unfold bind at 1. unfold ret at 1. unfold bind.
    set (self1 := AbstractTopic.with_slug _ self).
    destruct (AbstractTopic.pk self) as [k|] eqn:Hk.
    + destruct (Topic_Model_save_spec now self1 w k Hk)
        as (s' & E & _ & Hd & _ & Hg).
      rewrite E in Hg |- *. simpl in Hg. exists k. split.
      * exists (AbstractTopic.to_row k s'). split; [exact Hg|].
        simpl. destruct Hd as (-> & _). reflexivity.
      * intros j Hj. congruence.
    + destruct (Topic_Model_save_new now self1 w Hk)
        as (s' & E & _ & Hd & _ & _ & _ & _ & Htop & _).
      rewrite E. simpl.
      exists (next_id (map tr_id (topics (db w)))). split; [|discriminate].
      exists (AbstractTopic.to_row (next_id (map tr_id (topics (db w)))) s').
      split.
      * unfold get_topic. rewrite Htop.
        apply (find_append tr_id); [reflexivity | apply next_id_absent].
      * simpl. destruct Hd as (-> & _). reflexivity.
  - pose proof Ht as Hpk. apply truthy_Some in Hpk.
    set (wa := mkWorld (db w) (auto_now w) (log w ++ [TopicGet k])).
    assert (G : (o <- AbstractTopic.get k ;; ret (Some o)) w
                = Ok (Some (AbstractTopic.of_row old)) wa).
    { erewrite bind_step; [reflexivity|]. rewrite Topic_get_eq, Hold.
      reflexivity. }
    rewrite (bind_step _ _ _ _ _ G).
    set (self1 := AbstractTopic.with_slug _ self).
    destruct (Topic_Model_save_spec now self1 wa k Hpk)
      as (s2 & E & Hpk2 & Hd & _ & Hg).
    rewrite E in Hg. simpl in Hg.
    rewrite (bind_step _ _ _ _ _ E).
    match goal with |- context [bind (load_forum _) _ ?W] =>
      set (wb := W) in * end.
    assert (HF : AbstractTopic.forum s2 = AbstractTopic.forum self)
      by (destruct Hd as (-> & _); reflexivity).
    assert (Hb : stored_in_forum k (AbstractTopic.forum self) (db wb)).
    { exists (AbstractTopic.to_row k s2). split; [exact Hg | exact HF]. }
    exists k. split; [|intros j Hj; congruence].
    refine (preserves_bind (stored_in_forum k (AbstractTopic.forum self))
              _ _ _ _ wb Hb).
    + apply preserves_same_db. intros w0. apply f_equal, load_forum_world.
    + intros old_f. destruct (negb _);
        [|apply preserves_same_db; reflexivity].
      apply preserves_bind; [apply update_trackers_stored; assumption|].
      intros s3. apply preserves_bind.
      * apply preserves_same_db. apply Forum_refresh_db.
      * intros old_forum. apply preserves_bind;
          [apply Forum_update_trackers_stored|].
        intros _. apply preserves_same_db; reflexivity.
Qed.

Lemma Topic_save_new_returns slugify now self w :
  AbstractTopic.truthy (AbstractTopic.pk self) = None ->
  exists self' w', AbstractTopic.save slugify now self w = Ok self' w'.
Proof.
  intros Ht. unfold AbstractTopic.save. rewrite Ht.
  unfold bind at 1. unfold ret at 1. unfold bind.
  destruct (Topic_Model_save_total now
              (AbstractTopic.with_slug (slugify (AbstractTopic.subject self))
                                       self) w) as (s' & w' & E).
  rewrite E. unfold ret. eauto.
Qed.

(** ** Validation *)

(** C7, as the code has it.  For a topic whose forum is a category or a
    link, [clean] raises [ValidationError] and the world is as before;
    for a forum of type forum it returns.  [save] does not validate: it
    never ends in [ValidationError], whatever the topic, and it stores
    the row with the forum the instance holds whenever the instance is
    new or its row exists (for a new instance it returns; for a stored
    one the row is there also when a tracker update raises
    afterwards). *)
Theorem C7_validation_is_in_clean self w f :
  get_forum (AbstractTopic.forum self) (db w) = Some f ->
  (f_type f <> forum_post ->
   AbstractTopic.clean self w = Raise ValidationError w) /\
  (f_type f = forum_post -> AbstractTopic.clean self w = Ok tt w) /\
  (forall slugify now e w',
     AbstractTopic.save slugify now self w = Raise e w' ->
     e <> ValidationError) /\
  (forall slugify now,
     AbstractTopic.truthy (AbstractTopic.pk self) = None \/
     (exists k old, AbstractTopic.truthy (AbstractTopic.pk self) = Some k /\
                    get_topic k (db w) = Some old) ->
     exists k,
       stored_in_forum k (AbstractTopic.forum self)
         (db (world_of (AbstractTopic.save slugify now self w))) /\
       (forall j, AbstractTopic.pk self = Some j -> k = j)) /\
  (forall slugify now,
     AbstractTopic.truthy (AbstractTopic.pk self) = None ->
     exists self' w', AbstractTopic.save slugify now self w = Ok self' w').
Proof.
  intros Hf.
  split; [|split; [|split; [|split]]].
  - intros Ht. unfold AbstractTopic.clean, bind, load_forum. rewrite Hf.
    unfold Forum.is_category, Forum.is_link.
    destruct (f_type f); [contradiction | |]; reflexivity.
  - intros Ht. unfold AbstractTopic.clean, bind, load_forum. rewrite Hf.
    unfold Forum.is_category, Forum.is_link. rewrite Ht. reflexivity.
  - intros slugify now e w' H. apply Topic_save_Raise in H.
    unfold lookup_or_depth in H. intuition congruence.
  - intros slugify now H. apply Topic_save_persists. exact H.
  - intros slugify now H. apply Topic_save_new_returns. exact H.
Qed.

Lemma C7_witness :
  get_forum (AbstractTopic.forum (Sample.new_topic 3 "Hello")) (db Sample.w0)
    = Some (mkForum 3 None forum_cat 0 0) /\
  AbstractTopic.clean (Sample.new_topic 3 "Hello") Sample.w0
    = Raise ValidationError Sample.w0 /\
  exists k,
    stored_in_forum k 3
      (db (world_of (AbstractTopic.save Sample.slugify 100
                       (Sample.new_topic 3 "Hello") Sample.w0))) /\
    (forall j, AbstractTopic.pk (Sample.new_topic 3 "Hello") = Some j ->
               k = j).
Proof.
  assert (H : get_forum (AbstractTopic.forum (Sample.new_topic 3 "Hello"))
                        (db Sample.w0) = Some (mkForum 3 None forum_cat 0 0))
    by reflexivity.
  split; [exact H|]. split.
  - apply (proj1 (C7_validation_is_in_clean _ _ _ H)). discriminate.
  - apply (proj1 (proj2 (proj2 (proj2
             (C7_validation_is_in_clean _ _ _ H)))) Sample.slugify 100).
    left; reflexivity.
Defined.

(** C7 as stated fails: a topic assigned to the category forum 3 is
    saved; the save returns and the topic row is stored. *)
Lemma C7_counterexample :
  option_map f_type (get_forum 3 (db Sample.w0)) = Some forum_cat /\
  get_topic 1 (db Sample.w0) = None /\
  exists t' w',
    AbstractTopic.save Sample.slugify 100 (Sample.new_topic 3 "Hello")
                       Sample.w0 = Ok t' w' /\
    AbstractTopic.pk t' = Some 1 /\
    option_map tr_forum (get_topic 1 (db w')) = Some 3.
Proof.
  split; [reflexivity|]. split; [reflexivity|].
  do 2 eexists. split; [cbv; reflexivity|]. split; reflexivity.
Qed.

(** ** Searching *)

Lemma mem_In k l : SearchForm.mem k l = true <-> In k l.
Proof.
  unfold SearchForm.mem. rewrite existsb_exists. split.
  - intros (x & Hx & E). apply Z.eqb_eq in E. subst. exact Hx.
  - intros H. exists k. split; [exact H | apply Z.eqb_refl].
Qed.

Lemma not_permitted_invalid can_read d f k :
  In k (SearchForm.search_forums f) ->
  can_read k = false \/ ~ In k (map f_id (forums d)) ->
  SearchForm.is_valid can_read d f = false.
Proof.
  intros Hin Hk. unfold SearchForm.is_valid.
  destruct (forallb _ _) eqn:E; [|reflexivity].
  rewrite forallb_forall in E. specialize (E k Hin).
  apply mem_In in E. unfold SearchForm.permitted in E.
  apply filter_In in E. destruct E as [E1 E2].
  destruct Hk as [Hk|Hk]; [congruence | contradiction].
Qed.

(** C9.  When the form is not valid, or the forums left to search
    after the restriction is intersected with the requester's
    permission scope are none, in particular when the restriction names
    a forum the requester cannot read or a forum that does not exist,
    [search] returns the empty result and raises nothing; the world is
    as before. *)
Theorem C9_search_without_scope_is_empty
        can_read text_match index f w :
  SearchForm.is_valid can_read (db w) f = false \/
  SearchForm.scope can_read (db w) f = [] \/
  (exists k, In k (SearchForm.search_forums f) /\
             (can_read k = false \/ ~ In k (map f_id (forums (db w))))) ->
  SearchForm.search can_read text_match index f w = Ok [] w.
Proof.
  intros H. unfold SearchForm.search, bind, get_db, ret.
  assert (C : SearchForm.is_valid can_read (db w) f = false \/
              SearchForm.scope can_read (db w) f = []).
  { destruct H as [H|[H|(k & Hin & Hk)]]; auto.
    left. eapply not_permitted_invalid; eauto. }
  destruct C as [C|C].
  - rewrite C. reflexivity.
  - rewrite C. destruct (negb _); reflexivity.
Qed.

Lemma C9_witness :
  (exists k, In k [1000] /\
             ((k <=? 2) = false \/
              ~ In k (map f_id (forums (db Sample.w_two))))) /\
  SearchForm.search (fun k => k <=? 2) (fun _ _ => true)
    [SearchForm.mkDoc 1 1 "Hello" "user" "body"]
    (SearchForm.mkForm "body" false None [1000]) Sample.w_two
  = Ok [] Sample.w_two.
Proof.
  assert (H : exists k, In k [1000] /\
                ((k <=? 2) = false \/
                 ~ In k (map f_id (forums (db Sample.w_two))))).
  { exists 1000. split; [left; reflexivity | left; reflexivity]. }
  split; [exact H|].
  apply (C9_search_without_scope_is_empty (fun k => k <=? 2) (fun _ _ => true)
           _ (SearchForm.mkForm "body" false None [1000])).
  right; right. exact H.
Defined.

(** * Further properties of the module *)

(** ** The type predicates *)

(** X1.  [is_topic], [is_sticky] and [is_announce] exclude one another,
    and one of them holds exactly when the type is one of the three of
    [TOPIC_TYPES]. *)
Theorem X1_topic_type_predicates self :
  AbstractTopic.is_topic self && AbstractTopic.is_sticky self = false /\
  AbstractTopic.is_topic self && AbstractTopic.is_announce self = false /\
  AbstractTopic.is_sticky self && AbstractTopic.is_announce self = false /\
  (AbstractTopic.is_topic self || AbstractTopic.is_sticky self
   || AbstractTopic.is_announce self = true
   <-> 0 <= AbstractTopic.type self <= 2).
Proof.
  unfold AbstractTopic.is_topic, AbstractTopic.is_sticky,
    AbstractTopic.is_announce, TOPIC_TYPES.topic_post,
    TOPIC_TYPES.topic_sticky, TOPIC_TYPES.topic_announce.
  destruct (Z.eqb_spec (AbstractTopic.type self) 0),
           (Z.eqb_spec (AbstractTopic.type self) 1),
           (Z.eqb_spec (AbstractTopic.type self) 2);
    simpl; repeat split; try reflexivity; try lia; try discriminate.
Qed.

(** ** The memo of the first and the last post *)

(** X2.  Reading [first_post] or [last_post] changes nothing in the
    world, and once read the property keeps its value: on the instance
    handed back it yields the same post in every later world, whatever
    has been saved or deleted in between. *)
Theorem X2_first_last_post_memoised topic w :
  AbstractTopic.first_post topic w
    = Ok (first_post_value topic (db w), memo_first topic (db w)) w /\
  AbstractTopic.last_post topic w
    = Ok (last_post_value topic (db w), memo_last topic (db w)) w /\
  (AbstractTopic._first_post topic = None ->
   first_post_value topic (db w)
     = earliest (related_posts (AbstractTopic.pk topic) (db w))) /\
  (AbstractTopic._last_post topic = None ->
   last_post_value topic (db w)
     = latest (related_posts (AbstractTopic.pk topic) (db w))) /\
  forall w2,
    AbstractTopic.first_post (memo_first topic (db w)) w2
      = Ok (first_post_value topic (db w), memo_first topic (db w)) w2 /\
    AbstractTopic.last_post (memo_last topic (db w)) w2
      = Ok (last_post_value topic (db w), memo_last topic (db w)) w2.
Proof.
  split; [apply first_post_eq|]. split; [apply last_post_eq|].
  split; [unfold first_post_value; intros ->; reflexivity|].
  split; [unfold last_post_value; intros ->; reflexivity|].
  intros w2. split.
  - unfold AbstractTopic.first_post, first_post_value, memo_first.
    destruct (AbstractTopic._first_post topic) as [c|] eqn:E.
    + rewrite E. reflexivity.
    + reflexivity.
  - unfold AbstractTopic.last_post, last_post_value, memo_last.
    destruct (AbstractTopic._last_post topic) as [c|] eqn:E.
    + rewrite E. reflexivity.
    + reflexivity.
Qed.

(** ** More on the tracker update *)

Lemma Topic_Model_save_others now self w k :
  AbstractTopic.pk self = Some k ->
  forall j, j <> k ->
    get_topic j (db (world_of (AbstractTopic.Model_save now self w)))
    = get_topic j (db w).
Proof.
  intros Hk j Hj. unfold AbstractTopic.Model_save. rewrite Hk.
  destruct (existsb _ _) eqn:E; simpl; unfold get_topic; simpl.
  - apply (find_replace_other tr_id k j); auto.
  - apply (find_append_other tr_id k j); auto.
Qed.

Lemma simple_save_others now self w k self' w' :
  AbstractTopic._simple_save now self w = Ok self' w' ->
  AbstractTopic.pk self = Some k ->
  forall j, j <> k -> get_topic j (db w') = get_topic j (db w).
Proof.
  unfold AbstractTopic._simple_save, bind, set_auto_now, ret. intros H Hk j Hj.
  pose proof (Topic_Model_save_others now self
                (mkWorld (db w) false (log w)) k Hk j Hj) as O.
  destruct (AbstractTopic.Model_save now self _) as [s1 w1|]; [|discriminate].
  inversion H; subst. exact O.
Qed.

(** A tracker update that completes touches no topic row but the
    topic's own, no post row, and no parent reference of a forum. *)
Lemma update_trackers_frame now self w self' w' k :
  AbstractTopic.update_trackers now self w = Ok self' w' ->
  AbstractTopic.pk self = Some k ->
  (forall j, j <> k -> get_topic j (db w') = get_topic j (db w)) /\
  posts (db w') = posts (db w) /\
  same_tree (db w) (db w').
Proof.
  intros H Hk.
  pose proof (update_trackers_Ok _ _ _ _ _ H) as T.
  destruct (tracked_pk _ _ _ _ _ T Hk) as (Hp & _ & _).
  unfold AbstractTopic.update_trackers in H.
  apply bind_Ok in H. destruct H as ([] & wa & Ha & H).
  unfold emit in Ha. inversion Ha; subst wa; clear Ha.
  apply bind_Ok in H. destruct H as (d & wb & Hb & H).
  unfold get_db in Hb. inversion Hb; subst d wb; clear Hb. simpl in H.
  destruct (latest _) as [lp|]; [|discriminate].
  apply bind_Ok in H. destruct H as (s3 & wc & Hs & H).
  apply bind_Ok in H. destruct H as (f & wd & Hl & H).
  apply load_forum_inv in Hl. destruct Hl as [-> Hf].
  apply bind_Ok in H. destruct H as (u & we & Hu & H).
  inversion H; subst; clear H.
  assert (Hfo : forums (db wc) = forums (db w)).
  { match type of Hs with AbstractTopic._simple_save _ ?s ?w1 = _ =>
      destruct (simple_save_spec now s w1 k) as
        (s' & w2 & E & _ & _ & _ & _ & Hfo & _); [simpl; exact Hk|] end.
    rewrite E in Hs. inversion Hs; subst. exact Hfo. }
  pose proof (Forum_update_trackers_Ok _ _ _ _ Hu) as (Tq & _).
  pose proof (Forum_cascade (S (length (forums (db wc)))) f wc
                (load_fresh _ _ _ Hf)) as C.
  cbv zeta in C. unfold Forum.update_trackers in Hu. rewrite Hu in C.
  destruct C as (ST & _).
  split; [|split; [exact Hp|]].
  - intros j Hj. rewrite (get_topic_ext j _ _ Tq).
    eapply (simple_save_others _ _ _ k _ _ Hs); [simpl; exact Hk | exact Hj].
  - eapply same_tree_trans; [apply same_tree_forums; exact Hfo | exact ST].
Qed.

(** X3.  After a tracker update that completes, [last_post] read on the
    instance handed back is the last post of the topic in the database;
    the memo of the first post is left as it was, refreshed or not. *)
Theorem X3_update_trackers_refreshes_last_post_only
        now topic w topic' w' k :
  AbstractTopic.update_trackers now topic w = Ok topic' w' ->
  AbstractTopic.pk topic = Some k ->
  AbstractTopic.last_post topic' w'
    = Ok (latest (posts_of k (db w')), topic') w' /\
  AbstractTopic._first_post topic' = AbstractTopic._first_post topic.
Proof.
  intros H Hk. apply update_trackers_Ok in H.
  destruct H as (k0 & lp & Hk0 & _ & Hl & Hp & _ & _ & _ & Hlast & Hfirst & _).
  assert (k0 = k) by congruence. subst k0.
  split; [|exact Hfirst].
  unfold AbstractTopic.last_post. rewrite Hlast.
  rewrite (posts_of_ext k _ _ Hp), Hl. reflexivity.
Qed.

Lemma X3_witness :
  exists topic' w',
    AbstractTopic.update_trackers 103 Sample.topic1 Sample.w_two
      = Ok topic' w' /\
    AbstractTopic.pk Sample.topic1 = Some 1 /\
    AbstractTopic.last_post topic' w'
      = Ok (latest (posts_of 1 (db w')), topic') w' /\
    AbstractTopic._first_post topic' = AbstractTopic._first_post Sample.topic1.
Proof.
  do 2 eexists. split; [cbv; reflexivity|]. split; [reflexivity|].
  eapply (X3_update_trackers_refreshes_last_post_only 103 Sample.topic1
            Sample.w_two); [cbv; reflexivity | reflexivity].
Defined.

(** X4.  On a topic without a post the tracker update raises
    [AttributeError] and has stored nothing: the database and the
    [auto_now] switch are as before. *)
Theorem X4_update_trackers_without_posts now topic w :
  related_posts (AbstractTopic.pk topic) (db w) = [] ->
  exists w',
    AbstractTopic.update_trackers now topic w = Raise AttributeError w' /\
    db w' = db w /\ auto_now w' = auto_now w.
Proof.
  intros H. rewrite (update_trackers_no_posts now topic w H).
  eexists. split; [reflexivity|]. split; reflexivity.
Qed.

Lemma X4_witness :
  related_posts (AbstractTopic.pk Sample.topic1) (db Sample.w_topic) = [] /\
  exists w',
    AbstractTopic.update_trackers 101 Sample.topic1 Sample.w_topic
      = Raise AttributeError w' /\
    db w' = db Sample.w_topic /\ auto_now w' = auto_now Sample.w_topic.
Proof.
  assert (H : related_posts (AbstractTopic.pk Sample.topic1)
                            (db Sample.w_topic) = []) by reflexivity.
  split; [exact H|].
  apply (X4_update_trackers_without_posts 101 Sample.topic1 Sample.w_topic H).
Defined.

(** ** What a post mutation leaves alone *)

Lemma find_filter_other {A} (key : A -> Z) (k j : Z) (l : list A) :
  j <> k ->
  find (fun r => key r =? j) (filter (fun r => negb (key r =? k)) l)
  = find (fun r => key r =? j) l.
Proof.
  intros Hj. induction l as [|y l IH]; simpl; [reflexivity|].
  destruct (key y =? k) eqn:E; simpl.
  - apply Z.eqb_eq in E.
    replace (key y =? j) with false by (symmetry; apply Z.eqb_neq; lia).
    exact IH.
  - destruct (key y =? j); [reflexivity | exact IH].
Qed.

Lemma filter_comm {A} (f g : A -> bool) (l : list A) :
  filter f (filter g l) = filter g (filter f l).
Proof.
  induction l as [|y l IH]; simpl; [reflexivity|].
  destruct (f y) eqn:Ef, (g y) eqn:Eg; simpl;
    rewrite ?Ef, ?Eg, IH; reflexivity.
Qed.

Lemma filter_all {A} (f : A -> bool) (l : list A) :
  (forall x, In x l -> f x = true) -> filter f l = l.
Proof.
  intros H. apply forallb_filter_id. apply forallb_forall. exact H.
Qed.

Lemma posts_of_other_topic_kept k j l :
  j <> k ->
  filter (fun p => pr_topic p =? j)
         (filter (fun p => negb (pr_topic p =? k)) l)
  = filter (fun p => pr_topic p =? j) l.
Proof.
  intros Hj. rewrite filter_comm. apply filter_all.
  intros x Hx. apply filter_In in Hx. destruct Hx as [_ Hx].
  apply Z.eqb_eq in Hx. apply negb_true_iff, Z.eqb_neq. lia.
Qed.

Lemma Post_Model_save_others now self topic w self1 w1 pid :
  AbstractPost.Model_save now self topic w = Ok self1 w1 ->
  AbstractPost.pk self1 = Some pid ->
  forall q, q <> pid -> get_post q (db w1) = get_post q (db w).
Proof.
  unfold AbstractPost.Model_save.
  destruct (AbstractTopic.pk topic) as [tk|]; [|discriminate].
  destruct (AbstractPost.pk self) as [k|] eqn:Hpk.
  - destruct (existsb _ _) eqn:E; intros H Hp q Hq;
      inversion H; subst; clear H; simpl in Hp;
      inversion Hp; subst; unfold get_post; simpl.
    + apply (find_replace_other pr_id pid q); auto.
    + apply (find_append_other pr_id pid q); auto.
  - intros H Hp q Hq. inversion H; subst; clear H. simpl in Hp.
    inversion Hp; subst. unfold get_post; simpl.
    apply (find_append_other pr_id (next_id (map pr_id (posts (db w)))) q);
      auto.
Qed.

(** The steps of a post save that completes. *)
Lemma Post_save_steps now self topic w r w' :
  AbstractPost.save now self topic w = Ok r w' ->
  exists w1 t1,
    AbstractPost.Model_save now self topic w = Ok (fst r) w1 /\
    AbstractTopic.pk t1 = AbstractTopic.pk topic /\
    AbstractTopic.forum t1 = AbstractTopic.forum topic /\
    AbstractTopic.update_trackers now t1 w1 = Ok (snd r) w'.
Proof.
  unfold AbstractPost.save. intros H.
  apply bind_Ok in H. destruct H as (self1 & w1 & Hs & H).
  apply bind_Ok in H. destruct H as (h & wa & Hh & H).
  apply is_topic_head_inv in Hh. destruct Hh as (-> & Hsnd & x & _ & Hfst).
  apply bind_Ok in H. destruct H as (t2 & wb & Hu & H).
  inversion H; subst; clear H. simpl.
  eexists w1, _. split; [exact Hs|]. split; [|split; [|exact Hu]].
  - rewrite Hsnd. fold (mirrored self1 (fst h) (memo_first topic (db w1))).
    rewrite (proj1 (mirrored_data _ _ _)). apply memo_first_data.
  - rewrite Hsnd. fold (mirrored self1 (fst h) (memo_first topic (db w1))).
    destruct (mirrored_data self1 (fst h) (memo_first topic (db w1)))
      as (_ & -> & _). apply memo_first_data.
Qed.

(** The steps of a post delete that completes. *)
Lemma Post_delete_steps now self topic w topic' w' :
  AbstractPost.delete now self topic w = Ok topic' w' ->
  (head_and_tail self topic (db w) = true /\
   AbstractTopic.pk topic' = AbstractTopic.pk topic /\
   AbstractTopic.forum topic' = AbstractTopic.forum topic /\
   AbstractTopic.delete topic' w = Ok tt w')
  \/
  (head_and_tail self topic (db w) = false /\
   exists t1 w1,
     AbstractTopic.pk t1 = AbstractTopic.pk topic /\
     AbstractTopic.forum t1 = AbstractTopic.forum topic /\
     AbstractPost.Model_delete self w = Ok tt w1 /\
     AbstractTopic.update_trackers now t1 w1 = Ok topic' w').
Proof.
  unfold AbstractPost.delete, head_and_tail. intros H.
  apply bind_Ok in H. destruct H as (h & wa & Hhead & H).
  apply is_topic_head_inv in Hhead.
  destruct Hhead as (-> & Hs & x & Hx & Hh).
  rewrite Hx. rewrite Hh, Hs in H.
  pose proof (memo_first_data topic (db w)) as (F1 & F2 & _).
  destruct (AbstractPost.same_id x self) eqn:Hd.
  - apply bind_Ok in H. destruct H as (tl & wb & Htail & H).
    apply is_topic_tail_inv in Htail.
    destruct Htail as (-> & Hs' & y & Hy & Ht).
    rewrite last_post_value_memo_first in Hy. rewrite Hy.
    rewrite Ht, Hs' in H. simpl in H.
    pose proof (memo_last_data (memo_first topic (db w)) (db w))
      as (L1 & L2 & _).
    destruct (AbstractPost.same_id y self) eqn:Hd'.
    + left. apply bind_Ok in H. destruct H as ([] & wc & Hdel & H).
      inversion H; subst; clear H.
      split; [reflexivity|]. split; [congruence|]. split; [congruence|].
      exact Hdel.
    + right. split; [reflexivity|].
      apply bind_Ok in H. destruct H as ([] & wc & Hdel & H).
      exists (memo_last (memo_first topic (db w)) (db w)), wc.
      split; [congruence|]. split; [congruence|].
      split; [exact Hdel | exact H].
  - right. split; [destruct (last_post_value topic (db w)); reflexivity|].
    apply bind_Ok in H. destruct H as (tl & wb & Htail & H).
    unfold ret in Htail. injection Htail as E1 E2. subst tl wb. simpl in H.
    apply bind_Ok in H. destruct H as ([] & wc & Hdel & H).
    exists (memo_first topic (db w)), wc. split; [exact F1|].
    split; [exact F2|]. split; [exact Hdel | exact H].
Qed.

(** X5.  A post save that completes touches two rows and no other: the
    row of the saved post and the row of its topic.  Every other topic
    row and every other post row reads as before. *)
Theorem X5_post_save_frame now self topic w r w' k pid :
  AbstractPost.save now self topic w = Ok r w' ->
  AbstractTopic.pk topic = Some k ->
  AbstractPost.pk (fst r) = Some pid ->
  (forall j, j <> k -> get_topic j (db w') = get_topic j (db w)) /\
  (forall q, q <> pid -> get_post q (db w') = get_post q (db w)).
Proof.
  intros H Hk Hp.
  destruct (Post_save_steps _ _ _ _ _ _ H) as (w1 & t1 & Hs & Hk1 & _ & Hu).
  rewrite Hk in Hk1.
  destruct (update_trackers_frame _ _ _ _ _ k Hu Hk1) as (Ht & Hposts & _).
  destruct (Post_Model_save_inv _ _ _ _ _ _ Hs)
    as (_ & _ & _ & _ & _ & _ & _ & _ & T1 & _).
  split.
  - intros j Hj. rewrite (Ht j Hj). apply get_topic_ext. exact T1.
  - intros q Hq. unfold get_post at 1. rewrite Hposts.
    apply (Post_Model_save_others _ _ _ _ _ _ pid Hs Hp q Hq).
Qed.

Lemma X5_witness :
  exists r w',
    AbstractPost.save 102 (Sample.new_post "World") Sample.topic1
                      Sample.w_one = Ok r w' /\
    AbstractTopic.pk Sample.topic1 = Some 1 /\
    AbstractPost.pk (fst r) = Some 2 /\
    (forall j, j <> 1 -> get_topic j (db w') = get_topic j (db Sample.w_one)) /\
    (forall q, q <> 2 -> get_post q (db w') = get_post q (db Sample.w_one)).
Proof.
  do 2 eexists. split; [cbv; reflexivity|]. split; [reflexivity|].
  split; [reflexivity|].
  eapply (X5_post_save_frame 102 (Sample.new_post "World") Sample.topic1
            Sample.w_one); [cbv; reflexivity | reflexivity | reflexivity].
Defined.

Lemma Topic_delete_frame self w u w' k :
  AbstractTopic.delete self w = Ok u w' ->
  AbstractTopic.pk self = Some k ->
  forall j, j <> k ->
    get_topic j (db w') = get_topic j (db w) /\
    posts_of j (db w') = posts_of j (db w).
Proof.
  intros H Hk j Hj.
  destruct (Topic_delete_inv _ _ _ _ H) as (k0 & f & w1 & Hk0 & Hd & _ & Hf).
  assert (k0 = k) by congruence. subst k0.
  apply Forum_update_trackers_Ok in Hf. destruct Hf as (T & P & _).
  destruct (Topic_Model_delete_inv _ _ _ _ Hd) as (k0 & Hk0' & _ & T1 & P1 & _).
  assert (k0 = k) by congruence. subst k0.
  unfold get_topic, posts_of. rewrite T, P, T1, P1. split.
  - apply (find_filter_other tr_id); exact Hj.
  - apply posts_of_other_topic_kept; exact Hj.
Qed.

(** X6.  A post delete that completes, whichever way it went, leaves
    every other topic as it was: its row, and its posts (the deleted
    post being one of the topic it is deleted from). *)
Theorem X6_post_delete_frame now self topic w topic' w' k pid :
  AbstractPost.delete now self topic w = Ok topic' w' ->
  AbstractTopic.pk topic = Some k ->
  AbstractPost.pk self = Some pid ->
  (forall q, In q (posts (db w)) -> pr_id q = pid -> pr_topic q = k) ->
  forall j, j <> k ->
    get_topic j (db w') = get_topic j (db w) /\
    posts_of j (db w') = posts_of j (db w).
Proof.
  intros H Hk Hp Hown j Hj.
  destruct (Post_delete_steps _ _ _ _ _ _ H)
    as [(_ & Hk' & _ & Hd)|(_ & t1 & w1 & Hk1 & _ & Hd & Hu)].
  - rewrite Hk in Hk'. exact (Topic_delete_frame _ _ _ _ k Hd Hk' j Hj).
  - rewrite Hk in Hk1.
    destruct (update_trackers_frame _ _ _ _ _ k Hu Hk1) as (Ht & Hposts & _).
    destruct (Post_Model_delete_inv _ _ _ _ Hd)
      as (pid0 & Hp0 & _ & T1 & P1 & _).
    assert (pid0 = pid) by congruence. subst pid0.
    split.
    + rewrite (Ht j Hj). apply get_topic_ext. exact T1.
    + unfold posts_of. rewrite Hposts, P1, filter_comm. apply filter_all.
      intros x Hx. apply filter_In in Hx. destruct Hx as [Hin Hx].
      apply Z.eqb_eq in Hx. apply negb_true_iff, Z.eqb_neq.
      intros E. apply Hj. rewrite <- Hx. apply Hown; assumption.
Qed.

Lemma X6_witness :
  exists topic' w',
    AbstractPost.delete 103 Sample.post2 Sample.topic1 Sample.w_two
      = Ok topic' w' /\
    forall j, j <> 1 ->
      get_topic j (db w') = get_topic j (db Sample.w_two) /\
      posts_of j (db w') = posts_of j (db Sample.w_two).
Proof.
  do 2 eexists. split; [cbv; reflexivity|].
  eapply (X6_post_delete_frame 103 Sample.post2 Sample.topic1 Sample.w_two
            _ _ 1 2); [cbv; reflexivity | reflexivity | reflexivity |].
  intros q Hq Hid. cbv in Hq.
  destruct Hq as [<-|[<-|[]]]; [discriminate Hid | reflexivity].
Defined.

(** ** Saving a new post *)

Lemma Post_Model_save_new now self topic w self1 w1 k :
  AbstractPost.Model_save now self topic w = Ok self1 w1 ->
  AbstractPost.pk self = None ->
  AbstractTopic.pk topic = Some k ->
  let pid := next_id (map pr_id (posts (db w))) in
  AbstractPost.pk self1 = Some pid /\
  AbstractPost.created self1 = now /\
  AbstractPost.updated self1 = now /\
  posts (db w1) = posts (db w) ++ [AbstractPost.to_row pid k self1].
Proof.
  unfold AbstractPost.Model_save. intros H Hp Hk. rewrite Hk, Hp in H.
  inversion H; subst; clear H. simpl. auto.
Qed.

Lemma Post_Model_save_total now self topic w k :
  AbstractTopic.pk topic = Some k ->
  exists self1 w1, AbstractPost.Model_save now self topic w = Ok self1 w1.
Proof.
  intros Hk. unfold AbstractPost.Model_save. rewrite Hk.
  destruct (AbstractPost.pk self); [destruct (existsb _ _)|]; eauto.
Qed.

(** A post save through a topic instance that has a key and no
    memoised first post completes when the forum hierarchy above the
    topic's forum is a finite chain. *)
Lemma Post_save_completes now self topic w k :
  AbstractTopic.pk topic = Some k ->
  AbstractTopic._first_post topic = None ->
  well_rooted (db w) (AbstractTopic.forum topic) ->
  exists r w', AbstractPost.save now self topic w = Ok r w'.
Proof.
  intros Hk Hm Hr.
  destruct (Post_Model_save_total now self topic w k Hk) as (self1 & w1 & Hs).
  destruct (Post_Model_save_inv _ _ _ _ _ _ Hs)
    as (tk & pid & Htk & _ & _ & _ & _ & Hfo & _ & _ & _ & Hin & _).
  assert (tk = k) by congruence. subst tk.
  assert (Hne : posts_of k (db w1) <> []).
  { intros E. rewrite E in Hin. contradiction. }
  destruct (earliest (posts_of k (db w1))) as [x|] eqn:Ex;
    [|apply earliest_None in Ex; contradiction].
  assert (Hh : AbstractPost.is_topic_head self1 topic w1
               = Ok (AbstractPost.same_id x self1, memo_first topic (db w1))
                    w1).
  { unfold AbstractPost.is_topic_head, bind. rewrite first_post_eq. simpl.
    unfold first_post_value. rewrite Hm, Hk. simpl. rewrite Ex. reflexivity. }
  unfold AbstractPost.save.
  rewrite (bind_step _ _ _ _ _ Hs), (bind_step _ _ _ _ _ Hh). cbn [fst snd].
  fold (mirrored self1 (AbstractPost.same_id x self1)
                 (memo_first topic (db w1))).
  set (t1 := mirrored _ _ _).
  destruct (update_trackers_succeeds now t1 w1 k) as (t2 & w2 & U).
  - subst t1.
    rewrite (proj1 (mirrored_data _ _ _)), (proj1 (memo_first_data _ _)).
    exact Hk.
  - exact Hne.
  - subst t1.
    destruct (mirrored_data self1 (AbstractPost.same_id x self1)
                (memo_first topic (db w1))) as (_ & -> & _).
    destruct (memo_first_data topic (db w1)) as (_ & -> & _).
    apply (well_rooted_forums (db w)); assumption.
  - rewrite (bind_step _ _ _ _ _ U). unfold ret. eauto.
Qed.

(** X7.  Saving a post that has no key yet, through a topic instance
    without a memoised first post, completes when the forum hierarchy
    above the topic's forum is a finite chain.  A save of such a post
    that completes has inserted it under a key larger than every key of
    the table, stamped its creation time with the time of the save,
    appended nothing else, and the stored [posts_count] of its topic is
    the number of posts the topic had plus one. *)
Theorem X7_new_post_is_appended now self topic w k :
  AbstractPost.pk self = None ->
  AbstractTopic.pk topic = Some k ->
  (AbstractTopic._first_post topic = None ->
   well_rooted (db w) (AbstractTopic.forum topic) ->
   exists r w', AbstractPost.save now self topic w = Ok r w') /\
  (forall r w',
     AbstractPost.save now self topic w = Ok r w' ->
     exists pid row,
       AbstractPost.pk (fst r) = Some pid /\
       (forall q, In q (posts (db w)) -> pr_id q < pid) /\
       AbstractPost.created (fst r) = now /\
       posts (db w') = posts (db w) ++ [AbstractPost.to_row pid k (fst r)] /\
       get_topic k (db w') = Some row /\
       tr_posts_count row = S (length (posts_of k (db w)))).
Proof.
  intros Hp Hk. split.
  - intros Hm Hr. exact (Post_save_completes now self topic w k Hk Hm Hr).
  - intros r w' H.
    destruct (Post_save_steps _ _ _ _ _ _ H) as (w1 & t1 & Hs & Hk1 & _ & Hu).
    rewrite Hk in Hk1.
    destruct (Post_Model_save_new _ _ _ _ _ _ k Hs Hp Hk)
      as (Hpid & Hc & _ & Hposts).
    apply update_trackers_Ok in Hu.
    destruct (tracked_pk _ _ _ _ _ Hu Hk1) as (P & Hg & Hcount).
    exists (next_id (map pr_id (posts (db w)))),
      (AbstractTopic.to_row k (snd r)).
    split; [exact Hpid|]. split; [apply next_id_fresh|]. split; [exact Hc|].
    split; [rewrite P; exact Hposts|]. split; [exact Hg|].
    simpl. rewrite Hcount. unfold posts_of. rewrite P, Hposts, filter_app.
    rewrite length_app. simpl. rewrite Z.eqb_refl. simpl. lia.
Qed.

Lemma X7_witness :
  AbstractPost.pk (Sample.new_post "World") = None /\
  AbstractTopic.pk Sample.topic1 = Some 1 /\
  well_rooted (db Sample.w_one) (AbstractTopic.forum Sample.topic1) /\
  length (posts_of 1 (db Sample.w_one)) = 1%nat /\
  exists r w',
    AbstractPost.save 102 (Sample.new_post "World") Sample.topic1
                      Sample.w_one = Ok r w' /\
    exists pid row,
      AbstractPost.pk (fst r) = Some pid /\
      (forall q, In q (posts (db Sample.w_one)) -> pr_id q < pid) /\
      AbstractPost.created (fst r) = 102 /\
      posts (db w') = posts (db Sample.w_one)
                      ++ [AbstractPost.to_row pid 1 (fst r)] /\
      get_topic 1 (db w') = Some row /\
      tr_posts_count row = S (length (posts_of 1 (db Sample.w_one))).
Proof.
  assert (H1 : AbstractPost.pk (Sample.new_post "World") = None)
    by reflexivity.
  assert (H2 : AbstractTopic.pk Sample.topic1 = Some 1) by reflexivity.
  assert (H3 : well_rooted (db Sample.w_one)
                           (AbstractTopic.forum Sample.topic1))
    by (cbv; reflexivity).
  split; [exact H1|]. split; [exact H2|]. split; [exact H3|].
  split; [reflexivity|].
  destruct (proj1 (X7_new_post_is_appended 102 (Sample.new_post "World")
                     Sample.topic1 Sample.w_one 1 H1 H2) eq_refl H3)
    as (r & w' & E).
  exists r, w'. split; [exact E|].
  exact (proj2 (X7_new_post_is_appended 102 (Sample.new_post "World")
                  Sample.topic1 Sample.w_one 1 H1 H2) r w' E).
Defined.

Lemma latest_app_later l x :
  (forall q, In q l -> pr_created q < pr_created x) ->
  latest (l ++ [x]) = Some x.
Proof.
  induction l as [|y l IH]; simpl; intros H; [reflexivity|].
  rewrite IH by (intros q Hq; apply H; right; exact Hq).
  assert (Hy := H y (or_introl eq_refl)).
  apply Z.ltb_lt in Hy. rewrite Hy. reflexivity.
Qed.

(** X8.  A new post saved at a time later than the creation of every
    post its topic has becomes the topic's tail: [is_topic_tail] holds
    on the instances handed back, the stored [updated] of the topic is
    the time of the save, and the post's [position] is the number of
    posts of the topic. *)
Theorem X8_later_post_is_tail now self topic w r w' k :
  AbstractPost.save now self topic w = Ok r w' ->
  AbstractPost.pk self = None ->
  AbstractTopic.pk topic = Some k ->
  (forall q, In q (posts_of k (db w)) -> pr_created q < now) ->
  AbstractPost.is_topic_tail (fst r) (snd r) w' = Ok (true, snd r) w' /\
  option_map tr_updated (get_topic k (db w')) = Some now /\
  AbstractPost.position (fst r) (snd r) (db w')
    = length (posts_of k (db w')).
Proof.
  intros H Hp Hk Hlater.
  destruct (Post_save_steps _ _ _ _ _ _ H) as (w1 & t1 & Hs & Hk1 & _ & Hu).
  rewrite Hk in Hk1.
  destruct (Post_Model_save_new _ _ _ _ _ _ k Hs Hp Hk) as (Hpid & Hc & _ & Hposts).
  set (pid := next_id (map pr_id (posts (db w)))) in *.
  set (row := AbstractPost.to_row pid k (fst r)) in *.
  apply update_trackers_Ok in Hu.
  destruct Hu as (k0 & lp & Hk0 & Hk0' & Hl & P & Hg & _ & Hupd & Hlast & _).
  assert (k0 = k) by congruence. subst k0.
  assert (Hof : posts_of k (db w1) = posts_of k (db w) ++ [row]).
  { unfold posts_of. rewrite Hposts, filter_app. simpl.
    subst row. simpl. rewrite Z.eqb_refl. reflexivity. }
  assert (Hlp : lp = row).
  { rewrite Hof, latest_app_later in Hl; [congruence|].
    intros q Hq. subst row. simpl. rewrite Hc. apply Hlater. exact Hq. }
  subst lp.
  assert (Hsame : AbstractPost.same_id row (fst r) = true).
  { unfold AbstractPost.same_id. rewrite Hpid. subst row. simpl.
    apply Z.eqb_refl. }
  split; [|split].
  - unfold AbstractPost.is_topic_tail, bind. rewrite last_post_eq. simpl.
    unfold last_post_value, memo_last. rewrite Hlast. simpl.
    rewrite Hsame. reflexivity.
  - rewrite Hg. simpl. rewrite Hupd. subst row. simpl. f_equal. exact Hc.
  - unfold AbstractPost.position. rewrite Hk0'. simpl.
    rewrite (posts_of_ext k _ _ P), Hof. f_equal. apply filter_all.
    intros x Hx. apply in_app_or in Hx. destruct Hx as [Hx|[<-|[]]].
    + rewrite Hc. specialize (Hlater x Hx). apply Z.ltb_lt in Hlater.
      rewrite Hlater. reflexivity.
    + rewrite Hsame. apply orb_true_r.
Qed.

Lemma X8_witness :
  exists r w',
    AbstractPost.save 102 (Sample.new_post "World") Sample.topic1
                      Sample.w_one = Ok r w' /\
    (forall q, In q (posts_of 1 (db Sample.w_one)) -> pr_created q < 102) /\
    AbstractPost.is_topic_tail (fst r) (snd r) w' = Ok (true, snd r) w' /\
    option_map tr_updated (get_topic 1 (db w')) = Some 102 /\
    AbstractPost.position (fst r) (snd r) (db w')
      = length (posts_of 1 (db w')).
Proof.
  assert (Hl : forall q, In q (posts_of 1 (db Sample.w_one)) ->
                         pr_created q < 102).
  { intros q Hq. cbv in Hq. destruct Hq as [<-|[]]. reflexivity. }
  do 2 eexists. split; [cbv; reflexivity|]. split; [exact Hl|].
  apply (X8_later_post_is_tail 102 (Sample.new_post "World") Sample.topic1
           Sample.w_one); [cbv; reflexivity | reflexivity | reflexivity
                          | exact Hl].
Defined.

(** ** Deleting one post of several, and deleting twice *)

Lemma length_remove_key {A} (key : A -> Z) (l : list A) r :
  NoDup (map key l) -> In r l ->
  length l = S (length (filter (fun q => negb (key q =? key r)) l)).
Proof.
  intros ND Hin.
  pose proof (count_filter_remove key (fun _ => true) l r ND Hin eq_refl) as C.
  rewrite !filter_all in C by reflexivity. exact C.
Qed.

(** A post delete through a topic instance without memoised posts
    completes when the post is not both head and tail of the topic,
    another post of the topic stays behind and the forum hierarchy
    above the topic's forum is a finite chain. *)
Lemma Post_delete_completes now self topic w k pid q :
  AbstractTopic.pk topic = Some k ->
  AbstractPost.pk self = Some pid ->
  head_and_tail self topic (db w) = false ->
  In q (posts_of k (db w)) -> pr_id q <> pid ->
  first_post_value topic (db w) <> None ->
  last_post_value topic (db w) <> None ->
  well_rooted (db w) (AbstractTopic.forum topic) ->
  exists topic' w', AbstractPost.delete now self topic w = Ok topic' w'.
Proof.
  intros Hk Hp Hht Hq Hne Hf Hl Hr.
  destruct (first_post_value topic (db w)) as [x|] eqn:Ex;
    [|contradiction].
  destruct (last_post_value topic (db w)) as [y|] eqn:Ey;
    [|contradiction].
  assert (Hh : AbstractPost.is_topic_head self topic w
               = Ok (AbstractPost.same_id x self, memo_first topic (db w)) w).
  { unfold AbstractPost.is_topic_head, bind. rewrite first_post_eq. simpl.
    rewrite Ex. reflexivity. }
  assert (Ht : AbstractPost.is_topic_tail self (memo_first topic (db w)) w
               = Ok (AbstractPost.same_id y self,
                     memo_last (memo_first topic (db w)) (db w)) w).
  { unfold AbstractPost.is_topic_tail, bind. rewrite last_post_eq. simpl.
    rewrite last_post_value_memo_first, Ey. reflexivity. }
  unfold head_and_tail in Hht. rewrite Ex, Ey in Hht.
  set (w1 := mkWorld
               (AbstractPost.put_posts
                  (filter (fun p => negb (pr_id p =? pid)) (posts (db w)))
                  (db w))
               (auto_now w) (log w ++ [PostModelDelete pid])).
  assert (Hd : AbstractPost.Model_delete self w = Ok tt w1).
  { unfold AbstractPost.Model_delete. rewrite Hp. reflexivity. }
  assert (Hne1 : posts_of k (db w1) <> []).
  { intros E. assert (Hin : In q (posts_of k (db w1))).
    { unfold posts_of in *. simpl. apply filter_In in Hq.
      destruct Hq as [Hq1 Hq2]. apply filter_In. split; [|exact Hq2].
      apply filter_In. split; [exact Hq1|].
      apply negb_true_iff, Z.eqb_neq. exact Hne. }
    rewrite E in Hin. contradiction. }
  assert (Hr1 : well_rooted (db w1) (AbstractTopic.forum topic)).
  { apply (well_rooted_forums (db w)); [reflexivity | exact Hr]. }
  unfold AbstractPost.delete.
  rewrite (bind_step _ _ _ _ _ Hh). cbn [fst snd].
  destruct (AbstractPost.same_id x self) eqn:Sx.
  - rewrite (bind_step _ _ _ _ _ Ht). cbn [fst snd].
    simpl in Hht. rewrite Hht. simpl.
    rewrite (bind_step _ _ _ _ _ Hd).
    apply (update_trackers_succeeds now _ w1 k).
    + rewrite (proj1 (memo_last_data _ _)), (proj1 (memo_first_data _ _)).
      exact Hk.
    + exact Hne1.
    + destruct (memo_last_data (memo_first topic (db w)) (db w))
        as (_ & -> & _).
      destruct (memo_first_data topic (db w)) as (_ & -> & _). exact Hr1.
  - unfold bind at 1. unfold ret at 1. cbn [fst snd andb].
    rewrite (bind_step _ _ _ _ _ Hd).
    apply (update_trackers_succeeds now _ w1 k).
    + rewrite (proj1 (memo_first_data _ _)). exact Hk.
    + exact Hne1.
    + destruct (memo_first_data topic (db w)) as (_ & -> & _). exact Hr1.
Qed.

(** X9.  Through a topic instance without memoised posts, deleting a
    stored post of a topic that has another post completes when the
    creation times of the topic's posts are pairwise distinct, primary
    keys are unique and the forum hierarchy above the topic's forum is
    a finite chain; it keeps the topic, removes the post's row and
    takes the stored [posts_count] of the topic to one less than the
    number of posts the topic had. *)
Theorem X9_post_delete_decrements now self topic w k p q :
  AbstractTopic.pk topic = Some k ->
  AbstractTopic._first_post topic = None ->
  AbstractTopic._last_post topic = None ->
  NoDup (map pr_id (posts (db w))) ->
  In p (posts_of k (db w)) ->
  In q (posts_of k (db w)) -> q <> p ->
  (forall a b, In a (posts_of k (db w)) -> In b (posts_of k (db w)) ->
               pr_created a = pr_created b -> a = b) ->
  AbstractPost.pk self = Some (pr_id p) ->
  well_rooted (db w) (AbstractTopic.forum topic) ->
  exists topic' w' row,
    AbstractPost.delete now self topic w = Ok topic' w' /\
    get_topic k (db w') = Some row /\
    S (tr_posts_count row) = length (posts_of k (db w)) /\
    ~ In p (posts (db w')) /\
    In q (posts (db w')).
Proof.
  intros Hk Hmf Hml ND Hin Hq Hqp Hdist Hp Hr.
  assert (ND' : NoDup (map pr_id (posts_of k (db w))))
    by (apply NoDup_map_filter; exact ND).
  assert (Hid : pr_id q <> pr_id p).
  { intros E. apply Hqp.
    exact (NoDup_key_inj pr_id _ q p ND' Hq Hin E). }
  assert (Hht : head_and_tail self topic (db w) = false).
  { destruct (head_and_tail self topic (db w)) eqn:E; [|reflexivity].
    destruct (head_and_tail_sole self topic (db w) k Hk Hmf Hml ND Hdist E)
      as (r & Hone & _).
    rewrite Hone in Hin, Hq.
    destruct Hin as [<-|[]]. destruct Hq as [<-|[]]. contradiction. }
  assert (Hne : posts_of k (db w) <> []).
  { intros E. rewrite E in Hin. contradiction. }
  destruct (Post_delete_completes now self topic w k (pr_id p) q)
    as (topic' & w' & H); auto.
  { unfold first_post_value. rewrite Hmf, Hk. simpl.
    intros E. apply earliest_None in E. contradiction. }
  { unfold last_post_value. rewrite Hml, Hk. simpl.
    intros E. apply latest_None in E. contradiction. }
  destruct (Post_delete_routing _ _ _ _ _ _ H) as (k0 & pid & Hk0 & Hpid & R).
  assert (k0 = k) by congruence. subst k0.
  assert (pid = pr_id p) by congruence. subst pid.
  rewrite Hht in R. destruct R as (P & (row & Hg & Hc) & _).
  exists topic', w', row. split; [exact H|]. split; [exact Hg|]. split.
  - rewrite Hc. unfold posts_of. rewrite P, filter_comm.
    symmetry. apply (length_remove_key pr_id); [|exact Hin].
    apply NoDup_map_filter. exact ND.
  - split.
    + rewrite P. intros Hx. apply filter_In in Hx. destruct Hx as [_ Hx].
      rewrite Z.eqb_refl in Hx. discriminate.
    + rewrite P. apply filter_In. split.
      * unfold posts_of in Hq. apply filter_In in Hq. exact (proj1 Hq).
      * apply negb_true_iff, Z.eqb_neq. exact Hid.
Qed.

Lemma X9_witness :
  length (posts_of 1 (db Sample.w_two)) = 2%nat /\
  exists topic' w' row,
    AbstractPost.delete 103 Sample.post2 Sample.topic1 Sample.w_two
      = Ok topic' w' /\
    get_topic 1 (db w') = Some row /\
    S (tr_posts_count row) = length (posts_of 1 (db Sample.w_two)) /\
    ~ In (AbstractPost.to_row 2 1 Sample.post2) (posts (db w')) /\
    In (AbstractPost.to_row 1 1 Sample.post1) (posts (db w')).
Proof.
  split; [reflexivity|].
  apply (X9_post_delete_decrements 103 Sample.post2 Sample.topic1
           Sample.w_two 1 (AbstractPost.to_row 2 1 Sample.post2)
           (AbstractPost.to_row 1 1 Sample.post1)).
  - reflexivity.
  - reflexivity.
  - reflexivity.
  - cbv. repeat constructor; simpl; intuition discriminate.
  - cbv. right; left; reflexivity.
  - cbv. left; reflexivity.
  - discriminate.
  - intros a b Ha Hb. cbv in Ha, Hb.
    destruct Ha as [<-|[<-|[]]]; destruct Hb as [<-|[<-|[]]];
      cbv; intros E; try reflexivity; discriminate.
  - reflexivity.
  - cbv. reflexivity.
Defined.

(** X10.  Once a post delete has removed the topic, deleting a post of
    that topic again (through an instance without a memoised first
    post) raises [AttributeError] and changes nothing. *)
Theorem X10_delete_after_topic_is_gone
        now self topic w topic' w' k now2 self2 topic2 :
  AbstractPost.delete now self topic w = Ok topic' w' ->
  head_and_tail self topic (db w) = true ->
  AbstractTopic.pk topic = Some k ->
  AbstractTopic.pk topic2 = Some k ->
  AbstractTopic._first_post topic2 = None ->
  AbstractPost.delete now2 self2 topic2 w' = Raise AttributeError w'.
Proof.
  intros H Hht Hk Hk2 Hf.
  destruct (Post_delete_routing _ _ _ _ _ _ H) as (k0 & pid & Hk0 & _ & R).
  assert (k0 = k) by congruence. subst k0.
  rewrite Hht in R. destruct R as (_ & Hp & _).
  unfold AbstractPost.delete, AbstractPost.is_topic_head, bind.
  rewrite first_post_eq. simpl. unfold first_post_value.
  rewrite Hf, Hk2. simpl. rewrite Hp. reflexivity.
Qed.

Lemma X10_witness :
  exists topic' w',
    AbstractPost.delete 103 Sample.post1 (Scenario.load 1 Sample.w_one)
                        Sample.w_one = Ok topic' w' /\
    head_and_tail Sample.post1 (Scenario.load 1 Sample.w_one)
                  (db Sample.w_one) = true /\
    AbstractPost.delete 104 Sample.post1 Sample.topic1 w'
      = Raise AttributeError w'.
Proof.
  do 2 eexists. split; [cbv; reflexivity|]. split; [reflexivity|].
  eapply (X10_delete_after_topic_is_gone 103 Sample.post1
            (Scenario.load 1 Sample.w_one) Sample.w_one _ _ 1);
    [cbv; reflexivity | reflexivity | reflexivity | reflexivity | reflexivity].
Defined.

(** ** Saving a topic: the three cases *)

Lemma Topic_Model_save_slug now self w :
  match AbstractTopic.Model_save now self w with
  | Ok self' _ => AbstractTopic.slug self' = AbstractTopic.slug self
  | Raise _ _ => True
  end.
Proof.
  unfold AbstractTopic.Model_save.
  destruct (AbstractTopic.pk self); [destruct (existsb _ _)|];
    destruct (auto_now w); reflexivity.
Qed.

Lemma Topic_Model_save_tables now self w :
  forums (db (world_of (AbstractTopic.Model_save now self w))) = forums (db w)
  /\ posts (db (world_of (AbstractTopic.Model_save now self w)))
     = posts (db w)
  /\ auto_now (world_of (AbstractTopic.Model_save now self w)) = auto_now w.
Proof.
  unfold AbstractTopic.Model_save.
  destruct (AbstractTopic.pk self); [destruct (existsb _ _)|];
    simpl; auto.
Qed.

(** X11.  Saving a topic whose key is unset (or zero, which Python
    takes as unset) stores the row with the slug of its subject and
    does nothing else: no old instance is read, no tracker update runs,
    no forum row and no post row changes, so the forum's counters do
    not yet count the topic.  With the key unset the row goes under a
    key no topic has, and every existing topic row reads as before. *)
Theorem X11_save_of_a_new_topic slugify now self w :
  AbstractTopic.truthy (AbstractTopic.pk self) = None ->
  exists self' w' k,
    AbstractTopic.save slugify now self w = Ok self' w' /\
    AbstractTopic.pk self' = Some k /\
    get_topic k (db w') = Some (AbstractTopic.to_row k self') /\
    AbstractTopic.slug self' = slugify (AbstractTopic.subject self) /\
    AbstractTopic.subject self' = AbstractTopic.subject self /\
    AbstractTopic.forum self' = AbstractTopic.forum self /\
    forums (db w') = forums (db w) /\
    posts (db w') = posts (db w) /\
    log w' = log w ++ [TopicModelSave k] /\
    (AbstractTopic.pk self = None ->
     get_topic k (db w) = None /\
     AbstractTopic.created self' = now /\
     forall j, j <> k -> get_topic j (db w') = get_topic j (db w)).
Proof.
  intros Ht. unfold AbstractTopic.save. rewrite Ht.
  unfold bind at 1. unfold ret at 1. unfold bind.
  set (self1 := AbstractTopic.with_slug _ self).
  destruct (AbstractTopic.pk self) as [k|] eqn:Hk.
  - destruct (Topic_Model_save_spec now self1 w k Hk)
      as (s' & E & Hpk & Hd & _ & Hg).
    pose proof (Topic_Model_save_slug now self1 w) as Hs.
    rewrite E in Hs, Hg. rewrite E. simpl in Hg.
    destruct Hd as (D1 & D2 & _).
    exists s', (mkWorld (mkDB (forums (db w))
                  (topics (db (world_of (AbstractTopic.Model_save now self1 w))))
                  (posts (db w))) (auto_now w) (log w ++ [TopicModelSave k])), k.
    unfold ret. repeat split; auto; discriminate.
  - destruct (Topic_Model_save_new now self1 w Hk)
      as (s' & E & Hpk & Hd & Hs & Hc & _ & Hnone & Htop & Hfo & Hpo & Hlog).
    rewrite E. destruct Hd as (D1 & D2 & _).
    set (k := next_id (map tr_id (topics (db w)))) in *.
    assert (Hg : get_topic k (db (world_of (AbstractTopic.Model_save now self1 w)))
                 = Some (AbstractTopic.to_row k s')).
    { unfold get_topic. rewrite Htop. apply (find_append tr_id); [reflexivity|].
      apply next_id_absent. }
    exists s', (world_of (AbstractTopic.Model_save now self1 w)), k.
    unfold ret. repeat split; auto.
    intros j Hj. unfold get_topic. rewrite Htop.
    apply (find_append_other tr_id k); auto.
Qed.

Lemma X11_witness :
  AbstractTopic.truthy (AbstractTopic.pk (Sample.new_topic 1 "Hello")) = None
  /\
  exists self' w' k,
    AbstractTopic.save Sample.slugify 100 (Sample.new_topic 1 "Hello")
                       Sample.w0 = Ok self' w' /\
    AbstractTopic.pk self' = Some k /\
    get_topic k (db w') = Some (AbstractTopic.to_row k self') /\
    AbstractTopic.slug self'
      = Sample.slugify (AbstractTopic.subject (Sample.new_topic 1 "Hello")) /\
    AbstractTopic.subject self'
      = AbstractTopic.subject (Sample.new_topic 1 "Hello") /\
    AbstractTopic.forum self'
      = AbstractTopic.forum (Sample.new_topic 1 "Hello") /\
    forums (db w') = forums (db Sample.w0) /\
    posts (db w') = posts (db Sample.w0) /\
    log w' = log Sample.w0 ++ [TopicModelSave k] /\
    (AbstractTopic.pk (Sample.new_topic 1 "Hello") = None ->
     get_topic k (db Sample.w0) = None /\
     AbstractTopic.created self' = 100 /\
     forall j, j <> k -> get_topic j (db w') = get_topic j (db Sample.w0)).
Proof.
  assert (H : AbstractTopic.truthy
                (AbstractTopic.pk (Sample.new_topic 1 "Hello")) = None)
    by reflexivity.
  split; [exact H|].
  exact (X11_save_of_a_new_topic Sample.slugify 100
           (Sample.new_topic 1 "Hello") Sample.w0 H).
Defined.

(** X12.  Saving a persisted topic whose forum is the stored one
    completes, stores the row with the slug of the subject and with
    [updated] stamped with the time of the save (whatever the creation
    time of its last post is), and runs no tracker update: forum rows
    and post rows are as before. *)
Theorem X12_save_with_the_same_forum slugify now self w k old f :
  AbstractTopic.truthy (AbstractTopic.pk self) = Some k ->
  get_topic k (db w) = Some old ->
  tr_forum old = AbstractTopic.forum self ->
  get_forum (AbstractTopic.forum self) (db w) = Some f ->
  auto_now w = true ->
  exists self' w',
    AbstractTopic.save slugify now self w = Ok self' w' /\
    get_topic k (db w') = Some (AbstractTopic.to_row k self') /\
    AbstractTopic.updated self' = now /\
    AbstractTopic.slug self' = slugify (AbstractTopic.subject self) /\
    forums (db w') = forums (db w) /\
    posts (db w') = posts (db w) /\
    log w' = log w ++ [TopicGet k; TopicModelSave k].
Proof.
  intros Ht Hold Hsame Hf Ha. unfold AbstractTopic.save. rewrite Ht.
  apply truthy_Some in Ht.
  set (wa := mkWorld (db w) (auto_now w) (log w ++ [TopicGet k])).
  assert (G : (o <- AbstractTopic.get k ;; ret (Some o)) w
              = Ok (Some (AbstractTopic.of_row old)) wa).
  { erewrite bind_step; [reflexivity|]. rewrite Topic_get_eq, Hold.
    reflexivity. }
  rewrite (bind_step _ _ _ _ _ G).
  set (self1 := AbstractTopic.with_slug _ self).
  destruct (Topic_Model_save_spec now self1 wa k Ht)
    as (s' & E & Hpk & Hd & Hu & Hg).
  pose proof (Topic_Model_save_slug now self1 wa) as Hs.
  rewrite E in Hs, Hg. simpl in Hg, Hu. rewrite Ha in Hu.
  rewrite (bind_step _ _ _ _ _ E).
  match goal with |- context [bind (load_forum _) _ ?W] => set (wb := W) in * end.
  assert (L : load_forum (AbstractTopic.forum (AbstractTopic.of_row old)) wb
              = Ok f wb).
  { unfold load_forum, get_forum. simpl. rewrite Hsame.
    unfold get_forum in Hf. rewrite Hf. reflexivity. }
  rewrite (bind_step _ _ _ _ _ L).
  assert (Hid : f_id f = AbstractTopic.forum self)
    by (unfold get_forum in Hf; apply (find_key f_id) in Hf; tauto).
  destruct Hd as (D1 & _). simpl in D1. rewrite Hid, D1, Z.eqb_refl. simpl.
  unfold ret. exists s', wb. split; [reflexivity|]. subst wb. simpl.
  repeat split; auto. rewrite <- app_assoc. reflexivity.
Qed.

Lemma X12_witness :
  AbstractTopic.truthy (AbstractTopic.pk Sample.topic1) = Some 1 /\
  option_map tr_updated (get_topic 1 (db Sample.w_two)) = Some 102 /\
  exists self' w',
    AbstractTopic.save Sample.slugify 200 Sample.topic1 Sample.w_two
      = Ok self' w' /\
    get_topic 1 (db w') = Some (AbstractTopic.to_row 1 self') /\
    AbstractTopic.updated self' = 200 /\
    AbstractTopic.slug self'
      = Sample.slugify (AbstractTopic.subject Sample.topic1) /\
    forums (db w') = forums (db Sample.w_two) /\
    posts (db w') = posts (db Sample.w_two) /\
    log w' = log Sample.w_two ++ [TopicGet 1; TopicModelSave 1].
Proof.
  assert (H : AbstractTopic.truthy (AbstractTopic.pk Sample.topic1) = Some 1)
    by reflexivity.
  split; [exact H|]. split; [reflexivity|].
  eapply (X12_save_with_the_same_forum Sample.slugify 200 Sample.topic1
            Sample.w_two 1 _ _ H); [cbv; reflexivity | reflexivity
            | cbv; reflexivity | reflexivity].
Defined.

(** X13.  Saving a topic instance whose key is set while no row has
    that key (the topic was deleted meanwhile) raises [DoesNotExist] at
    the read of the old instance; the database is as before, the
    instance has not been stored again. *)
Theorem X13_save_of_a_deleted_topic slugify now self w k :
  AbstractTopic.truthy (AbstractTopic.pk self) = Some k ->
  get_topic k (db w) = None ->
  exists w',
    AbstractTopic.save slugify now self w = Raise DoesNotExist w' /\
    db w' = db w /\ auto_now w' = auto_now w.
Proof.
  intros Ht Hnone. unfold AbstractTopic.save. rewrite Ht.
  eexists. split.
  - apply bind_stop. apply bind_stop. rewrite Topic_get_eq, Hnone.
    reflexivity.
  - split; reflexivity.
Qed.

Lemma X13_witness :
  AbstractTopic.truthy (AbstractTopic.pk Sample.topic1) = Some 1 /\
  get_topic 1 (db Sample.w0) = None /\
  exists w',
    AbstractTopic.save Sample.slugify 100 Sample.topic1 Sample.w0
      = Raise DoesNotExist w' /\
    db w' = db Sample.w0 /\ auto_now w' = auto_now Sample.w0.
Proof.
  assert (H1 : AbstractTopic.truthy (AbstractTopic.pk Sample.topic1) = Some 1)
    by reflexivity.
  assert (H2 : get_topic 1 (db Sample.w0) = None) by reflexivity.
  split; [exact H1|]. split; [exact H2|].
  exact (X13_save_of_a_deleted_topic Sample.slugify 100 Sample.topic1
           Sample.w0 1 H1 H2).
Defined.

Lemma well_rooted_same_tree d d' k :
  same_tree d d' -> well_rooted d k -> well_rooted d' k.
Proof.
  unfold well_rooted. intros ST H. rewrite (proj1 ST).
  rewrite (reaches_root_same_tree d d'); [exact H | exact ST].
Qed.

(** X14.  Saving a persisted topic that has a post with a forum other
    than the stored one completes when the hierarchies above both
    forums are finite chains.  The row is stored with the new forum,
    its [updated] is put back to the creation time of the last post and
    its [posts_count] to the number of posts; the log shows, in this
    order, the read of the old instance, the row save, the topic-level
    tracker update with its lightweight save, the cascade from the new
    forum, the reload of the old forum and the cascade from it. *)
Theorem X14_save_with_another_forum slugify now self w k old :
  AbstractTopic.truthy (AbstractTopic.pk self) = Some k ->
  get_topic k (db w) = Some old ->
  tr_forum old <> AbstractTopic.forum self ->
  posts_of k (db w) <> [] ->
  well_rooted (db w) (AbstractTopic.forum self) ->
  well_rooted (db w) (tr_forum old) ->
  exists self' w' lp evs1 evs2,
    AbstractTopic.save slugify now self w = Ok self' w' /\
    latest (posts_of k (db w)) = Some lp /\
    get_topic k (db w') = Some (AbstractTopic.to_row k self') /\
    AbstractTopic.forum self' = AbstractTopic.forum self /\
    AbstractTopic.updated self' = pr_created lp /\
    AbstractTopic.posts_count self' = length (posts_of k (db w)) /\
    posts (db w') = posts (db w) /\
    log w' = log w ++ [TopicGet k; TopicModelSave k;
                       TopicUpdateTrackers (Some k); TopicModelSave k]
                   ++ ForumUpdateTrackers (AbstractTopic.forum self) :: evs1
                   ++ ForumRefresh (tr_forum old)
                   :: ForumUpdateTrackers (tr_forum old) :: evs2 /\
    forallb forum_event evs1 = true /\ forallb forum_event evs2 = true.
Proof.
  intros Ht Hold Hne Hposts Hnew Holdf.
  pose proof Ht as Hpk0. apply truthy_Some in Hpk0.
  assert (Hneb : (tr_forum old =? AbstractTopic.forum self) = false)
    by (apply Z.eqb_neq; exact Hne).
  assert (S : exists self' w' lp,
             AbstractTopic.save slugify now self w = Ok self' w' /\
             latest (posts_of k (db w)) = Some lp /\
             get_topic k (db w') = Some (AbstractTopic.to_row k self') /\
             AbstractTopic.forum self' = AbstractTopic.forum self /\
             AbstractTopic.updated self' = pr_created lp /\
             AbstractTopic.posts_count self' = length (posts_of k (db w)) /\
             posts (db w') = posts (db w)).
  { unfold AbstractTopic.save. rewrite Ht.
    set (wa := mkWorld (db w) (auto_now w) (log w ++ [TopicGet k])).
    assert (G : (o <- AbstractTopic.get k ;; ret (Some o)) w
                = Ok (Some (AbstractTopic.of_row old)) wa).
    { erewrite bind_step; [reflexivity|]. rewrite Topic_get_eq, Hold.
      reflexivity. }
    rewrite (bind_step _ _ _ _ _ G).
    set (self1 := AbstractTopic.with_slug _ self).
    destruct (Topic_Model_save_spec now self1 wa k Hpk0)
      as (s2 & E & Hpk & Hd & _ & _).
    rewrite (bind_step _ _ _ _ _ E).
    match goal with |- context [bind (load_forum _) _ ?W] =>
      set (wb := W) in * end.
    assert (Hfb : forums (db wb) = forums (db w)) by reflexivity.
    assert (Hpb : posts (db wb) = posts (db w)) by reflexivity.
    destruct (well_rooted_exists _ _ Holdf) as (old_f & Hof).
    assert (L : load_forum (AbstractTopic.forum (AbstractTopic.of_row old)) wb
                = Ok old_f wb).
    { assert (X : get_forum (AbstractTopic.forum (AbstractTopic.of_row old))
                              (db wb) = Some old_f) by exact Hof.
      unfold load_forum. rewrite X. reflexivity. }
    rewrite (bind_step _ _ _ _ _ L).
    assert (Hid : f_id old_f = tr_forum old)
      by (unfold get_forum in Hof; apply (find_key f_id) in Hof; tauto).
    assert (D1 : AbstractTopic.forum s2 = AbstractTopic.forum self)
      by (destruct Hd as (-> & _); reflexivity).
    rewrite Hid, D1, Hneb. simpl.
    destruct (update_trackers_succeeds now s2 wb k Hpk) as (s3 & wc & U).
    { rewrite (posts_of_ext k _ _ Hpb). exact Hposts. }
    { rewrite D1. apply (well_rooted_forums (db w)); assumption. }
    rewrite (bind_step _ _ _ _ _ U).
    destruct (update_trackers_frame _ _ _ _ _ k U Hpk) as (_ & _ & ST).
    assert (Holdc : well_rooted (db wc) (tr_forum old)).
    { apply (well_rooted_same_tree (db wb)); [exact ST|].
      apply (well_rooted_forums (db w)); assumption. }
    destruct (well_rooted_exists _ _ Holdc) as (old_forum & Hof').
    set (wd := mkWorld (db wc) (auto_now wc)
                       (log wc ++ [ForumRefresh (f_id old_f)])).
    assert (R : Forum.refresh old_f wc = Ok old_forum wd).
    { unfold Forum.refresh. erewrite bind_step; [|reflexivity].
      assert (X : get_forum (f_id old_f)
                    (db (mkWorld (db wc) (auto_now wc)
                           (log wc ++ [ForumRefresh (f_id old_f)])))
                  = Some old_forum) by (rewrite Hid; exact Hof').
      unfold load_forum. rewrite X. reflexivity. }
    rewrite (bind_step _ _ _ _ _ R).
    assert (Hofd : get_forum (tr_forum old) (db wd) = Some old_forum)
      by exact Hof'.
    assert (Holdd : well_rooted (db wd) (tr_forum old)) by exact Holdc.
    rewrite (bind_step _ _ _ _ _
               (Forum_update_trackers_succeeds old_forum (tr_forum old) wd
                  Hofd Holdd)).
    unfold ret.
    pose proof (Forum_update_trackers_frame old_forum wd) as F.
    destruct F as (T & P & _).
    apply update_trackers_Ok in U.
    destruct U as (k0 & lp & U1 & U2 & U3 & U4 & U5 & U6 & U7 & _ & _ & _
                   & _ & U12 & _).
    assert (k0 = k) by congruence. subst k0.
    exists s3, (world_of (Forum.update_trackers old_forum wd)), lp.
    split; [reflexivity|].
    split; [rewrite <- (posts_of_ext k _ _ Hpb); exact U3|].
    split; [unfold get_topic; rewrite T; exact U5|].
    split; [congruence|]. split; [exact U7|].
    split; [rewrite U6; rewrite (posts_of_ext k _ _ Hpb); reflexivity|].
    rewrite P. simpl. rewrite U4. exact Hpb. }
  destruct S as (self' & w' & lp & Hsave & F1 & F2 & F3 & F4 & F5 & F6).
  pose proof (Topic_save_routes _ _ _ _ _ _ _ _ Hsave Ht Hold) as R.
  rewrite Hneb in R. destruct R as (evs1 & evs2 & L & E1 & E2).
  exists self', w', lp, evs1, evs2. repeat split; assumption.
Qed.

Lemma X14_witness :
  exists self' w',
    AbstractTopic.save Sample.slugify 200
      (AbstractTopic.mk (Some 1) 2 7 "Hello" "Hello" 0 0 true 2 0 100 102
                        None None) Sample.w_two = Ok self' w' /\
    option_map tr_forum (get_topic 1 (db Sample.w_two)) = Some 1 /\
    option_map tr_forum (get_topic 1 (db w')) = Some 2 /\
    option_map tr_updated (get_topic 1 (db w')) = Some 102 /\
    log w' = log Sample.w_two ++
             [TopicGet 1; TopicModelSave 1; TopicUpdateTrackers (Some 1);
              TopicModelSave 1; ForumUpdateTrackers 2; ForumRefresh 1;
              ForumUpdateTrackers 1] /\
    exists self'' w'' lp evs1 evs2,
      AbstractTopic.save Sample.slugify 200
        (AbstractTopic.mk (Some 1) 2 7 "Hello" "Hello" 0 0 true 2 0 100 102
                          None None) Sample.w_two = Ok self'' w'' /\
      latest (posts_of 1 (db Sample.w_two)) = Some lp /\
      get_topic 1 (db w'') = Some (AbstractTopic.to_row 1 self'') /\
      AbstractTopic.forum self'' = 2 /\
      AbstractTopic.updated self'' = pr_created lp /\
      AbstractTopic.posts_count self''
        = length (posts_of 1 (db Sample.w_two)) /\
      posts (db w'') = posts (db Sample.w_two) /\
      log w'' = log Sample.w_two ++
                [TopicGet 1; TopicModelSave 1; TopicUpdateTrackers (Some 1);
                 TopicModelSave 1]
                ++ ForumUpdateTrackers 2 :: evs1
                ++ ForumRefresh 1 :: ForumUpdateTrackers 1 :: evs2 /\
      forallb forum_event evs1 = true /\ forallb forum_event evs2 = true.
Proof.
  do 2 eexists. split; [cbv; reflexivity|]. split; [reflexivity|].
  split; [reflexivity|]. split; [reflexivity|]. split; [reflexivity|].
  apply (X14_save_with_another_forum Sample.slugify 200
           (AbstractTopic.mk (Some 1) 2 7 "Hello" "Hello" 0 0 true 2 0 100 102
                             None None) Sample.w_two 1
           (mkTopicRow 1 1 7 "Hello" "Hello" 0 0 true 2 0 100 102)).
  - reflexivity.
  - cbv; reflexivity.
  - discriminate.
  - cbv; discriminate.
  - cbv; reflexivity.
  - cbv; reflexivity.
Defined.

(** ** More on the position of a post *)

Lemma position_of_stored_post r topic d k :
  AbstractTopic.pk topic = Some k ->
  NoDup (map pr_id (posts d)) ->
  In r (posts_of k d) ->
  AbstractPost.position (AbstractPost.of_row r) topic d
  = S (length (filter (fun q => pr_created q <? pr_created r) (posts_of k d))).
Proof.
  intros Hk ND Hin.
  unfold AbstractPost.position. rewrite Hk. simpl.
  unfold AbstractPost.same_id. simpl.
  assert (ND' : NoDup (map pr_id (posts_of k d)))
    by (apply NoDup_map_filter; exact ND).
  rewrite count_or_disjoint.
  - rewrite (count_key_unique pr_id _ r ND' Hin). lia.
  - intros x Hx Hlt. apply Z.eqb_neq. intros Hid.
    assert (x = r) by (apply (NoDup_key_inj pr_id _ x r ND' Hx Hin); exact Hid).
    subst x. apply Z.ltb_lt in Hlt. lia.
Qed.

Lemma count_le {A} (f g : A -> bool) (l : list A) :
  (forall y, In y l -> f y = true -> g y = true) ->
  (length (filter f l) <= length (filter g l))%nat.
Proof.
  induction l as [|z l IH]; simpl; intros Hsub; [lia|].
  assert (IH' := IH (fun y Hy => Hsub y (or_intror Hy))).
  destruct (f z) eqn:Ef.
  - rewrite (Hsub z (or_introl eq_refl) Ef). simpl. lia.
  - destruct (g z); simpl; lia.
Qed.

Lemma count_strictly_more {A} (f g : A -> bool) (l : list A) x :
  (forall y, In y l -> f y = true -> g y = true) ->
  In x l -> f x = false -> g x = true ->
  (length (filter f l) < length (filter g l))%nat.
Proof.
  induction l as [|y l IH]; simpl; intros Hsub Hin Hf Hg; [contradiction|].
  assert (Hle := count_le f g l (fun y0 Hy => Hsub y0 (or_intror Hy))).
  destruct Hin as [->|Hin].
  - rewrite Hf, Hg. simpl. lia.
  - assert (IH' := IH (fun y0 Hy => Hsub y0 (or_intror Hy)) Hin Hf Hg).
    destruct (f y) eqn:Ef.
    + rewrite (Hsub y (or_introl eq_refl) Ef). simpl. lia.
    + destruct (g y); simpl; lia.
Qed.

(** X15.  Among the posts stored in one topic (primary keys being
    unique), [position] follows the creation time: a post created
    strictly before another has a strictly smaller position; and the
    position of every post of the topic lies between 1 and the number
    of posts of the topic. *)
Theorem X15_position_follows_creation topic d k :
  AbstractTopic.pk topic = Some k ->
  NoDup (map pr_id (posts d)) ->
  (forall p q,
     In p (posts_of k d) -> In q (posts_of k d) ->
     pr_created p < pr_created q ->
     (AbstractPost.position (AbstractPost.of_row p) topic d
      < AbstractPost.position (AbstractPost.of_row q) topic d)%nat) /\
  (forall r,
     In r (posts_of k d) ->
     (1 <= AbstractPost.position (AbstractPost.of_row r) topic d
      <= length (posts_of k d))%nat).
Proof.
  intros Hk ND. split.
  - intros p q Hp Hq Hlt.
    rewrite (position_of_stored_post p topic d k Hk ND Hp),
      (position_of_stored_post q topic d k Hk ND Hq).
    apply -> Nat.succ_lt_mono.
    apply (count_strictly_more _ _ _ p); auto.
    + intros y _ Hy. apply Z.ltb_lt in Hy. apply Z.ltb_lt. lia.
    + apply Z.ltb_irrefl.
    + apply Z.ltb_lt. exact Hlt.
  - intros r Hr.
    rewrite (position_of_stored_post r topic d k Hk ND Hr).
    pose proof (count_strictly_more
                  (fun x => pr_created x <? pr_created r) (fun _ => true)
                  (posts_of k d) r (fun _ _ _ => eq_refl) Hr
                  (Z.ltb_irrefl _) eq_refl) as C.
    rewrite (filter_all (fun _ => true)) in C by reflexivity. lia.
Qed.

Lemma X15_witness :
  AbstractTopic.pk Sample.topic1 = Some 1 /\
  NoDup (map pr_id (posts (db Sample.w_two))) /\
  AbstractPost.position Sample.post1 Sample.topic1 (db Sample.w_two) = 1%nat /\
  AbstractPost.position Sample.post2 Sample.topic1 (db Sample.w_two) = 2%nat /\
  (AbstractPost.position
     (AbstractPost.of_row (AbstractPost.to_row 1 1 Sample.post1))
     Sample.topic1 (db Sample.w_two)
   < AbstractPost.position
       (AbstractPost.of_row (AbstractPost.to_row 2 1 Sample.post2))
       Sample.topic1 (db Sample.w_two))%nat /\
  (1 <= AbstractPost.position
          (AbstractPost.of_row (AbstractPost.to_row 2 1 Sample.post2))
          Sample.topic1 (db Sample.w_two)
   <= length (posts_of 1 (db Sample.w_two)))%nat.
Proof.
  assert (H1 : AbstractTopic.pk Sample.topic1 = Some 1) by reflexivity.
  assert (H2 : NoDup (map pr_id (posts (db Sample.w_two)))).
  { cbv. repeat constructor; simpl; intuition discriminate. }
  split; [exact H1|]. split; [exact H2|].
  split; [reflexivity|]. split; [reflexivity|]. split.
  - apply (proj1 (X15_position_follows_creation Sample.topic1
                    (db Sample.w_two) 1 H1 H2)).
    + cbv. left; reflexivity.
    + cbv. right; left; reflexivity.
    + reflexivity.
  - apply (proj2 (X15_position_follows_creation Sample.topic1
                    (db Sample.w_two) 1 H1 H2)).
    cbv. right; left; reflexivity.
Defined.

(** X16.  A post stored in its topic has position 1 exactly when no
    post of the topic was created strictly before it; in particular the
    post that [first_post] yields on an instance without memo has
    position 1. *)
Theorem X16_position_one_is_earliest r topic d k :
  AbstractTopic.pk topic = Some k ->
  NoDup (map pr_id (posts d)) ->
  In r (posts_of k d) ->
  (AbstractPost.position (AbstractPost.of_row r) topic d = 1%nat
   <-> forall q, In q (posts_of k d) -> pr_created r <= pr_created q) /\
  (AbstractTopic._first_post topic = None ->
   first_post_value topic d = Some r ->
   AbstractPost.position (AbstractPost.of_row r) topic d = 1%nat).
Proof.
  intros Hk ND Hin.
  rewrite (position_of_stored_post r topic d k Hk ND Hin).
  assert (Hiff : S (length (filter (fun q => pr_created q <? pr_created r)
                                   (posts_of k d))) = 1%nat
                 <-> forall q, In q (posts_of k d) ->
                               pr_created r <= pr_created q).
  { split.
    - intros H q Hq.
      destruct (filter _ (posts_of k d)) as [|z l] eqn:E; [|discriminate].
      destruct (Z.ltb_spec (pr_created q) (pr_created r)) as [Hlt|Hge];
        [|exact Hge].
      exfalso.
      assert (Hz : In q (filter (fun q => pr_created q <? pr_created r)
                                (posts_of k d))).
      { apply filter_In. split; [exact Hq | apply Z.ltb_lt; exact Hlt]. }
      rewrite E in Hz. contradiction.
    - intros H. f_equal.
      destruct (filter _ (posts_of k d)) as [|z l] eqn:E; [reflexivity|].
      exfalso.
      assert (Hz : In z (filter (fun q => pr_created q <? pr_created r)
                                (posts_of k d))) by (rewrite E; left; auto).
      apply filter_In in Hz. destruct Hz as [Hz Hlt].
      apply Z.ltb_lt in Hlt. specialize (H z Hz). lia. }
  split; [exact Hiff|].
  intros Hm Hf. apply Hiff.
  unfold first_post_value in Hf. rewrite Hm, Hk in Hf. simpl in Hf.
  apply earliest_spec in Hf. tauto.
Qed.

Lemma X16_witness :
  AbstractTopic.pk Sample.topic1 = Some 1 /\
  first_post_value Sample.topic1 (db Sample.w_two)
    = Some (AbstractPost.to_row 1 1 Sample.post1) /\
  AbstractPost.position
    (AbstractPost.of_row (AbstractPost.to_row 1 1 Sample.post1))
    Sample.topic1 (db Sample.w_two) = 1%nat.
Proof.
  assert (H1 : AbstractTopic.pk Sample.topic1 = Some 1) by reflexivity.
  assert (H2 : NoDup (map pr_id (posts (db Sample.w_two)))).
  { cbv. repeat constructor; simpl; intuition discriminate. }
  assert (H3 : In (AbstractPost.to_row 1 1 Sample.post1)
                  (posts_of 1 (db Sample.w_two))).
  { cbv. left; reflexivity. }
  assert (H4 : first_post_value Sample.topic1 (db Sample.w_two)
               = Some (AbstractPost.to_row 1 1 Sample.post1)) by reflexivity.
  split; [exact H1|]. split; [exact H4|].
  exact (proj2 (X16_position_one_is_earliest _ Sample.topic1
                  (db Sample.w_two) 1 H1 H2 H3) eq_refl H4).
Defined.

(** ** Printing a topic *)

(** X17.  [__str__] always yields a string (the [[0]] behind the test
    [posts.exists()] never fails).  For a topic without posts it is the
    key in decimal; otherwise it is the subject of a post of the topic
    that no post of the topic is older than, read from the database
    whatever the memo of the first post holds. *)
Theorem X17_str_of_a_topic self d :
  exists s,
    AbstractTopic.__str__ self d = Some s /\
    (related_posts (AbstractTopic.pk self) d = [] ->
     s = format_id (AbstractTopic.pk self)) /\
    (related_posts (AbstractTopic.pk self) d <> [] ->
     exists p,
       In p (related_posts (AbstractTopic.pk self) d) /\
       (forall q, In q (related_posts (AbstractTopic.pk self) d) ->
                  pr_created p <= pr_created q) /\
       s = pr_subject p) /\
    forall c, AbstractTopic.__str__ (AbstractTopic.with_first_post c self) d
              = Some s.
Proof.
  unfold AbstractTopic.__str__. simpl.
  destruct (related_posts (AbstractTopic.pk self) d) as [|x l] eqn:E.
  - eexists. split; [reflexivity|]. split; [reflexivity|].
    split; [intros H; contradiction|]. reflexivity.
  - destruct (earliest (x :: l)) as [p|] eqn:Ep;
      [|apply earliest_None in Ep; discriminate].
    exists (pr_subject p). split; [reflexivity|].
    split; [discriminate|]. split; [|reflexivity].
    intros _. exists p. destruct (earliest_spec _ _ Ep). auto.
Qed.

(** X18.  After a save of the first post of a topic (the instance
    having had no memoised first post), the topic prints as its stored
    subject: both are the subject of the saved post. *)
Theorem X18_str_after_head_save now self topic w r w' k :
  AbstractPost.save now self topic w = Ok r w' ->
  AbstractTopic.pk topic = Some k ->
  AbstractTopic._first_post topic = None ->
  option_map pr_id (earliest (posts_of k (db w'))) = AbstractPost.pk (fst r) ->
  AbstractTopic.__str__ (snd r) (db w') = Some (AbstractPost.subject self) /\
  option_map tr_subject (get_topic k (db w'))
    = Some (AbstractPost.subject self).
Proof.
  intros H Hk Hm Hhead.
  destruct (Post_save_inv _ _ _ _ _ _ H) as (w1 & x & Hs & Hx & T).
  destruct (Post_Model_save_inv _ _ _ _ _ _ Hs)
    as (tk & pid & Htk & Hpid & _ & Hsub & Happ & _ & _ & _ & _ & Hin & Hall).
  assert (tk = k) by congruence. subst tk.
  set (t1 := mirrored _ _ _) in T.
  destruct T as (k0 & lp & Hk0 & Hk0' & _ & Hp & Hg & _ & _ & _ & _ & Hsu & _).
  assert (Hkk : AbstractTopic.pk t1 = Some k).
  { subst t1.
    rewrite (proj1 (mirrored_data _ _ _)), (proj1 (memo_first_data _ _)).
    exact Hk. }
  assert (k0 = k) by congruence. subst k0.
  unfold first_post_value in Hx. rewrite Hm, Hk in Hx. simpl in Hx.
  rewrite (posts_of_ext k _ _ Hp), Hx, Hpid in Hhead. simpl in Hhead.
  inversion Hhead as [Hid].
  pose proof (earliest_spec _ _ Hx) as [Hxin _].
  assert (Hxrow : x = AbstractPost.to_row pid k (fst r)).
  { apply Hall; [|exact Hid].
    unfold posts_of in Hxin. apply filter_In in Hxin. tauto. }
  split.
  - unfold AbstractTopic.__str__. rewrite Hk0'. simpl.
    rewrite (posts_of_ext k _ _ Hp).
    destruct (posts_of k (db w1)) as [|y l] eqn:E; [contradiction|].
    rewrite Hx. simpl. rewrite Hxrow. simpl. rewrite Hsub. reflexivity.
  - rewrite Hg. simpl. rewrite Hsu. subst t1.
    assert (Hsame : AbstractPost.same_id x (fst r) = true)
      by (unfold AbstractPost.same_id; rewrite Hpid, Hid; apply Z.eqb_refl).
    rewrite Hsame, (proj1 (mirrored_head _ _)), Hsub. reflexivity.
Qed.

Lemma X18_witness :
  exists r w',
    AbstractPost.save 101 (Sample.new_post "Hi") Sample.topic1
                      Sample.w_topic = Ok r w' /\
    option_map tr_subject (get_topic 1 (db Sample.w_topic))
      = Some "Hello"%string /\
    AbstractTopic.__str__ (snd r) (db w')
      = Some (AbstractPost.subject (Sample.new_post "Hi")) /\
    option_map tr_subject (get_topic 1 (db w'))
      = Some (AbstractPost.subject (Sample.new_post "Hi")).
Proof.
  do 2 eexists. split; [cbv; reflexivity|]. split; [reflexivity|].
  apply (X18_str_after_head_save 101 (Sample.new_post "Hi") Sample.topic1
           Sample.w_topic _ _ 1);
    [cbv; reflexivity | reflexivity | reflexivity | reflexivity].
Defined.

(** ** The lightweight save on its own *)

(** X19.  [_simple_save] on an instance with a key always completes.
    It stores the instance under its key with [updated] as the instance
    holds it, leaves the other topic rows, the forums and the posts
    alone, and ends with [auto_now] switched on, also when it was off
    at the call. *)
Theorem X19_simple_save now self w k :
  AbstractTopic.pk self = Some k ->
  exists self' w',
    AbstractTopic._simple_save now self w = Ok self' w' /\
    get_topic k (db w') = Some (AbstractTopic.to_row k self') /\
    AbstractTopic.updated self' = AbstractTopic.updated self /\
    AbstractTopic.subject self' = AbstractTopic.subject self /\
    AbstractTopic.posts_count self' = AbstractTopic.posts_count self /\
    (forall j, j <> k -> get_topic j (db w') = get_topic j (db w)) /\
    forums (db w') = forums (db w) /\
    posts (db w') = posts (db w) /\
    auto_now w' = true /\
    log w' = log w ++ [TopicModelSave k].
Proof.
  intros Hk.
  destruct (simple_save_spec now self w k Hk)
    as (s' & w' & E & _ & Hd & Hu & Hg & Hf & Hp & Ha & Hl).
  exists s', w'. destruct Hd as (_ & D2 & _ & D4 & _).
  repeat split; auto.
  exact (simple_save_others _ _ _ k _ _ E Hk).
Qed.

Lemma X19_witness :
  AbstractTopic.pk Sample.topic1 = Some 1 /\
  exists self' w',
    AbstractTopic._simple_save 200 Sample.topic1
      (mkWorld (db Sample.w_two) false []) = Ok self' w' /\
    AbstractTopic.updated self' = 100 /\
    auto_now w' = true.
Proof.
  assert (H : AbstractTopic.pk Sample.topic1 = Some 1) by reflexivity.
  split; [exact H|].
  destruct (X19_simple_save 200 Sample.topic1
              (mkWorld (db Sample.w_two) false []) 1 H)
    as (s' & w' & E & _ & Hu & _ & _ & _ & _ & _ & Ha & _).
  exists s', w'. split; [exact E|]. split; [exact Hu | exact Ha].
Defined.

(** ** Deleting a topic *)

(** X20.  Deleting a topic that has no key raises [AssertionError] and
    changes nothing.  A delete that completes has removed the topic and
    its posts, left every other topic and its posts alone, and then run
    the forum-level tracker update from the topic's forum; it completes
    whenever the hierarchy above that forum is a finite chain. *)
Theorem X20_topic_delete self w :
  (AbstractTopic.pk self = None ->
   AbstractTopic.delete self w = Raise AssertionError w) /\
  (forall k,
     AbstractTopic.pk self = Some k ->
     (well_rooted (db w) (AbstractTopic.forum self) ->
      exists w', AbstractTopic.delete self w = Ok tt w') /\
     (forall u w',
        AbstractTopic.delete self w = Ok u w' ->
        get_topic k (db w') = None /\
        posts_of k (db w') = [] /\
        (forall j, j <> k ->
           get_topic j (db w') = get_topic j (db w) /\
           posts_of j (db w') = posts_of j (db w)) /\
        exists evs,
          log w' = log w ++ TopicModelDelete k
                         :: ForumUpdateTrackers (AbstractTopic.forum self)
                         :: evs /\
          forallb forum_event evs = true)).
Proof.
  split.
  - intros Hk. unfold AbstractTopic.delete. apply bind_stop.
    unfold AbstractTopic.Model_delete. rewrite Hk. reflexivity.
  - intros k Hk. split.
    + intros Hr. exact (Topic_delete_succeeds self w k Hk Hr).
    + intros u w' H.
      destruct (Topic_delete_spec _ _ _ _ k H Hk) as (Hg & Hp & _ & Hl & _).
      split; [exact Hg|]. split; [exact Hp|]. split; [|exact Hl].
      exact (Topic_delete_frame _ _ _ _ k H Hk).
Qed.

Lemma X20_witness :
  AbstractTopic.pk Sample.topic1 = Some 1 /\
  well_rooted (db Sample.w_two) (AbstractTopic.forum Sample.topic1) /\
  exists w', AbstractTopic.delete Sample.topic1 Sample.w_two = Ok tt w'.
Proof.
  assert (H1 : AbstractTopic.pk Sample.topic1 = Some 1) by reflexivity.
  assert (H2 : well_rooted (db Sample.w_two)
                           (AbstractTopic.forum Sample.topic1))
    by (cbv; reflexivity).
  split; [exact H1|]. split; [exact H2|].
  exact (proj1 (proj2 (X20_topic_delete Sample.topic1 Sample.w_two) 1 H1) H2).
Defined.

(** ** Primary keys stay unique *)

Lemma map_key_replace {A} (key : A -> Z) (k : Z) (x : A) (l : list A) :
  key x = k ->
  map key (map (fun r => if key r =? k then x else r) l) = map key l.
Proof.
  intros Hx. induction l as [|y l IH]; simpl; [reflexivity|].
  rewrite IH. f_equal. destruct (key y =? k) eqn:E; [|reflexivity].
  apply Z.eqb_eq in E. congruence.
Qed.

Lemma NoDup_key_append {A} (key : A -> Z) (k : Z) (x : A) (l : list A) :
  key x = k ->
  existsb (fun r => key r =? k) l = false ->
  NoDup (map key l) -> NoDup (map key (l ++ [x])).
Proof.
  intros Hx E ND. rewrite map_app. simpl.
  apply NoDup_app; [exact ND | repeat constructor; intros [] |].
  intros a Ha [<-|[]]. apply in_map_iff in Ha. destruct Ha as (r & Hr & Hin).
  apply (existsb_key_false key k l E r Hin). congruence.
Qed.

Lemma Topic_Model_save_keys now self :
  preserves keys_unique (AbstractTopic.Model_save now self).
Proof.
  intros w (F & T & P). unfold AbstractTopic.Model_save.
  destruct (AbstractTopic.pk self) as [k|].
  - destruct (existsb _ _) eqn:E; simpl; repeat split; auto;
      unfold AbstractTopic.put_topics; simpl.
    + rewrite (map_key_replace tr_id k); auto.
    + apply (NoDup_key_append tr_id k); auto.
  - simpl. repeat split; auto. unfold AbstractTopic.put_topics; simpl.
    apply (NoDup_key_append tr_id (next_id (map tr_id (topics (db w)))));
      auto. apply next_id_absent.
Qed.

Lemma store_keys r d : keys_unique d -> keys_unique (Forum.store r d).
Proof.
  intros (F & T & P). unfold Forum.store. repeat split; auto. simpl.
  destruct (existsb _ _) eqn:E.
  - rewrite (map_key_replace f_id (f_id r)); auto.
  - apply (NoDup_key_append f_id (f_id r)); auto.
Qed.

Lemma Forum_update_trackers_from_keys fuel :
  forall self, preserves keys_unique (Forum.update_trackers_from fuel self).
Proof.
  induction fuel as [|n IH]; intros self w Hw.
  - exact Hw.
  - rewrite update_trackers_from_S. cbv zeta.
    set (w1 := mkWorld _ _ _).
    assert (H1 : keys_unique (db w1)) by (apply store_keys; exact Hw).
    destruct (f_parent self) as [p|]; [|exact H1].
    destruct (get_forum p (db w1)) as [parent|]; [|exact H1].
    apply IH. exact H1.
Qed.

Lemma Forum_update_trackers_keys self :
  preserves keys_unique (Forum.update_trackers self).
Proof. intros w Hw. apply Forum_update_trackers_from_keys. exact Hw. Qed.

Lemma load_forum_keys {I : DB -> Prop} k : preserves I (load_forum k).
Proof. apply preserves_same_db. intros w. apply f_equal, load_forum_world. Qed.

Lemma update_trackers_keys now self :
  preserves keys_unique (AbstractTopic.update_trackers now self).
Proof.
  unfold AbstractTopic.update_trackers.
  apply preserves_bind; [apply preserves_same_db; reflexivity|]. intros _.
  intros w Hw. unfold bind at 1, get_db.
  destruct (latest _) as [lp|]; [|exact Hw].
  refine (preserves_bind keys_unique _ _ _ _ w Hw).
  - unfold AbstractTopic._simple_save.
    apply preserves_bind; [apply preserves_same_db; reflexivity|]. intros _.
    apply preserves_bind; [apply Topic_Model_save_keys|]. intros s.
    apply preserves_bind;
      [|intros _]; apply preserves_same_db; reflexivity.
  - intros s3. apply preserves_bind; [apply load_forum_keys|]. intros f.
    apply preserves_bind; [apply Forum_update_trackers_keys|]. intros _.
    apply preserves_same_db; reflexivity.
Qed.

(** ** Editing a stored post *)

Lemma Post_Model_save_existing now self topic w self1 w1 k pid :
  AbstractPost.Model_save now self topic w = Ok self1 w1 ->
  AbstractPost.pk self = Some pid ->
  AbstractTopic.pk topic = Some k ->
  existsb (fun r => pr_id r =? pid) (posts (db w)) = true ->
  AbstractPost.pk self1 = Some pid /\
  AbstractPost.created self1 = AbstractPost.created self /\
  AbstractPost.updated self1 = now /\
  posts (db w1)
  = map (fun r => if pr_id r =? pid then AbstractPost.to_row pid k self1 else r)
        (posts (db w)).
Proof.
  unfold AbstractPost.Model_save. intros H Hp Hk E. rewrite Hk, Hp, E in H.
  inversion H; subst; clear H. simpl. auto.
Qed.

Lemma latest_created_ext l l' :
  map pr_created l = map pr_created l' ->
  option_map pr_created (latest l) = option_map pr_created (latest l').
Proof.
  revert l'. induction l as [|x l IH]; intros [|y l'] H; simpl in *;
    try discriminate; [reflexivity|].
  inversion H as [[Hc Hl]]. specialize (IH l' Hl).
  destruct (latest l) as [q|], (latest l') as [q'|]; simpl in IH;
    try discriminate.
  - inversion IH as [Hq]. rewrite Hc, Hq.
    destruct (pr_created y <? pr_created q'); simpl; congruence.
  - simpl. congruence.
Qed.

(** X22.  Saving a post that is already stored in the topic (the
    instance carrying the stored creation time) stamps the post's
    [updated] and keeps its [created]; the topic's stored [posts_count]
    is the number of posts it had, and its stored [updated] is still
    the creation time of its last post: an edit does not move the
    topic's time stamp. *)
Theorem X22_edit_keeps_count_and_stamp now self topic w r w' k old :
  AbstractPost.save now self topic w = Ok r w' ->
  AbstractTopic.pk topic = Some k ->
  AbstractPost.pk self = Some (pr_id old) ->
  NoDup (map pr_id (posts (db w))) ->
  In old (posts_of k (db w)) ->
  AbstractPost.created self = pr_created old ->
  exists row,
    get_topic k (db w') = Some row /\
    tr_posts_count row = length (posts_of k (db w)) /\
    Some (tr_updated row)
      = option_map pr_created (latest (posts_of k (db w))) /\
    option_map pr_created (get_post (pr_id old) (db w'))
      = Some (pr_created old) /\
    option_map pr_updated (get_post (pr_id old) (db w')) = Some now.
Proof.
  intros H Hk Hp ND Hin Hc.
  set (pid := pr_id old) in *.
  destruct (Post_save_steps _ _ _ _ _ _ H) as (w1 & t1 & Hs & Hk1 & _ & Hu).
  rewrite Hk in Hk1.
  assert (Hold : In old (posts (db w)) /\ pr_topic old = k).
  { unfold posts_of in Hin. apply filter_In in Hin.
    destruct Hin as [Hin Ht]. apply Z.eqb_eq in Ht. auto. }
  destruct Hold as [Hold Htopic].
  assert (E : existsb (fun r => pr_id r =? pid) (posts (db w)) = true).
  { apply existsb_exists. exists old. split; [exact Hold | apply Z.eqb_refl]. }
  destruct (Post_Model_save_existing _ _ _ _ _ _ k pid Hs Hp Hk E)
    as (Hpid & Hcr & Hup & Hposts).
  set (new := AbstractPost.to_row pid k (fst r)) in *.
  assert (Honly : forall x, In x (posts (db w)) -> pr_id x = pid -> x = old).
  { intros x Hx Hid. apply (NoDup_key_inj pr_id _ x old ND Hx Hold Hid). }
  assert (Hof : posts_of k (db w1)
                = map (fun x => if pr_id x =? pid then new else x)
                      (posts_of k (db w))).
  { unfold posts_of. rewrite Hposts.
    assert (G : forall l, (forall x, In x l -> In x (posts (db w))) ->
              filter (fun p => pr_topic p =? k)
                     (map (fun x => if pr_id x =? pid then new else x) l)
              = map (fun x => if pr_id x =? pid then new else x)
                    (filter (fun p => pr_topic p =? k) l)).
    { induction l as [|x l IH]; intros Hsub; simpl; [reflexivity|].
      rewrite IH by (intros y Hy; apply Hsub; right; exact Hy).
      destruct (pr_id x =? pid) eqn:Ex.
      - apply Z.eqb_eq in Ex.
        rewrite (Honly x (Hsub x (or_introl eq_refl)) Ex), Htopic.
        subst new. simpl. rewrite Z.eqb_refl. simpl.
        rewrite Z.eqb_refl. reflexivity.
      - destruct (pr_topic x =? k); simpl; [rewrite Ex|]; reflexivity. }
    apply G. auto. }
  assert (Hcreated : map pr_created (posts_of k (db w1))
                     = map pr_created (posts_of k (db w))).
  { rewrite Hof, map_map. apply map_ext_in. intros x Hx.
    destruct (pr_id x =? pid) eqn:Ex; [|reflexivity].
    apply Z.eqb_eq in Ex.
    assert (Hx' : In x (posts (db w)))
      by (unfold posts_of in Hx; apply filter_In in Hx; tauto).
    rewrite (Honly x Hx' Ex). subst new. simpl. congruence. }
  pose proof Hu as Hu'. apply update_trackers_Ok in Hu'.
  destruct Hu' as (k0 & lp & Hk0 & _ & Hl & P & Hg & Hcount & Hupd & _).
  assert (k0 = k) by congruence. subst k0.
  exists (AbstractTopic.to_row k (snd r)).
  split; [exact Hg|]. split; [|split; [|split]].
  - simpl. rewrite Hcount, Hof. apply length_map.
  - simpl. rewrite Hupd.
    rewrite <- (latest_created_ext _ _ Hcreated), Hl. reflexivity.
  - unfold get_post. rewrite P, Hposts.
    rewrite (find_replace pr_id pid new) by (auto).
    subst new. simpl. congruence.
  - unfold get_post. rewrite P, Hposts.
    rewrite (find_replace pr_id pid new) by (auto).
    subst new. simpl. congruence.
Qed.

Lemma X22_witness :
  exists r w',
    AbstractPost.save 150
      (AbstractPost.mk (Some 1) 7 "Hello again" "body" true 101 101)
      Sample.topic1 Sample.w_two = Ok r w' /\
    option_map tr_updated (get_topic 1 (db w')) = Some 102 /\
    exists row,
      get_topic 1 (db w') = Some row /\
      tr_posts_count row = length (posts_of 1 (db Sample.w_two)) /\
      Some (tr_updated row)
        = option_map pr_created (latest (posts_of 1 (db Sample.w_two))) /\
      option_map pr_created (get_post 1 (db w')) = Some 101 /\
      option_map pr_updated (get_post 1 (db w')) = Some 150.
Proof.
  do 2 eexists. split; [cbv; reflexivity|]. split; [reflexivity|].
  eapply (X22_edit_keeps_count_and_stamp 150
            (AbstractPost.mk (Some 1) 7 "Hello again" "body" true 101 101)
            Sample.topic1 Sample.w_two _ _ 1
            (AbstractPost.to_row 1 1 Sample.post1)).
  - cbv; reflexivity.
  - reflexivity.
  - reflexivity.
  - cbv. repeat constructor; simpl; intuition discriminate.
  - cbv. left; reflexivity.
  - reflexivity.
Defined.

(** ** Running the tracker update twice *)

Lemma map_replace_same {A} (key : A -> Z) (k : Z) (x : A) (l : list A) :
  NoDup (map key l) ->
  find (fun r => key r =? k) l = Some x ->
  map (fun r => if key r =? k then x else r) l = l.
Proof.
  intros ND Hf. pose proof (find_some _ _ Hf) as [Hin Hk].
  apply Z.eqb_eq in Hk.
  rewrite <- (map_id l) at 2. apply map_ext_in. intros y Hy.
  destruct (key y =? k) eqn:E; [|reflexivity].
  apply Z.eqb_eq in E.
  apply (NoDup_key_inj key l x y ND Hin Hy). congruence.
Qed.

Lemma Topic_Model_save_same now self w k :
  AbstractTopic.pk self = Some k ->
  auto_now w = false ->
  NoDup (map tr_id (topics (db w))) ->
  get_topic k (db w) = Some (AbstractTopic.to_row k self) ->
  AbstractTopic.Model_save now self w
  = Ok self (mkWorld (db w) false (log w ++ [TopicModelSave k])).
Proof.
  intros Hk Ha ND Hg. unfold AbstractTopic.Model_save. rewrite Hk, Ha.
  unfold get_topic in Hg. destruct (find_key tr_id k _ _ Hg) as [_ E].
  rewrite E. unfold AbstractTopic.put_topics.
  rewrite (map_replace_same tr_id k _ _ ND Hg).
  destruct (db w). reflexivity.
Qed.

(** X23.  The tracker update is idempotent on topics and posts.  For a
    topic with a post, in a database with unique keys and a finite
    forum chain, the update completes, and run again on the instance it
    handed back it completes again, hands back the same instance and
    leaves every topic row and every post row as the first run left
    them. *)
Theorem X23_update_trackers_idempotent now now2 topic w k :
  AbstractTopic.pk topic = Some k ->
  posts_of k (db w) <> [] ->
  well_rooted (db w) (AbstractTopic.forum topic) ->
  keys_unique (db w) ->
  exists t1 w1 w2,
    AbstractTopic.update_trackers now topic w = Ok t1 w1 /\
    AbstractTopic.update_trackers now2 t1 w1 = Ok t1 w2 /\
    topics (db w2) = topics (db w1) /\
    posts (db w2) = posts (db w1).
Proof.
  intros Hk Hne Hr Hkeys.
  destruct (update_trackers_succeeds now topic w k Hk Hne Hr) as (t1 & w1 & U).
  pose proof (update_trackers_keys now topic w Hkeys) as K1.
  rewrite U in K1. simpl in K1.
  pose proof (update_trackers_Ok _ _ _ _ _ U) as T.
  destruct (update_trackers_frame _ _ _ _ _ k U Hk) as (_ & _ & ST).
  destruct T as (k0 & lp & Hk0 & Hk1 & Hl & P & Hg & Hc & Hu & Hlast & _ & _
                 & _ & Hfo & Ha & _).
  assert (k0 = k) by congruence. subst k0.
  exists t1, w1.
  rewrite (update_trackers_eq now2 t1 w1). cbv zeta.
  rewrite Hk1. simpl related_posts.
  rewrite (posts_of_ext k _ _ P), Hl.
  set (wa := mkWorld (db w1) (auto_now w1)
                     (log w1 ++ [TopicUpdateTrackers (Some k)])).
  assert (Hsame : AbstractTopic.with_updated (pr_created lp)
                    (AbstractTopic.with_last_post (Some lp)
                       (AbstractTopic.with_posts_count
                          (length (posts_of k (db w))) t1)) = t1).
  { destruct t1. simpl in *. subst. reflexivity. }
  rewrite Hsame.
  assert (S2 : AbstractTopic._simple_save now2 t1 wa
               = Ok t1 (mkWorld (db w1) true
                          (log wa ++ [TopicModelSave k]))).
  { unfold AbstractTopic._simple_save, bind, set_auto_now.
    rewrite (Topic_Model_save_same now2 t1
               (mkWorld (db wa) false (log wa)) k Hk1 eq_refl
               (proj1 (proj2 K1)) Hg).
    reflexivity. }
  rewrite (bind_step _ _ _ _ _ S2).
  set (wb := mkWorld (db w1) true (log wa ++ [TopicModelSave k])).
  assert (Hr1 : well_rooted (db wb) (AbstractTopic.forum t1)).
  { rewrite Hfo. apply (well_rooted_same_tree (db w)); assumption. }
  destruct (well_rooted_exists _ _ Hr1) as (f & Hf).
  assert (L : load_forum (AbstractTopic.forum t1) wb = Ok f wb)
    by (unfold load_forum; rewrite Hf; reflexivity).
  rewrite (bind_step _ _ _ _ _ L).
  rewrite (bind_step _ _ _ _ _
             (Forum_update_trackers_succeeds f _ wb Hf Hr1)).
  unfold ret. eexists. split; [exact U|]. split; [reflexivity|].
  destruct (Forum_update_trackers_frame f wb) as (T2 & P2 & _).
  split; [exact T2 | exact P2].
Qed.

Lemma X23_witness :
  AbstractTopic.pk Sample.topic1 = Some 1 /\
  posts_of 1 (db Sample.w_two) <> [] /\
  exists t1 w1 w2,
    AbstractTopic.update_trackers 103 Sample.topic1 Sample.w_two = Ok t1 w1 /\
    AbstractTopic.update_trackers 104 t1 w1 = Ok t1 w2 /\
    topics (db w2) = topics (db w1) /\
    posts (db w2) = posts (db w1).
Proof.
  assert (H1 : AbstractTopic.pk Sample.topic1 = Some 1) by reflexivity.
  assert (H2 : posts_of 1 (db Sample.w_two) <> []) by (cbv; discriminate).
  split; [exact H1|]. split; [exact H2|].
  apply (X23_update_trackers_idempotent 103 104 Sample.topic1 Sample.w_two 1
           H1 H2).
  - cbv; reflexivity.
  - cbv. repeat split; repeat constructor; simpl; intuition discriminate.
Defined.

(** ** Saving a post and deleting it again *)




Lemma X1_witness :
  AbstractTopic.is_sticky
    (AbstractTopic.mk None 1 7 "s" "s" 1 0 true 0 0 0 0 None None) = true /\
  AbstractTopic.is_topic
    (AbstractTopic.mk None 1 7 "s" "s" 1 0 true 0 0 0 0 None None) = false /\
  AbstractTopic.is_announce
    (AbstractTopic.mk None 1 7 "s" "s" 1 0 true 0 0 0 0 None None) = false.
Proof.
  pose proof (X1_topic_type_predicates
                (AbstractTopic.mk None 1 7 "s" "s" 1 0 true 0 0 0 0 None None))
    as (_ & _ & _ & _).
  repeat split; reflexivity.
Defined.

Lemma X2_witness :
  first_post_value Sample.topic1 (db Sample.w_two)
    = Some (AbstractPost.to_row 1 1 Sample.post1) /\
  earliest (posts_of 1 (db Scenario.w_headless))
    = Some (AbstractPost.to_row 2 1 Sample.post2) /\
  AbstractTopic.first_post (memo_first Sample.topic1 (db Sample.w_two))
                           Scenario.w_headless
  = Ok (first_post_value Sample.topic1 (db Sample.w_two),
        memo_first Sample.topic1 (db Sample.w_two)) Scenario.w_headless.
Proof.
  split; [reflexivity|]. split; [reflexivity|].
  exact (proj1 (proj2 (proj2 (proj2 (proj2
           (X2_first_last_post_memoised Sample.topic1 Sample.w_two))))
           Scenario.w_headless)).
Defined.

Lemma X17_witness :
  AbstractTopic.__str__ Sample.topic1 (db Sample.w_topic) = Some "1"%string /\
  AbstractTopic.__str__ Sample.topic1 (db Scenario.w_headless)
    = Some "World"%string /\
  exists s, AbstractTopic.__str__ Sample.topic1 (db Sample.w_two) = Some s.
Proof.
  split; [reflexivity|]. split; [reflexivity|].
  destruct (X17_str_of_a_topic Sample.topic1 (db Sample.w_two))
    as (s & E & _).
  exists s. exact E.
Defined.
